(** * Auto-hide navigation controller (js/navbar.js) and the sidebar toggle
      of js/common.js: a shallow embedding and its verified properties.

    The browser is modelled as an explicit [World]: the controller's [state]
    and [CONFIG] objects, the cached [elements], the DOM nodes they point to,
    the timer and animation-frame queues, and the registered listeners.
    Handlers are computations in a state-and-exception monad, so that a
    property access on [null]/[undefined] is a thrown [TypeError] and the
    optional-chaining operator [?.] is the guard the source writes. *)

From Stdlib Require Import ZArith List String Bool Arith Lia.
Import ListNotations.

Open Scope string_scope.
Open Scope list_scope.
Open Scope Z_scope.

(* ================================================================== *)
(** ** Data model *)
(* ================================================================== *)

(** DOM nodes are identified by a number; a JavaScript reference to a node
    is [Some n], while [null] and [undefined] are [None] (both are falsy and
    both short-circuit [?.]). *)
Definition node := nat.
Definition ref := option node.

Definition truthy (r : ref) : bool :=
  match r with Some _ => true | None => false end.

(** Timer handles are numbers; [null] is [None].  A handle is truthy when it
    is a non-zero number, as in [if (state.hideTimer)]. *)
Definition truthy_handle (h : option nat) : bool :=
  match h with Some (S _) => true | _ => false end.

(** CONFIG of navbar.js, all values in px or ms. *)
Record Config := mkConfig {
  scrollThreshold : Z;
  scrollDelta : Z;
  topThreshold : Z;
  autoHideDelay : Z;
  showDelay : Z;
  throttleDelay : Z;
  scrollingTimeout : Z;
  transitionDuration : Z
}.

Definition CONFIG_initial : Config :=
  mkConfig 100 10 50 150 0 16 150 300.

(** The [state] object of navbar.js. *)
Record State := mkState {
  lastScrollY : Z;
  ticking : bool;
  menuOpen : bool;
  scrollPosition : Z;
  isTouch : bool;
  isScrolling : bool;
  scrollingTimer : option nat;
  hideTimer : option nat;
  prefersReducedMotion : bool;
  orientation : string
}.

(** What the code writes into [toggle.innerHTML]: the span
    [<span class=toggle-icon aria-hidden=true>glyph</span>], or whatever
    markup the page had before. *)
Inductive Markup :=
| PageMarkup (html : string)
| ToggleIcon (glyph : string).

(** The part of a DOM element the scripts read or write. *)
Record Element := mkElement {
  classList : list string;
  attributes : list (string * string);
  innerHTML : Markup
}.

(** The [elements] cache.  It is the empty object until [cacheElements]
    runs, so every field may be [undefined]; afterwards [navItems] is a
    NodeList (possibly empty) and the others are a node or [null]. *)
Record Elements := mkElements {
  toggle : ref;
  sidebar : ref;
  overlay : ref;
  body : ref;
  navItems : option (list node)
}.

Definition elements_empty : Elements := mkElements None None None None None.

(** What the document answers to the lookups of the scripts, and where the
    browser's own sequential focus navigation goes from a focused element
    on Tab ([tabNext]) and Shift+Tab ([tabPrev]). *)
Record Document := mkDocument {
  qToggle : ref;            (* document.querySelector('.sidebar-toggle') *)
  qSidebar : ref;           (* document.getElementById('sidebar') *)
  qOverlay : ref;           (* document.querySelector('.sidebar-overlay') *)
  qBody : ref;              (* document.body *)
  qNavItems : list node;    (* document.querySelectorAll('.sidebar-nav-item') *)
  tabNext : ref -> ref;
  tabPrev : ref -> ref
}.

(** Capabilities the scripts sample from the browser. *)
Record Env := mkEnv {
  hasTouch : bool;                   (* 'ontouchstart' in window || maxTouchPoints > 0 *)
  mediaReducedMotion : bool;         (* matchMedia('(prefers-reduced-motion: reduce)').matches *)
  screenOrientation : option string; (* screen.orientation?.type *)
  readyStateLoading : bool           (* document.readyState === 'loading' *)
}.

(** The two closures made by [throttle(func, limit)]. *)
Inductive ThrottleId := ThScroll | ThResize.

Record Throttle := mkThrottle {
  inThrottle : bool;
  limit : Z
}.

(** The callbacks the code hands to [setTimeout]; the ones that close over
    the local [toggle] carry its value. *)
Inductive TimerCallback :=
| CbScrollEnd                  (* () => setScrollingState(false) *)
| CbShow (tg : ref)            (* () => toggle.classList.remove('auto-hidden') *)
| CbHide (tg : ref)            (* () => if (!state.menuOpen) toggle.classList.add('auto-hidden') *)
| CbFocusFirst                 (* () => elements.navItems[0]?.focus() *)
| CbThrottleReset (th : ThrottleId). (* () => inThrottle = false *)

Record Timer := mkTimer {
  tid : nat;
  due : Z;
  callback : TimerCallback
}.

(** The one callback handed to [requestAnimationFrame]. *)
Inductive FrameCallback :=
| FcScrollEval.                (* () => { handleScroll(); state.ticking = false; } *)

(** Functions that are (or are asked to be) registered as listeners. *)
Inductive Listener :=
| LScrollThrottled      (* throttle(onScroll, CONFIG.throttleDelay) on window 'scroll' *)
| LOnScroll             (* onScroll itself: what cleanup() asks to remove *)
| LResize               (* handleResize on window 'resize' *)
| LOrientation          (* handleOrientationChange *)
| LKeydown              (* handleKeydown on document 'keydown' *)
| LOverlayClick         (* closeMenu on the overlay *)
| LOverlayTouchmove
| LToggleClick          (* toggleMenu on the toggle *)
| LVisibility
| LReducedMotion        (* 'change' on the reduced-motion media query *)
| LDOMContentLoaded.    (* init, when the script ran while loading *)

Inductive LogEntry :=
| Warn (msg : string)
| Log (msg : string).

Record World := mkWorld {
  CONFIG : Config;
  state : State;
  elements : Elements;
  document : Document;
  dom : node -> Element;
  activeElement : ref;
  scrollY : Z;
  innerWidth : Z;
  innerHeight : Z;
  env : Env;
  timers : list Timer;
  nextTimerId : nat;
  now : Z;
  rafQueue : list FrameCallback;
  listeners : list Listener;
  scrollThrottle : Throttle;
  resizeThrottle : Throttle;
  defaultPrevented : bool;
  console : list LogEntry
}.

(** Field updates. *)
Definition set_lastScrollY (v : Z) (s : State) : State :=
  mkState v (ticking s) (menuOpen s) (scrollPosition s) (isTouch s) (isScrolling s) (scrollingTimer s) (hideTimer s) (prefersReducedMotion s) (orientation s).
Definition set_ticking (v : bool) (s : State) : State :=
  mkState (lastScrollY s) v (menuOpen s) (scrollPosition s) (isTouch s) (isScrolling s) (scrollingTimer s) (hideTimer s) (prefersReducedMotion s) (orientation s).
Definition set_menuOpen (v : bool) (s : State) : State :=
  mkState (lastScrollY s) (ticking s) v (scrollPosition s) (isTouch s) (isScrolling s) (scrollingTimer s) (hideTimer s) (prefersReducedMotion s) (orientation s).
Definition set_scrollPosition (v : Z) (s : State) : State :=
  mkState (lastScrollY s) (ticking s) (menuOpen s) v (isTouch s) (isScrolling s) (scrollingTimer s) (hideTimer s) (prefersReducedMotion s) (orientation s).
Definition set_isTouch (v : bool) (s : State) : State :=
  mkState (lastScrollY s) (ticking s) (menuOpen s) (scrollPosition s) v (isScrolling s) (scrollingTimer s) (hideTimer s) (prefersReducedMotion s) (orientation s).
Definition set_isScrolling (v : bool) (s : State) : State :=
  mkState (lastScrollY s) (ticking s) (menuOpen s) (scrollPosition s) (isTouch s) v (scrollingTimer s) (hideTimer s) (prefersReducedMotion s) (orientation s).
Definition set_scrollingTimer (v : option nat) (s : State) : State :=
  mkState (lastScrollY s) (ticking s) (menuOpen s) (scrollPosition s) (isTouch s) (isScrolling s) v (hideTimer s) (prefersReducedMotion s) (orientation s).
Definition set_hideTimer (v : option nat) (s : State) : State :=
  mkState (lastScrollY s) (ticking s) (menuOpen s) (scrollPosition s) (isTouch s) (isScrolling s) (scrollingTimer s) v (prefersReducedMotion s) (orientation s).
Definition set_prefersReducedMotion (v : bool) (s : State) : State :=
  mkState (lastScrollY s) (ticking s) (menuOpen s) (scrollPosition s) (isTouch s) (isScrolling s) (scrollingTimer s) (hideTimer s) v (orientation s).
Definition set_orientation (v : string) (s : State) : State :=
  mkState (lastScrollY s) (ticking s) (menuOpen s) (scrollPosition s) (isTouch s) (isScrolling s) (scrollingTimer s) (hideTimer s) (prefersReducedMotion s) v.

Definition set_CONFIG (v : Config) (w : World) : World :=
  mkWorld v (state w) (elements w) (document w) (dom w) (activeElement w) (scrollY w) (innerWidth w) (innerHeight w) (env w) (timers w) (nextTimerId w) (now w) (rafQueue w) (listeners w) (scrollThrottle w) (resizeThrottle w) (defaultPrevented w) (console w).
Definition set_state (v : State) (w : World) : World :=
  mkWorld (CONFIG w) v (elements w) (document w) (dom w) (activeElement w) (scrollY w) (innerWidth w) (innerHeight w) (env w) (timers w) (nextTimerId w) (now w) (rafQueue w) (listeners w) (scrollThrottle w) (resizeThrottle w) (defaultPrevented w) (console w).
Definition set_elements (v : Elements) (w : World) : World :=
  mkWorld (CONFIG w) (state w) v (document w) (dom w) (activeElement w) (scrollY w) (innerWidth w) (innerHeight w) (env w) (timers w) (nextTimerId w) (now w) (rafQueue w) (listeners w) (scrollThrottle w) (resizeThrottle w) (defaultPrevented w) (console w).
Definition set_document (v : Document) (w : World) : World :=
  mkWorld (CONFIG w) (state w) (elements w) v (dom w) (activeElement w) (scrollY w) (innerWidth w) (innerHeight w) (env w) (timers w) (nextTimerId w) (now w) (rafQueue w) (listeners w) (scrollThrottle w) (resizeThrottle w) (defaultPrevented w) (console w).
Definition set_dom (v : node -> Element) (w : World) : World :=
  mkWorld (CONFIG w) (state w) (elements w) (document w) v (activeElement w) (scrollY w) (innerWidth w) (innerHeight w) (env w) (timers w) (nextTimerId w) (now w) (rafQueue w) (listeners w) (scrollThrottle w) (resizeThrottle w) (defaultPrevented w) (console w).
Definition set_activeElement (v : ref) (w : World) : World :=
  mkWorld (CONFIG w) (state w) (elements w) (document w) (dom w) v (scrollY w) (innerWidth w) (innerHeight w) (env w) (timers w) (nextTimerId w) (now w) (rafQueue w) (listeners w) (scrollThrottle w) (resizeThrottle w) (defaultPrevented w) (console w).
Definition set_scrollY (v : Z) (w : World) : World :=
  mkWorld (CONFIG w) (state w) (elements w) (document w) (dom w) (activeElement w) v (innerWidth w) (innerHeight w) (env w) (timers w) (nextTimerId w) (now w) (rafQueue w) (listeners w) (scrollThrottle w) (resizeThrottle w) (defaultPrevented w) (console w).
Definition set_innerWidth (v : Z) (w : World) : World :=
  mkWorld (CONFIG w) (state w) (elements w) (document w) (dom w) (activeElement w) (scrollY w) v (innerHeight w) (env w) (timers w) (nextTimerId w) (now w) (rafQueue w) (listeners w) (scrollThrottle w) (resizeThrottle w) (defaultPrevented w) (console w).
Definition set_innerHeight (v : Z) (w : World) : World :=
  mkWorld (CONFIG w) (state w) (elements w) (document w) (dom w) (activeElement w) (scrollY w) (innerWidth w) v (env w) (timers w) (nextTimerId w) (now w) (rafQueue w) (listeners w) (scrollThrottle w) (resizeThrottle w) (defaultPrevented w) (console w).
Definition set_env (v : Env) (w : World) : World :=
  mkWorld (CONFIG w) (state w) (elements w) (document w) (dom w) (activeElement w) (scrollY w) (innerWidth w) (innerHeight w) v (timers w) (nextTimerId w) (now w) (rafQueue w) (listeners w) (scrollThrottle w) (resizeThrottle w) (defaultPrevented w) (console w).
Definition set_timers (v : list Timer) (w : World) : World :=
  mkWorld (CONFIG w) (state w) (elements w) (document w) (dom w) (activeElement w) (scrollY w) (innerWidth w) (innerHeight w) (env w) v (nextTimerId w) (now w) (rafQueue w) (listeners w) (scrollThrottle w) (resizeThrottle w) (defaultPrevented w) (console w).
Definition set_nextTimerId (v : nat) (w : World) : World :=
  mkWorld (CONFIG w) (state w) (elements w) (document w) (dom w) (activeElement w) (scrollY w) (innerWidth w) (innerHeight w) (env w) (timers w) v (now w) (rafQueue w) (listeners w) (scrollThrottle w) (resizeThrottle w) (defaultPrevented w) (console w).
Definition set_now (v : Z) (w : World) : World :=
  mkWorld (CONFIG w) (state w) (elements w) (document w) (dom w) (activeElement w) (scrollY w) (innerWidth w) (innerHeight w) (env w) (timers w) (nextTimerId w) v (rafQueue w) (listeners w) (scrollThrottle w) (resizeThrottle w) (defaultPrevented w) (console w).
Definition set_rafQueue (v : list FrameCallback) (w : World) : World :=
  mkWorld (CONFIG w) (state w) (elements w) (document w) (dom w) (activeElement w) (scrollY w) (innerWidth w) (innerHeight w) (env w) (timers w) (nextTimerId w) (now w) v (listeners w) (scrollThrottle w) (resizeThrottle w) (defaultPrevented w) (console w).
Definition set_listeners (v : list Listener) (w : World) : World :=
  mkWorld (CONFIG w) (state w) (elements w) (document w) (dom w) (activeElement w) (scrollY w) (innerWidth w) (innerHeight w) (env w) (timers w) (nextTimerId w) (now w) (rafQueue w) v (scrollThrottle w) (resizeThrottle w) (defaultPrevented w) (console w).
Definition set_scrollThrottle (v : Throttle) (w : World) : World :=
  mkWorld (CONFIG w) (state w) (elements w) (document w) (dom w) (activeElement w) (scrollY w) (innerWidth w) (innerHeight w) (env w) (timers w) (nextTimerId w) (now w) (rafQueue w) (listeners w) v (resizeThrottle w) (defaultPrevented w) (console w).
Definition set_resizeThrottle (v : Throttle) (w : World) : World :=
  mkWorld (CONFIG w) (state w) (elements w) (document w) (dom w) (activeElement w) (scrollY w) (innerWidth w) (innerHeight w) (env w) (timers w) (nextTimerId w) (now w) (rafQueue w) (listeners w) (scrollThrottle w) v (defaultPrevented w) (console w).
Definition set_defaultPrevented (v : bool) (w : World) : World :=
  mkWorld (CONFIG w) (state w) (elements w) (document w) (dom w) (activeElement w) (scrollY w) (innerWidth w) (innerHeight w) (env w) (timers w) (nextTimerId w) (now w) (rafQueue w) (listeners w) (scrollThrottle w) (resizeThrottle w) v (console w).
Definition set_console (v : list LogEntry) (w : World) : World :=
  mkWorld (CONFIG w) (state w) (elements w) (document w) (dom w) (activeElement w) (scrollY w) (innerWidth w) (innerHeight w) (env w) (timers w) (nextTimerId w) (now w) (rafQueue w) (listeners w) (scrollThrottle w) (resizeThrottle w) (defaultPrevented w) v.

Definition upd_state (f : State -> State) (w : World) : World :=
  set_state (f (state w)) w.

(* ================================================================== *)
(** ** Class lists and attributes *)
(* ================================================================== *)

Definition has_class (c : string) (l : list string) : bool :=
  existsb (String.eqb c) l.

Definition add_class (c : string) (l : list string) : list string :=
  if has_class c l then l else l ++ [c].

Definition remove_class (c : string) (l : list string) : list string :=
  filter (fun x => negb (String.eqb c x)) l.

Definition toggle_class (c : string) (l : list string) : list string :=
  if has_class c l then remove_class c l else add_class c l.

Fixpoint set_attr (k v : string) (l : list (string * string))
  : list (string * string) :=
  match l with
  | [] => [(k, v)]
  | (k', v') :: r =>
      if String.eqb k k' then (k, v) :: r else (k', v') :: set_attr k v r
  end.

Fixpoint get_attr (k : string) (l : list (string * string)) : option string :=
  match l with
  | [] => None
  | (k', v') :: r => if String.eqb k k' then Some v' else get_attr k r
  end.

Definition el_add_classes (cs : list string) (e : Element) : Element :=
  mkElement (fold_left (fun l c => add_class c l) cs (classList e))
            (attributes e) (innerHTML e).

Definition el_remove_classes (cs : list string) (e : Element) : Element :=
  mkElement (fold_left (fun l c => remove_class c l) cs (classList e))
            (attributes e) (innerHTML e).

Definition el_toggle_class (c : string) (e : Element) : Element :=
  mkElement (toggle_class c (classList e)) (attributes e) (innerHTML e).

Definition el_set_attr (k v : string) (e : Element) : Element :=
  mkElement (classList e) (set_attr k v (attributes e)) (innerHTML e).

Definition el_set_html (h : Markup) (e : Element) : Element :=
  mkElement (classList e) (attributes e) h.

Definition update_node (n : node) (f : Element -> Element)
  (d : node -> Element) : node -> Element :=
  fun m => if Nat.eqb m n then f (d m) else d m.

(** Observations used in the statements. *)
Definition node_has_class (w : World) (n : node) (c : string) : bool :=
  has_class c (classList (dom w n)).

Definition node_attr (w : World) (n : node) (k : string) : option string :=
  get_attr k (attributes (dom w n)).

(* ================================================================== *)
(** ** The monad of handlers: state plus exceptions *)
(* ================================================================== *)

(** A handler either completes normally or throws; in both cases the world
    keeps the mutations made so far, as in JavaScript. *)
Inductive Completion (A : Type) :=
| Normal (a : A)
| Throw (err : string).
Arguments Normal {A} a.
Arguments Throw {A} err.

Definition M (A : Type) : Type := World -> Completion A * World.

Definition ret {A} (a : A) : M A := fun w => (Normal a, w).

Definition bind {A B} (m : M A) (k : A -> M B) : M B :=
  fun w =>
    match m w with
    | (Normal a, w') => k a w'
    | (Throw e, w') => (Throw e, w')
    end.

Definition throw {A} (e : string) : M A := fun w => (Throw e, w).
Definition gets {A} (f : World -> A) : M A := fun w => (Normal (f w), w).
Definition modify (f : World -> World) : M unit := fun w => (Normal tt, f w).

Declare Scope js_scope.
Delimit Scope js_scope with js.
Notation "x <- m ;; k" := (bind m (fun x => k))
  (at level 61, m at next level, right associativity) : js_scope.
Notation "m ;; k" := (bind m (fun _ => k))
  (at level 61, right associativity) : js_scope.
Open Scope js_scope.

(** The world a handler leaves behind, and whether it completed normally. *)
Definition exec {A} (m : M A) (w : World) : World := snd (m w).

Definition completes {A} (m : M A) (w : World) : bool :=
  match fst (m w) with Normal _ => true | Throw _ => false end.

(** [r ?. f] is optional chaining: nothing happens on null or undefined.
    [r !. f] is the plain member access, which throws there. *)
Definition optional_chain (r : ref) (f : ref -> M unit) : M unit :=
  match r with
  | None => ret tt
  | Some _ => f r
  end.

Definition member (r : ref) (f : ref -> M unit) : M unit := f r.

Notation "r ?. f" := (optional_chain r f) (at level 40, f at level 10).
Notation "r !. f" := (member r f) (at level 40, f at level 10).

Definition TypeError : string := "TypeError".

(** DOM primitives; each throws a TypeError on null or undefined. *)
Definition on_node (f : Element -> Element) (r : ref) : M unit :=
  match r with
  | None => throw TypeError
  | Some n => modify (fun w => set_dom (update_node n f (dom w)) w)
  end.

Definition classList_add (cs : list string) : ref -> M unit :=
  on_node (el_add_classes cs).
Definition classList_remove (cs : list string) : ref -> M unit :=
  on_node (el_remove_classes cs).
Definition classList_toggle (c : string) : ref -> M unit :=
  on_node (el_toggle_class c).
Definition setAttribute (k v : string) : ref -> M unit :=
  on_node (el_set_attr k v).
Definition set_innerHTML (h : Markup) : ref -> M unit :=
  on_node (el_set_html h).

Definition classList_contains (c : string) (r : ref) : M bool :=
  match r with
  | None => throw TypeError
  | Some n => gets (fun w => node_has_class w n c)
  end.

(** [el.focus()]: the element becomes [document.activeElement]. *)
Definition focus (r : ref) : M unit :=
  match r with
  | None => throw TypeError
  | Some n => modify (set_activeElement (Some n))
  end.

(** [list[i]] on a NodeList: [undefined] out of range, TypeError when the
    list itself is undefined. *)
Definition index (l : option (list node)) (i : nat) : M ref :=
  match l with
  | None => throw TypeError
  | Some ns => ret (nth_error ns i)
  end.

(** [...list] inside an array literal. *)
Definition spread (l : option (list node)) : M (list ref) :=
  match l with
  | None => throw TypeError
  | Some ns => ret (map Some ns)
  end.

(** [window.scrollTo(0, y)]. *)
Definition scrollTo (y : Z) : M unit := modify (set_scrollY y).

Definition preventDefault : M unit := modify (set_defaultPrevented true).

Definition console_warn (msg : string) : M unit :=
  modify (fun w => set_console (console w ++ [Warn msg]) w).
Definition console_log (msg : string) : M unit :=
  modify (fun w => set_console (console w ++ [Log msg]) w).

(** [setTimeout(cb, delay)]: a fresh handle; the callback becomes runnable
    once [delay] ms have passed (a negative delay counts as 0). *)
Definition setTimeout (cb : TimerCallback) (delay : Z) : M nat :=
  fun w =>
    let h := nextTimerId w in
    (Normal h,
     set_nextTimerId (S h)
       (set_timers (timers w ++ [mkTimer h (now w + Z.max 0 delay) cb]) w)).

(** [clearTimeout(h)]: forget the timer with that handle, if any. *)
Definition drop_timer (h : nat) (l : list Timer) : list Timer :=
  filter (fun t => negb (Nat.eqb (tid t) h)) l.

Definition clearTimeout (h : option nat) : M unit :=
  match h with
  | None => ret tt
  | Some i => modify (fun w => set_timers (drop_timer i (timers w)) w)
  end.

Definition requestAnimationFrame (cb : FrameCallback) : M unit :=
  modify (fun w => set_rafQueue (rafQueue w ++ [cb]) w).

Definition Listener_eq_dec (a b : Listener) : {a = b} + {a <> b}.
Proof. decide equality. Defined.

Definition listening (l : Listener) (w : World) : bool :=
  if in_dec Listener_eq_dec l (listeners w) then true else false.

(** Registering the same listener twice has no effect. *)
Definition addEventListener (l : Listener) : M unit :=
  modify (fun w =>
    if listening l w then w else set_listeners (listeners w ++ [l]) w).

Definition removeEventListener (l : Listener) : M unit :=
  modify (fun w => set_listeners (remove Listener_eq_dec l (listeners w)) w).

Definition ref_eqb (a b : ref) : bool :=
  match a, b with
  | Some x, Some y => Nat.eqb x y
  | None, None => true
  | _, _ => false
  end.

(** State accessors in the monad. *)
Definition get_state {A} (f : State -> A) : M A := gets (fun w => f (state w)).
Definition set_field (f : State -> State) : M unit := modify (upd_state f).
Definition get_config (f : Config -> Z) : M Z := gets (fun w => f (CONFIG w)).

(* ================================================================== *)
(** ** js/navbar.js *)
(* ================================================================== *)

Definition cacheElements : M unit :=
  d <- gets document ;;
  modify (set_elements
            (mkElements (qToggle d) (qSidebar d) (qOverlay d) (qBody d)
                        (Some (qNavItems d)))).

(** [throttle(func, limit)]: the closure keeps its own [inThrottle] flag. *)
Definition throttle_of (th : ThrottleId) (w : World) : Throttle :=
  match th with
  | ThScroll => scrollThrottle w
  | ThResize => resizeThrottle w
  end.

Definition set_throttle (th : ThrottleId) (t : Throttle) (w : World) : World :=
  match th with
  | ThScroll => set_scrollThrottle t w
  | ThResize => set_resizeThrottle t w
  end.

Definition set_inThrottle (th : ThrottleId) (b : bool) : M unit :=
  modify (fun w => set_throttle th (mkThrottle b (limit (throttle_of th w))) w).

Definition throttle (th : ThrottleId) (func : M unit) : M unit :=
  t <- gets (throttle_of th) ;;
  if negb (inThrottle t) then
    func ;;
    set_inThrottle th true ;;
    _ <- setTimeout (CbThrottleReset th) (limit t) ;;
    ret tt
  else ret tt.

Definition isDesktop : M bool :=
  width <- gets innerWidth ;;
  ret (1025 <=? width).

Definition detectTouch : M unit :=
  touch <- gets (fun w => hasTouch (env w)) ;;
  set_field (set_isTouch touch).

Definition detectReducedMotion : M unit :=
  matches <- gets (fun w => mediaReducedMotion (env w)) ;;
  set_field (set_prefersReducedMotion matches) ;;
  addEventListener LReducedMotion.

Definition setScrollingState (scrolling : bool) : M unit :=
  els <- gets elements ;;
  reduced <- get_state prefersReducedMotion ;;
  if negb (truthy (toggle els)) || reduced then ret tt
  else
    cur <- get_state isScrolling ;;
    if scrolling && negb cur then
      set_field (set_isScrolling true) ;;
      toggle els !. classList_add ["is-scrolling"]
    else if negb scrolling && cur then
      set_field (set_isScrolling false) ;;
      toggle els !. classList_remove ["is-scrolling"]
    else ret tt.

Definition handleScrollEnd : M unit :=
  st <- get_state scrollingTimer ;;
  (if truthy_handle st then clearTimeout st else ret tt) ;;
  delay <- get_config scrollingTimeout ;;
  h <- setTimeout CbScrollEnd delay ;;
  set_field (set_scrollingTimer (Some h)).

Definition cancelHideTimer : M unit :=
  ht <- get_state hideTimer ;;
  if truthy_handle ht then
    clearTimeout ht ;;
    set_field (set_hideTimer None)
  else ret tt.

Definition showToggle (delay : Z) : M unit :=
  els <- gets elements ;;
  if negb (truthy (toggle els)) then ret tt
  else
    cancelHideTimer ;;
    reduced <- get_state prefersReducedMotion ;;
    if (0 <? delay) && negb reduced then
      _ <- setTimeout (CbShow (toggle els)) delay ;;
      ret tt
    else
      toggle els !. classList_remove ["auto-hidden"].

Definition hideToggleWithDelay : M unit :=
  els <- gets elements ;;
  open <- get_state menuOpen ;;
  if negb (truthy (toggle els)) || open then ret tt
  else
    cancelHideTimer ;;
    reduced <- get_state prefersReducedMotion ;;
    delay <- get_config autoHideDelay ;;
    if reduced || (delay =? 0) then
      toggle els !. classList_add ["auto-hidden"]
    else
      h <- setTimeout (CbHide (toggle els)) delay ;;
      set_field (set_hideTimer (Some h)).

Definition handleScroll : M unit :=
  currentScrollY <- gets scrollY ;;
  els <- gets elements ;;
  desktop <- isDesktop ;;
  if desktop || negb (truthy (toggle els)) then ret tt
  else
    setScrollingState true ;;
    handleScrollEnd ;;
    open <- get_state menuOpen ;;
    if open then
      set_field (set_lastScrollY currentScrollY)
    else
      last <- get_state lastScrollY ;;
      let delta := currentScrollY - last in
      top <- get_config topThreshold ;;
      minDelta <- get_config scrollDelta ;;
      threshold <- get_config scrollThreshold ;;
      (if currentScrollY <? top then
         cancelHideTimer ;;
         showToggle 0
       else if (minDelta <? delta) && (threshold <? currentScrollY) then
         hideToggleWithDelay
       else if delta <? - minDelta then
         cancelHideTimer ;;
         delay <- get_config showDelay ;;
         showToggle delay
       else ret tt) ;;
      set_field (set_lastScrollY currentScrollY).

Definition onScroll : M unit :=
  tick <- get_state ticking ;;
  if negb tick then
    requestAnimationFrame FcScrollEval ;;
    set_field (set_ticking true)
  else ret tt.

Definition openMenu : M unit :=
  els <- gets elements ;;
  set_field (set_menuOpen true) ;;
  y <- gets scrollY ;;
  set_field (set_scrollPosition y) ;;
  toggle els ?. setAttribute "aria-expanded" "true" ;;
  sidebar els ?. setAttribute "aria-hidden" "false" ;;
  sidebar els ?. classList_add ["open"; "visible"] ;;
  overlay els ?. classList_add ["active"] ;;
  body els ?. classList_add ["nav-open"] ;;
  (if truthy (toggle els) then toggle els !. set_innerHTML (ToggleIcon "✕")
   else ret tt) ;;
  showToggle 0 ;;
  delay <- get_config transitionDuration ;;
  _ <- setTimeout CbFocusFirst delay ;;
  ret tt.

Definition closeMenu : M unit :=
  els <- gets elements ;;
  set_field (set_menuOpen false) ;;
  toggle els ?. setAttribute "aria-expanded" "false" ;;
  sidebar els ?. setAttribute "aria-hidden" "true" ;;
  sidebar els ?. classList_remove ["open"; "visible"] ;;
  overlay els ?. classList_remove ["active"] ;;
  body els ?. classList_remove ["nav-open"] ;;
  (if truthy (toggle els) then toggle els !. set_innerHTML (ToggleIcon "☰")
   else ret tt) ;;
  saved <- get_state scrollPosition ;;
  scrollTo saved ;;
  toggle els ?. focus.

Definition toggleMenu : M unit :=
  desktop <- isDesktop ;;
  if desktop then ret tt
  else
    open <- get_state menuOpen ;;
    if open then closeMenu else openMenu.

Definition handleKeydown (key : string) (shiftKey : bool) : M unit :=
  open <- get_state menuOpen ;;
  if (key =? "Escape")%string && open then closeMenu
  else if (key =? "Tab")%string && open then
    els <- gets elements ;;
    items <- spread (navItems els) ;;
    let focusableItems := toggle els :: items in
    let firstItem := hd None focusableItems in
    let lastItem := last focusableItems None in
    active <- gets activeElement ;;
    if shiftKey && ref_eqb active firstItem then
      preventDefault ;;
      lastItem ?. focus
    else if negb shiftKey && ref_eqb active lastItem then
      preventDefault ;;
      firstItem ?. focus
    else ret tt
  else ret tt.

Definition current_orientation (w : World) : string :=
  match screenOrientation (env w) with
  | Some type => type
  | None => if innerWidth w <? innerHeight w then "portrait" else "landscape"
  end.

Definition handleOrientationChange : M unit :=
  open <- get_state menuOpen ;;
  (if open then closeMenu else ret tt) ;;
  o <- gets current_orientation ;;
  set_field (set_orientation o) ;;
  y <- gets scrollY ;;
  set_field (set_lastScrollY y).

(** The function wrapped by [throttle(..., 150)] into [handleResize]. *)
Definition resize_body : M unit :=
  els <- gets elements ;;
  desktop <- isDesktop ;;
  if desktop then
    set_field (set_menuOpen false) ;;
    sidebar els ?. classList_remove ["open"; "visible"] ;;
    overlay els ?. classList_remove ["active"] ;;
    body els ?. classList_remove ["nav-open"] ;;
    toggle els ?. classList_remove ["auto-hidden"] ;;
    toggle els ?. setAttribute "aria-expanded" "false" ;;
    (if truthy (toggle els) then toggle els !. set_innerHTML (ToggleIcon "☰")
     else ret tt)
  else
    open <- get_state menuOpen ;;
    if negb open then
      sidebar els ?. classList_remove ["open"; "visible"] ;;
      sidebar els ?. setAttribute "aria-hidden" "true"
    else ret tt.

Definition handleResize : M unit := throttle ThResize resize_body.

Definition warning_not_found : string :=
  "⚠️ Navbar elements not found. Skipping initialization.".

Definition init : M unit :=
  cacheElements ;;
  els <- gets elements ;;
  if negb (truthy (toggle els)) && negb (truthy (sidebar els)) then
    console_warn warning_not_found
  else
    detectTouch ;;
    detectReducedMotion ;;
    console_log "🧭 Navigation Config:" ;;
    toggle els ?. setAttribute "aria-expanded" "false" ;;
    toggle els ?. setAttribute "aria-controls" "sidebar" ;;
    toggle els ?. setAttribute "aria-label" "Toggle navigation menu" ;;
    desktop <- isDesktop ;;
    sidebar els ?. setAttribute "aria-hidden" (if desktop then "false" else "true") ;;
    sidebar els ?. setAttribute "role" "navigation" ;;
    sidebar els ?. setAttribute "aria-label" "Main navigation" ;;
    (if truthy (toggle els) then toggle els !. set_innerHTML (ToggleIcon "☰")
     else ret tt) ;;
    delay <- get_config throttleDelay ;;
    modify (set_scrollThrottle (mkThrottle false delay)) ;;
    addEventListener LScrollThrottled ;;
    addEventListener LResize ;;
    addEventListener LOrientation ;;
    addEventListener LKeydown ;;
    overlay els ?. (fun _ => addEventListener LOverlayClick) ;;
    overlay els ?. (fun _ => addEventListener LOverlayTouchmove) ;;
    toggle els ?. (fun _ => addEventListener LToggleClick) ;;
    addEventListener LVisibility ;;
    y <- gets scrollY ;;
    set_field (set_lastScrollY y) ;;
    console_log "✅ Auto-hide navigation initialized" ;;
    console_log "📱 Device info:".

Definition cleanup : M unit :=
  cancelHideTimer ;;
  st <- get_state scrollingTimer ;;
  (if truthy_handle st then clearTimeout st else ret tt) ;;
  removeEventListener LOnScroll ;;
  removeEventListener LResize ;;
  removeEventListener LKeydown.

(** The [state] literal and the top level of the script. *)
Definition state_initial (w : World) : State :=
  mkState 0 false false 0 false false None None false
    (match screenOrientation (env w) with
     | Some type => type
     | None => "portrait"
     end).

Definition navbar_js : M unit :=
  s <- gets state_initial ;;
  modify (set_CONFIG CONFIG_initial) ;;
  modify (set_state s) ;;
  modify (set_elements elements_empty) ;;
  modify (set_resizeThrottle (mkThrottle false 150)) ;;
  loading <- gets (fun w => readyStateLoading (env w)) ;;
  if loading then addEventListener LDOMContentLoaded
  else init.

(** The anonymous listeners of [init] and [detectReducedMotion]. *)
Definition onVisibilityChange (visible : bool) : M unit :=
  if visible then
    y <- gets scrollY ;;
    set_field (set_lastScrollY y) ;;
    setScrollingState false
  else ret tt.

Definition onReducedMotionChange (matches : bool) : M unit :=
  set_field (set_prefersReducedMotion matches) ;;
  console_log "🔄 Reduced motion preference changed:".

Definition onOverlayTouchmove : M unit :=
  open <- get_state menuOpen ;;
  if open then preventDefault else ret tt.

(** The callback given to [requestAnimationFrame] in [onScroll]. *)
Definition run_frame (cb : FrameCallback) : M unit :=
  match cb with
  | FcScrollEval =>
      handleScroll ;;
      set_field (set_ticking false)
  end.

(** The callbacks given to [setTimeout]. *)
Definition run_timer (cb : TimerCallback) : M unit :=
  match cb with
  | CbScrollEnd => setScrollingState false
  | CbShow tg => tg !. classList_remove ["auto-hidden"]
  | CbHide tg =>
      open <- get_state menuOpen ;;
      if negb open then tg !. classList_add ["auto-hidden"] else ret tt
  | CbFocusFirst =>
      els <- gets elements ;;
      item <- index (navItems els) 0 ;;
      item ?. focus
  | CbThrottleReset th => set_inThrottle th false
  end.

(* ================================================================== *)
(** ** js/common.js *)
(* ================================================================== *)

Definition common_toggleSidebar : M unit :=
  d <- gets document ;;
  let sidebar := qSidebar d in
  let overlay := qOverlay d in
  if truthy sidebar && truthy overlay then
    sidebar !. classList_toggle "open" ;;
    overlay !. classList_toggle "active"
  else ret tt.

(** Both scripts define the global [toggleSidebar]: common.js by a function
    declaration, navbar.js by assigning [window.toggleSidebar]; each
    definition replaces the one before. *)
Inductive Script := CommonJs | NavbarJs.

Definition defines_toggleSidebar (s : Script) : M unit :=
  match s with
  | CommonJs => common_toggleSidebar
  | NavbarJs => toggleMenu
  end.

Definition global_toggleSidebar (loaded : list Script) : option (M unit) :=
  fold_left (fun _ s => Some (defines_toggleSidebar s)) loaded None.

(* ================================================================== *)
(** ** The event loop *)
(* ================================================================== *)

Inductive Event :=
| EvDOMContentLoaded
| EvScroll (y : Z)                          (* the page is scrolled to y *)
| EvAnimationFrame                          (* the queued frame callbacks run *)
| EvResize (width height : Z)
| EvOrientationChange (type : string)
| EvKeydown (key : string) (shiftKey : bool)
| EvClickToggle
| EvClickOverlay
| EvOverlayTouchmove
| EvCallToggleSidebar                       (* window.toggleSidebar() *)
| EvCallCleanup                             (* window.cleanupNavigation() *)
| EvVisibilityChange (visible : bool)
| EvReducedMotionChange (matches : bool)
| EvTimer (h : nat)                         (* the timer with handle h fires *)
| EvTick (dt : Z)                           (* dt ms pass *)
| EvSetConfig (c : Config)                  (* window.navbarConfig.x = ... *)
| EvUserFocus (r : ref).                    (* focus moved by pointer *)

(** A listener runs only if it is registered; an exception ends the
    listener and is reported, the page goes on. *)
Definition dispatch (l : Listener) (m : M unit) (w : World) : World :=
  if listening l w then exec m w else w.

Definition set_mediaReducedMotion (b : bool) (e : Env) : Env :=
  mkEnv (hasTouch e) b (screenOrientation e) (readyStateLoading e).
Definition set_screenOrientation (o : option string) (e : Env) : Env :=
  mkEnv (hasTouch e) (mediaReducedMotion e) o (readyStateLoading e).
Definition set_readyStateLoading (b : bool) (e : Env) : Env :=
  mkEnv (hasTouch e) (mediaReducedMotion e) (screenOrientation e) b.

Definition find_timer (h : nat) (l : list Timer) : option Timer :=
  find (fun t => Nat.eqb (tid t) h) l.

Definition fire_timer (h : nat) (w : World) : World :=
  match find_timer h (timers w) with
  | Some t =>
      if due t <=? now w then
        exec (run_timer (callback t)) (set_timers (drop_timer h (timers w)) w)
      else w
  | None => w
  end.

Definition run_frames (w : World) : World :=
  fold_left (fun w' cb => exec (run_frame cb) w') (rafQueue w)
            (set_rafQueue [] w).

(** Without [preventDefault], Tab moves the focus where the document's own
    tab order says. *)
Definition default_tab (shiftKey : bool) (w : World) : World :=
  if defaultPrevented w then w
  else
    set_activeElement
      ((if shiftKey then tabPrev (document w) else tabNext (document w))
         (activeElement w)) w.

Definition step (e : Event) (w : World) : World :=
  match e with
  | EvDOMContentLoaded =>
      if readyStateLoading (env w) then
        dispatch LDOMContentLoaded init
          (set_env (set_readyStateLoading false (env w)) w)
      else w
  | EvScroll y =>
      dispatch LScrollThrottled (throttle ThScroll onScroll) (set_scrollY y w)
  | EvAnimationFrame => run_frames w
  | EvResize width height =>
      dispatch LResize handleResize
        (set_innerHeight height (set_innerWidth width w))
  | EvOrientationChange type =>
      dispatch LOrientation handleOrientationChange
        (match screenOrientation (env w) with
         | Some _ => set_env (set_screenOrientation (Some type) (env w)) w
         | None => w
         end)
  | EvKeydown key shiftKey =>
      let w' := dispatch LKeydown (handleKeydown key shiftKey)
                  (set_defaultPrevented false w) in
      if (key =? "Tab")%string then default_tab shiftKey w' else w'
  | EvClickToggle => dispatch LToggleClick toggleMenu w
  | EvClickOverlay => dispatch LOverlayClick closeMenu w
  | EvOverlayTouchmove =>
      dispatch LOverlayTouchmove onOverlayTouchmove
        (set_defaultPrevented false w)
  | EvCallToggleSidebar => exec toggleMenu w
  | EvCallCleanup => exec cleanup w
  | EvVisibilityChange visible =>
      dispatch LVisibility (onVisibilityChange visible) w
  | EvReducedMotionChange matches =>
      dispatch LReducedMotion (onReducedMotionChange matches)
        (set_env (set_mediaReducedMotion matches (env w)) w)
  | EvTimer h => fire_timer h w
  | EvTick dt => set_now (now w + Z.max 0 dt) w
  | EvSetConfig c => set_CONFIG c w
  | EvUserFocus r => set_activeElement r w
  end.

Definition run (es : list Event) (w : World) : World :=
  fold_left (fun w' e => step e w') es w.

(** A page before any script ran: the document, its nodes and the window
    are given, nothing is scheduled or registered. *)
Definition page (d : Document) (nodes : node -> Element) (e : Env)
  (width height y : Z) : World :=
  mkWorld CONFIG_initial
          (mkState 0 false false 0 false false None None false "portrait")
          elements_empty d nodes None y width height e
          [] 1%nat 0 [] []
          (mkThrottle false 0) (mkThrottle false 150) false [].

(** The page once navbar.js has been evaluated. *)
Definition loaded (d : Document) (nodes : node -> Element) (e : Env)
  (width height y : Z) : World :=
  exec navbar_js (page d nodes e width height y).

(* ================================================================== *)
(** ** Reachable worlds and their invariant *)
(* ================================================================== *)

(** The worlds the page can be in: navbar.js has been evaluated on some
    page, and then any events happened. *)
Inductive reachable : World -> Prop :=
| reach_loaded d nodes e width height y :
    reachable (loaded d nodes e width height y)
| reach_step e w :
    reachable w -> reachable (step e w).

Definition is_hide (cb : TimerCallback) : bool :=
  match cb with
  | CbHide _ => true
  | _ => false
  end.

(** A callback that closes over [toggle] was made with a non-null one. *)
Definition callback_ok (cb : TimerCallback) : bool :=
  match cb with
  | CbShow tg => truthy tg
  | CbHide tg => truthy tg
  | _ => true
  end.

Definition no_hide_pending (w : World) : Prop :=
  forall t, In t (timers w) -> is_hide (callback t) = false.

(** Timers: handles are positive and fresh; a pending hide is the one
    [state.hideTimer] names, and exists only when there is a toggle; the
    elements are cached once the document has loaded. *)
Record TimersInv (w : World) : Prop := mkTimersInv {
  inv_next : (0 < nextTimerId w)%nat;
  inv_fresh :
    forall t, In t (timers w) -> (0 < tid t < nextTimerId w)%nat;
  inv_closure :
    forall t, In t (timers w) -> callback_ok (callback t) = true;
  inv_hide :
    forall t, In t (timers w) -> is_hide (callback t) = true ->
      hideTimer (state w) = Some (tid t) /\
      truthy (toggle (elements w)) = true;
  inv_loading :
    readyStateLoading (env w) = true -> elements w = elements_empty
}.

(** Frames: the [ticking] flag says exactly whether an evaluation is
    queued, and at most one is. *)
Definition FramesInv (w : World) : Prop :=
  rafQueue w = if ticking (state w) then [FcScrollEval] else [].

Definition Inv (w : World) : Prop := TimersInv w /\ FramesInv w.

(* ================================================================== *)
(** ** Judgements on handlers *)
(* ================================================================== *)

(** [preserves P m]: running [m] from a world in [P] ends in [P], whether
    [m] completes or throws.  [nothrow P m]: from [P], [m] completes. *)
Definition preserves {A} (P : World -> Prop) (m : M A) : Prop :=
  forall w, P w -> P (exec m w).

Definition nothrow {A} (P : World -> Prop) (m : M A) : Prop :=
  forall w, P w -> completes m w = true.

(** The trivial precondition. *)
Definition anywhere (w : World) : Prop := True.

(** Elements that are not cached yet have no hide pending; [init] may then
    cache them. *)
Definition Quiet (w : World) : Prop :=
  TimersInv w /\ no_hide_pending w /\ readyStateLoading (env w) = false.

(** An evaluation is queued. *)
Definition Ticking (w : World) : Prop := ticking (state w) = true.

(* ================================================================== *)
(** ** A sample page *)
(* ================================================================== *)

(** Toggle 0, sidebar 1, overlay 2, body 3, two navigation items 4 and 5,
    and one more focusable element 9 (the theme button that js/theme.js
    appends to the body).  In the markup the sidebar comes before the
    toggle button, so the tab order is 4, 5, 0, 9. *)
Definition sample_document : Document :=
  mkDocument (Some 0%nat) (Some 1%nat) (Some 2%nat) (Some 3%nat)
             [4%nat; 5%nat]
             (fun r => match r with
                       | Some 4%nat => Some 5%nat
                       | Some 5%nat => Some 0%nat
                       | Some 0%nat => Some 9%nat
                       | _ => Some 4%nat
                       end)
             (fun r => match r with
                       | Some 5%nat => Some 4%nat
                       | Some 0%nat => Some 5%nat
                       | Some 9%nat => Some 0%nat
                       | _ => Some 9%nat
                       end).

Definition sample_nodes : node -> Element :=
  fun _ => mkElement [] [] (PageMarkup "").

Definition sample_env : Env := mkEnv false false None false.

(** A phone-sized page at the top, navbar.js loaded and initialised. *)
Definition sample_world : World :=
  loaded sample_document sample_nodes sample_env 800 600 0.

(* ================================================================== *)
(** ** Predicates used in the statements *)
(* ================================================================== *)

(** Relative to an earlier world [w0]: the menu is open, no node has gained
    the class [auto-hidden], and no hide timer has been added. *)
Definition open_quiet (w0 w : World) : Prop :=
  menuOpen (state w) = true /\
  (forall n, node_has_class w n "auto-hidden" = true ->
             node_has_class w0 n "auto-hidden" = true) /\
  (forall t, In t (timers w) -> is_hide (callback t) = true ->
             In t (timers w0)).

(** Scroll events, the frames that evaluate them, timer firings and the
    passing of time. *)
Definition scroll_or_timer (e : Event) : bool :=
  match e with
  | EvScroll _ | EvAnimationFrame | EvTimer _ | EvTick _ => true
  | _ => false
  end.

(** The saved scroll offset is [v]. *)
Definition saved (v : Z) (w : World) : Prop := scrollPosition (state w) = v.

(** The events that reach [openMenu]: a click on the toggle or a call of
    [window.toggleSidebar], below desktop width, with the menu closed. *)
Definition opens (e : Event) (w : World) : bool :=
  match e with
  | EvClickToggle =>
      listening LToggleClick w && negb (1025 <=? innerWidth w)
      && negb (menuOpen (state w))
  | EvCallToggleSidebar =>
      negb (1025 <=? innerWidth w) && negb (menuOpen (state w))
  | _ => false
  end.

(** No event of the sequence, run from [w], reaches [openMenu]. *)
Fixpoint no_open (es : list Event) (w : World) : bool :=
  match es with
  | [] => true
  | e :: es' => negb (opens e w) && no_open es' (step e w)
  end.

(** The menu opened on the sample page. *)
Definition sample_open : World := step EvClickToggle sample_world.

(** The node update behind [r?.method(...)]: nothing when [r] is null. *)
Definition dom_opt (r : ref) (f : Element -> Element)
  (d : node -> Element) : node -> Element :=
  match r with
  | Some n => update_node n f d
  | None => d
  end.

(** [r] is a reference to node [m]. *)
Definition ref_is (r : ref) (m : node) : bool :=
  match r with
  | Some n => Nat.eqb m n
  | None => false
  end.

(** The world [openMenu] builds before it calls [showToggle]. *)
Definition opened (w : World) : World :=
  let els := elements w in
  set_dom
    (dom_opt (toggle els) (el_set_html (ToggleIcon "✕"))
       (dom_opt (body els) (el_add_classes ["nav-open"])
          (dom_opt (overlay els) (el_add_classes ["active"])
             (dom_opt (sidebar els) (el_add_classes ["open"; "visible"])
                (dom_opt (sidebar els) (el_set_attr "aria-hidden" "false")
                   (dom_opt (toggle els)
                      (el_set_attr "aria-expanded" "true")
                      (dom w)))))))
    (upd_state (set_scrollPosition (scrollY w))
       (upd_state (set_menuOpen true) w)).

(** What the auto-hide decision of [handleScroll] reads is the same in [x]
    as in [w], and [x] has no timers beyond those of [w] except scroll-end
    ones. *)
Record same_autohide (w x : World) : Prop := mkSameAutohide {
  sa_config : CONFIG x = CONFIG w;
  sa_elements : elements x = elements w;
  sa_menuOpen : menuOpen (state x) = menuOpen (state w);
  sa_last : lastScrollY (state x) = lastScrollY (state w);
  sa_hideTimer : hideTimer (state x) = hideTimer (state w);
  sa_reduced :
    prefersReducedMotion (state x) = prefersReducedMotion (state w);
  sa_scrollY : scrollY x = scrollY w;
  sa_now : now x = now w;
  sa_next : (nextTimerId w <= nextTimerId x)%nat;
  sa_timers :
    forall t, In t (timers x) -> In t (timers w) \/ callback t = CbScrollEnd;
  sa_hidden :
    forall n, node_has_class x n "auto-hidden"
              = node_has_class w n "auto-hidden"
}.

(** The start of every evaluation on a phone: the scrolling shadow. *)
Definition scroll_prefix : M unit :=
  setScrollingState true ;;
  handleScrollEnd.

(** The three-way decision of [handleScroll] with the menu closed, for an
    evaluation that started in [w]. *)
Definition autohide_decision (w : World) : M unit :=
  let currentScrollY := scrollY w in
  let delta := currentScrollY - lastScrollY (state w) in
  if currentScrollY <? topThreshold (CONFIG w) then
    cancelHideTimer ;;
    showToggle 0
  else if (scrollDelta (CONFIG w) <? delta)
          && (scrollThreshold (CONFIG w) <? currentScrollY) then
    hideToggleWithDelay
  else if delta <? - scrollDelta (CONFIG w) then
    cancelHideTimer ;;
    showToggle (showDelay (CONFIG w))
  else ret tt.

(** The condition of the hide: a downward delta above [scrollDelta], an
    offset above [scrollThreshold], and not in the top zone. *)
Definition hide_condition (w : World) : bool :=
  negb (scrollY w <? topThreshold (CONFIG w))
  && (scrollDelta (CONFIG w) <? scrollY w - lastScrollY (state w))
  && (scrollThreshold (CONFIG w) <? scrollY w).

(** Whether the hide is deferred or applied at once. *)
Definition hide_deferred (w : World) : bool :=
  negb (prefersReducedMotion (state w) || (autoHideDelay (CONFIG w) =? 0)).

(** [w'] has a hide timer that [w] did not have. *)
Definition hide_scheduled (w w' : World) : Prop :=
  exists x, In x (timers w') /\ is_hide (callback x) = true /\
            ~ In x (timers w).

(** The sample page of a user who prefers reduced motion. *)
Definition sample_reduced : World :=
  loaded sample_document sample_nodes (mkEnv false true None false) 800 600 0.

(** No node has [auto-hidden] in [x] that did not have it in [w]. *)
Definition no_gain (w x : World) : Prop :=
  forall n, node_has_class x n "auto-hidden" = true ->
            node_has_class w n "auto-hidden" = true.

(** Sample worlds for the scroll evaluation: the spec's example (the page
    is scrolled from 0 to 120), the same for a user who prefers reduced
    motion, and the scroll back to 40 while the hide is pending. *)
Definition sample_scrolled : World := step (EvScroll 120) sample_world.

Definition reduced_scrolled : World := step (EvScroll 120) sample_reduced.

Definition sample_hide_pending : World :=
  run [EvScroll 120; EvAnimationFrame; EvTick 16; EvTimer 1%nat]
    sample_world.

Definition sample_scrolled_back : World :=
  step (EvScroll 40) sample_hide_pending.

(** The failing run of the desktop reset: a hide is scheduled on the
    phone-sized page, the window is resized to 1200 px, then the hide
    timer (handle 3) comes due and fires. *)
Definition sample_resized : World :=
  run [EvScroll 120; EvAnimationFrame; EvResize 1200 800] sample_world.

Definition sample_resized_later : World :=
  run [EvTick 150; EvTimer 3%nat] sample_resized.

(** The operations of the component: the functions of navbar.js that
    touch the DOM, and the callbacks they leave behind. *)
Inductive Operation :=
| OpOpen
| OpClose
| OpToggle
| OpShow (delay : Z)
| OpHide
| OpCancelHide
| OpScrollingState (scrolling : bool)
| OpScroll
| OpResize
| OpKeydown (key : string) (shiftKey : bool)
| OpOrientation
| OpVisibility (visible : bool)
| OpCleanup
| OpFrame (cb : FrameCallback)
| OpTimer (cb : TimerCallback).

Definition run_operation (op : Operation) : M unit :=
  match op with
  | OpOpen => openMenu
  | OpClose => closeMenu
  | OpToggle => toggleMenu
  | OpShow delay => showToggle delay
  | OpHide => hideToggleWithDelay
  | OpCancelHide => cancelHideTimer
  | OpScrollingState scrolling => setScrollingState scrolling
  | OpScroll => handleScroll
  | OpResize => handleResize
  | OpKeydown key shiftKey => handleKeydown key shiftKey
  | OpOrientation => handleOrientationChange
  | OpVisibility visible => onVisibilityChange visible
  | OpCleanup => cleanup
  | OpFrame cb => run_frame cb
  | OpTimer cb => run_timer cb
  end.

(** A timer callback as the code makes them: closed over a toggle that
    exists. *)
Definition operation_ok (op : Operation) : bool :=
  match op with
  | OpTimer cb => callback_ok cb
  | _ => true
  end.

(** The cache when the page has none of the elements. *)
Definition elements_absent : Elements :=
  mkElements None None None None (Some []).

(** The cache holds [els]. *)
Definition cached (els : Elements) (w : World) : Prop := elements w = els.

(** The cache holds [els] and the nodes are those of [w0]. *)
Definition untouched (els : Elements) (w0 w : World) : Prop :=
  elements w = els /\ dom w = dom w0.

(** A page that has neither toggle nor sidebar (nor overlay), only a body
    and no navigation items. *)
Definition bare_document : Document :=
  mkDocument None None None (Some 3%nat) [] (fun r => r) (fun r => r).

Definition bare_world : World :=
  loaded bare_document sample_nodes sample_env 800 600 0.

(** The callbacks that close over the toggle. *)
Definition closes_over_toggle (op : Operation) : bool :=
  match op with
  | OpTimer (CbShow _) => true
  | OpTimer (CbHide _) => true
  | _ => false
  end.

(** The list [focusableItems] of [handleKeydown], and membership in it. *)
Definition focus_trap (w : World) : list ref :=
  match navItems (elements w) with
  | Some items => toggle (elements w) :: map Some items
  | None => []
  end.

Definition in_trap (w : World) (r : ref) : bool :=
  existsb (ref_eqb r) (focus_trap w).

(** The menu open on the sample page with the focus on the toggle (as
    after clicking it), and with the focus on the last navigation item. *)
Definition sample_open_on_toggle : World :=
  step (EvUserFocus (Some 0%nat)) sample_open.

Definition sample_open_on_last : World :=
  step (EvUserFocus (Some 5%nat)) sample_open.

(* ================================================================== *)
(** ** Timer handles and throttle windows *)
(* ================================================================== *)

Definition is_scroll_end (cb : TimerCallback) : bool :=
  match cb with
  | CbScrollEnd => true
  | _ => false
  end.

(** The handles [setTimeout] gave out are distinct; [state.hideTimer] and
    [state.scrollingTimer] name, among the pending timers, only a hide and
    only a scroll-end callback, and every pending hide or scroll-end timer
    is the one named there. *)
Record HandlesInv (w : World) : Prop := mkHandlesInv {
  hi_next : (0 < nextTimerId w)%nat;
  hi_fresh :
    forall t, In t (timers w) -> (0 < tid t < nextTimerId w)%nat;
  hi_nodup : NoDup (map tid (timers w));
  hi_hide :
    forall i, hideTimer (state w) = Some i ->
      (i < nextTimerId w)%nat /\
      forall t, In t (timers w) -> tid t = i -> is_hide (callback t) = true;
  hi_scroll :
    forall i, scrollingTimer (state w) = Some i ->
      (i < nextTimerId w)%nat /\
      forall t, In t (timers w) -> tid t = i -> callback t = CbScrollEnd;
  hi_hide_tracked :
    forall t, In t (timers w) -> is_hide (callback t) = true ->
      hideTimer (state w) = Some (tid t);
  hi_scroll_tracked :
    forall t, In t (timers w) -> callback t = CbScrollEnd ->
      scrollingTimer (state w) = Some (tid t)
}.

(** The timer that ends the window of a throttled function is pending. *)
Definition reset_pending (th : ThrottleId) (w : World) : Prop :=
  exists t, In t (timers w) /\ callback t = CbThrottleReset th.

Definition ThrottleInv (w : World) : Prop :=
  forall th, inThrottle (throttle_of th w) = true -> reset_pending th w.

Definition Handles (w : World) : Prop := HandlesInv w /\ ThrottleInv w.

(** The window of the closure [th] is open. *)
Definition InWindow (th : ThrottleId) (w : World) : Prop :=
  inThrottle (throttle_of th w) = true.

(** Events other than the firing of a timer and the end of loading. *)
Definition between_events (e : Event) : bool :=
  match e with
  | EvTimer _ | EvDOMContentLoaded => false
  | _ => true
  end.

(** The interval of the closure [th] is [d]. *)
Definition LimitIs (th : ThrottleId) (d : Z) (w : World) : Prop :=
  limit (throttle_of th w) = d.

(** The document has finished loading: [init] has run, or never will
    through [DOMContentLoaded]. *)
Definition Ready (w : World) : Prop := readyStateLoading (env w) = false.

(** The listener list after [addEventListener]. *)
Definition add_listener (l : Listener) (ls : list Listener) : list Listener :=
  if in_dec Listener_eq_dec l ls then ls else ls ++ [l].

(** Membership in a listener list, as [listening] computes it. *)
Definition listed (l : Listener) (ls : list Listener) : bool :=
  if in_dec Listener_eq_dec l ls then true else false.

(** What [init] writes into the DOM, and the listeners it registers. *)
Definition init_dom (els : Elements) (desktop : bool)
  (d : node -> Element) : node -> Element :=
  dom_opt (toggle els) (el_set_html (ToggleIcon "☰"))
    (dom_opt (sidebar els) (el_set_attr "aria-label" "Main navigation")
       (dom_opt (sidebar els) (el_set_attr "role" "navigation")
          (dom_opt (sidebar els)
             (el_set_attr "aria-hidden" (if desktop then "false" else "true"))
             (dom_opt (toggle els)
                (el_set_attr "aria-label" "Toggle navigation menu")
                (dom_opt (toggle els)
                   (el_set_attr "aria-controls" "sidebar")
                   (dom_opt (toggle els)
                      (el_set_attr "aria-expanded" "false") d)))))).

Definition opt_listener (r : ref) (l : Listener) (ls : list Listener)
  : list Listener :=
  match r with
  | Some _ => add_listener l ls
  | None => ls
  end.

Definition init_listeners (els : Elements) (ls : list Listener)
  : list Listener :=
  add_listener LVisibility
    (opt_listener (toggle els) LToggleClick
       (opt_listener (overlay els) LOverlayTouchmove
          (opt_listener (overlay els) LOverlayClick
             (add_listener LKeydown
                (add_listener LOrientation
                   (add_listener LResize
                      (add_listener LScrollThrottled
                         (add_listener LReducedMotion ls)))))))).

(** The cache [cacheElements] builds from the document. *)
Definition cache_of (d : Document) : Elements :=
  mkElements (qToggle d) (qSidebar d) (qOverlay d) (qBody d)
    (Some (qNavItems d)).

(* ================================================================== *)
(** ** The menu state as the DOM shows it *)
(* ================================================================== *)

(** The world in which the top level of navbar.js calls or registers
    [init]: the state, the configuration and the empty cache are in
    place. *)
Definition script_top (w : World) : World :=
  set_resizeThrottle (mkThrottle false 150)
    (set_elements elements_empty
       (set_state (state_initial w) (set_CONFIG CONFIG_initial w))).

(** The DOM agrees with [state.menuOpen]: on the toggle, [aria-expanded]
    and the icon; while the menu is open, the classes and [aria-hidden]
    that show it. *)
Definition MenuSync (w : World) : Prop :=
  (forall t, toggle (elements w) = Some t ->
     node_attr w t "aria-expanded"
     = Some (if menuOpen (state w) then "true" else "false") /\
     innerHTML (dom w t)
     = ToggleIcon (if menuOpen (state w) then "✕" else "☰")) /\
  (menuOpen (state w) = true ->
     (forall s, sidebar (elements w) = Some s ->
        node_has_class w s "open" = true /\
        node_has_class w s "visible" = true /\
        node_attr w s "aria-hidden" = Some "false") /\
     (forall o, overlay (elements w) = Some o ->
        node_has_class w o "active" = true) /\
     (forall b, body (elements w) = Some b ->
        node_has_class w b "nav-open" = true)).

(** The classes that show the open menu. *)
Definition menu_classes : list string :=
  ["open"; "visible"; "active"; "nav-open"].

(** Once the controller listens to the reduced-motion media query, its
    flag is the query's current answer. *)
Definition MotionSync (w : World) : Prop :=
  listening LReducedMotion w = true ->
  prefersReducedMotion (state w) = mediaReducedMotion (env w).

(** The flag [state.isScrolling] is set only while the toggle carries the
    class [is-scrolling]. *)
Definition ShadowInv (w : World) : Prop :=
  isScrolling (state w) = true ->
  exists t, toggle (elements w) = Some t /\
            node_has_class w t "is-scrolling" = true.

(** The shadow is on the toggle [t] and the scroll-end timer [tm] is
    pending under the handle in [state.scrollingTimer]. *)
Definition Shadowed (t : node) (tm : Timer) (w : World) : Prop :=
  Handles w /\
  isScrolling (state w) = true /\
  node_has_class w t "is-scrolling" = true /\
  prefersReducedMotion (state w) = false /\
  toggle (elements w) = Some t /\
  In tm (timers w) /\
  callback tm = CbScrollEnd /\
  scrollingTimer (state w) = Some (tid tm).

(** Reduced motion is preferred, and relative to [w0] neither the flag
    [state.isScrolling] nor the class [is-scrolling] of any node has
    changed. *)
Definition ShadowFrozen (w0 w : World) : Prop :=
  prefersReducedMotion (state w) = true /\
  isScrolling (state w) = isScrolling (state w0) /\
  forall n, node_has_class w n "is-scrolling"
            = node_has_class w0 n "is-scrolling".

(* ================================================================== *)
(** ** js/common.js: the click and load listeners *)
(* ================================================================== *)

(** [a.contains(b)]: [b] is [a] or one of its descendants.  The tree of
    the page is given by [contains]. *)
Definition node_contains (contains : node -> node -> bool) (r : ref)
  (target : node) : M bool :=
  match r with
  | None => throw TypeError
  | Some n => ret (contains n target)
  end.

(** The listener of [document] for [click]: close the sidebar when the
    click lands outside it on a narrow window. *)
Definition common_onDocumentClick (contains : node -> node -> bool)
  (target : node) : M unit :=
  d <- gets document ;;
  let sidebar := qSidebar d in
  let toggle := qToggle d in
  let overlay := qOverlay d in
  width <- gets innerWidth ;;
  if (width <=? 768) && truthy sidebar && truthy toggle && truthy overlay
  then
    inSidebar <- node_contains contains sidebar target ;;
    if negb inSidebar then
      inToggle <- node_contains contains toggle target ;;
      if negb inToggle then
        isOpen <- classList_contains "open" sidebar ;;
        if isOpen then
          sidebar !. classList_remove ["open"] ;;
          overlay !. classList_remove ["active"]
        else ret tt
      else ret tt
    else ret tt
  else ret tt.

(** [el.getAttribute(k)]: the value, or [null]. *)
Definition getAttribute (k : string) (r : ref) : M (option string) :=
  match r with
  | None => throw TypeError
  | Some n => gets (fun w => node_attr w n k)
  end.

(** A string or [null] as a condition: [null] and the empty string are
    falsy. *)
Definition truthy_string (s : option string) : bool :=
  match s with
  | Some (String _ _) => true
  | _ => false
  end.

(** The character [/]. *)
Definition slash : Ascii.ascii := Ascii.ascii_of_nat 47.

(** [s.split('/')]: the pieces between the slashes, at least one. *)
Fixpoint split_slash (s : string) : list string :=
  match s with
  | EmptyString => [EmptyString]
  | String c r =>
      if Ascii.eqb c slash then EmptyString :: split_slash r
      else
        match split_slash r with
        | x :: xs => String c x :: xs
        | [] => [String c EmptyString]
        end
  end.

(** [array.pop()] on the result of a split: its last piece. *)
Definition pop_last (l : list string) : string := last l EmptyString.

(** [hay.includes(needle)]: [needle] occurs in [hay]. *)
Fixpoint includes (hay needle : string) : bool :=
  String.prefix needle hay
  || match hay with
     | EmptyString => false
     | String _ r => includes r needle
     end.

(** [list.forEach(f)]. *)
Fixpoint forEach (l : list node) (f : node -> M unit) : M unit :=
  match l with
  | [] => ret tt
  | x :: r => f x ;; forEach r f
  end.

(** The callback of [navItems.forEach] in the load listener. *)
Definition highlight_item (currentPage : string) (item : node) : M unit :=
  href <- getAttribute "href" (Some item) ;;
  if truthy_string href
     && includes (match href with Some h => h | None => EmptyString end)
          currentPage
  then Some item !. classList_add ["active"]
  else Some item !. classList_remove ["active"].

(** The listener of [window] for [load] that highlights the current page;
    [pathname] is [window.location.pathname]. *)
Definition common_highlightCurrentPage (pathname : string) : M unit :=
  let currentPage := pop_last (split_slash pathname) in
  d <- gets document ;;
  forEach (qNavItems d) (highlight_item currentPage).

(** Whether the load listener marks an item with this [href] on the page
    [currentPage]. *)
Definition highlighted (currentPage : string) (href : option string) : bool :=
  match href with
  | Some (String c r) => includes (String c r) currentPage
  | _ => false
  end.

(** The string contains a slash. *)
Fixpoint has_slash (s : string) : bool :=
  match s with
  | EmptyString => false
  | String c r => Ascii.eqb c slash || has_slash r
  end.

(** The sample page with links: item 4 points to index.html, item 5 has an
    empty [href]. *)
Definition linked_nodes : node -> Element :=
  fun n =>
    mkElement []
      (match n with
       | 4%nat => [("href", "index.html")]
       | 5%nat => [("href", "")]
       | _ => []
       end)
      (PageMarkup "").

Definition linked_world : World := set_dom linked_nodes sample_world.
(* ================================================================== *)
(** ** Class lists, attributes and node updates: basic facts *)
(* ================================================================== *)

Lemma has_class_add_class (c c' : string) (l : list string) :
  has_class c (add_class c' l) = (c =? c')%string || has_class c l.
Proof.
  unfold add_class.
  destruct (has_class c' l) eqn:E.
  - destruct (String.eqb_spec c c') as [->|_]; [now rewrite E | reflexivity].
  - unfold has_class. rewrite existsb_app. simpl.
    rewrite orb_false_r. apply orb_comm.
Qed.

Lemma has_class_remove_class (c c' : string) (l : list string) :
  has_class c (remove_class c' l) = negb (c =? c')%string && has_class c l.
Proof.
  unfold has_class, remove_class.
  induction l as [|x l IH]; simpl.
  - now rewrite andb_false_r.
  - destruct (String.eqb_spec c' x) as [->|Hx]; simpl.
    + rewrite IH. destruct (String.eqb_spec c x); simpl; [reflexivity|].
      reflexivity.
    + rewrite IH. destruct (String.eqb_spec c x) as [->|_]; simpl.
      * destruct (String.eqb_spec x c') as [->|_]; [congruence | reflexivity].
      * reflexivity.
Qed.

Lemma has_class_cons (c c' : string) (cs : list string) :
  has_class c (c' :: cs) = (c =? c')%string || has_class c cs.
Proof. reflexivity. Qed.

Lemma has_class_add_classes (c : string) (cs l : list string) :
  has_class c (fold_left (fun l c' => add_class c' l) cs l)
  = has_class c cs || has_class c l.
Proof.
  revert l. induction cs as [|c' cs IH]; intros l; cbn [fold_left];
    [reflexivity|].
  rewrite IH, has_class_add_class, has_class_cons.
  destruct (c =? c')%string, (has_class c cs), (has_class c l); reflexivity.
Qed.

Lemma has_class_remove_classes (c : string) (cs l : list string) :
  has_class c (fold_left (fun l c' => remove_class c' l) cs l)
  = negb (has_class c cs) && has_class c l.
Proof.
  revert l. induction cs as [|c' cs IH]; intros l; cbn [fold_left];
    [reflexivity|].
  rewrite IH, has_class_remove_class, has_class_cons.
  destruct (c =? c')%string, (has_class c cs), (has_class c l); reflexivity.
Qed.

Lemma get_attr_set_attr (k k' v : string) (l : list (string * string)) :
  get_attr k (set_attr k' v l)
  = if (k =? k')%string then Some v else get_attr k l.
Proof.
  induction l as [|[k0 v0] l IH]; simpl.
  - reflexivity.
  - destruct (String.eqb_spec k' k0) as [->|Hk]; simpl.
    + destruct (String.eqb_spec k k0); reflexivity.
    + rewrite IH. destruct (String.eqb_spec k k0) as [->|_]; [|reflexivity].
      destruct (String.eqb_spec k0 k') as [->|_]; [congruence | reflexivity].
Qed.

(** Reading a node after an update of node [n]. *)
Lemma update_node_classList n f d m :
  (forall e, classList (f e) = classList e) ->
  classList (update_node n f d m) = classList (d m).
Proof. unfold update_node. intros H. destruct (Nat.eqb m n); auto. Qed.

Lemma update_node_attributes n f d m :
  (forall e, attributes (f e) = attributes e) ->
  attributes (update_node n f d m) = attributes (d m).
Proof. unfold update_node. intros H. destruct (Nat.eqb m n); auto. Qed.

Lemma has_class_update_add c n cs d m :
  has_class c (classList (update_node n (el_add_classes cs) d m))
  = (Nat.eqb m n && has_class c cs) || has_class c (classList (d m)).
Proof.
  unfold update_node. destruct (Nat.eqb m n); simpl; [|reflexivity].
  apply has_class_add_classes.
Qed.

Lemma has_class_update_remove c n cs d m :
  has_class c (classList (update_node n (el_remove_classes cs) d m))
  = negb (Nat.eqb m n && has_class c cs) && has_class c (classList (d m)).
Proof.
  unfold update_node. destruct (Nat.eqb m n); simpl; [|reflexivity].
  apply has_class_remove_classes.
Qed.

Lemma has_class_update_attr c n k v d m :
  has_class c (classList (update_node n (el_set_attr k v) d m))
  = has_class c (classList (d m)).
Proof. now rewrite update_node_classList. Qed.

Lemma has_class_update_html c n h d m :
  has_class c (classList (update_node n (el_set_html h) d m))
  = has_class c (classList (d m)).
Proof. now rewrite update_node_classList. Qed.

Lemma get_attr_update_attr k n k' v d m :
  get_attr k (attributes (update_node n (el_set_attr k' v) d m))
  = if Nat.eqb m n && (k =? k')%string then Some v
    else get_attr k (attributes (d m)).
Proof.
  unfold update_node. destruct (Nat.eqb m n); simpl; [|reflexivity].
  apply get_attr_set_attr.
Qed.

Lemma get_attr_update_add k n cs d m :
  get_attr k (attributes (update_node n (el_add_classes cs) d m))
  = get_attr k (attributes (d m)).
Proof. now rewrite update_node_attributes. Qed.

Lemma get_attr_update_remove k n cs d m :
  get_attr k (attributes (update_node n (el_remove_classes cs) d m))
  = get_attr k (attributes (d m)).
Proof. now rewrite update_node_attributes. Qed.

Lemma get_attr_update_toggle k n c d m :
  get_attr k (attributes (update_node n (el_toggle_class c) d m))
  = get_attr k (attributes (d m)).
Proof. now rewrite update_node_attributes. Qed.

Lemma get_attr_update_html k n h d m :
  get_attr k (attributes (update_node n (el_set_html h) d m))
  = get_attr k (attributes (d m)).
Proof. now rewrite update_node_attributes. Qed.

Create Rewrite HintDb dom_obs.
#[global] Hint Rewrite
  has_class_update_add has_class_update_remove has_class_update_attr
  has_class_update_html get_attr_update_attr get_attr_update_add
  get_attr_update_remove get_attr_update_toggle get_attr_update_html
  : dom_obs.

(* ================================================================== *)
(** ** Reasoning about handlers *)
(* ================================================================== *)

Section Rules.
Context (P : World -> Prop).

Lemma preserves_ret {A} (a : A) : preserves P (ret a).
Proof. intros w H; exact H. Qed.

Lemma preserves_throw {A} (e : string) : preserves P (@throw A e).
Proof. intros w H; exact H. Qed.

Lemma preserves_gets {A} (f : World -> A) : preserves P (gets f).
Proof. intros w H; exact H. Qed.

Lemma preserves_modify (g : World -> World) :
  (forall w, P w -> P (g w)) -> preserves P (modify g).
Proof. intros Hg w H; apply Hg, H. Qed.

Lemma preserves_bind {A B} (m : M A) (k : A -> M B) :
  preserves P m -> (forall a, preserves P (k a)) -> preserves P (bind m k).
Proof.
  intros Hm Hk w H. specialize (Hm w H). unfold exec, bind in *.
  destruct (m w) as [[a|e] w']; simpl in *; [apply Hk, Hm | exact Hm].
Qed.

Lemma preserves_setTimeout (cb : TimerCallback) (d : Z) :
  (forall w, P w ->
     P (set_nextTimerId (S (nextTimerId w))
          (set_timers
             (timers w ++ [mkTimer (nextTimerId w) (now w + Z.max 0 d) cb])
             w))) ->
  preserves P (setTimeout cb d).
Proof. intros Hg w H; apply Hg, H. Qed.

Lemma nothrow_ret {A} (a : A) : nothrow P (ret a).
Proof. intros w _; reflexivity. Qed.

Lemma nothrow_gets {A} (f : World -> A) : nothrow P (gets f).
Proof. intros w _; reflexivity. Qed.

Lemma nothrow_modify (g : World -> World) : nothrow P (modify g).
Proof. intros w _; reflexivity. Qed.

Lemma nothrow_setTimeout (cb : TimerCallback) (d : Z) :
  nothrow P (setTimeout cb d).
Proof. intros w _; reflexivity. Qed.

Lemma nothrow_bind {A B} (m : M A) (k : A -> M B) :
  nothrow P m -> preserves P m -> (forall a, nothrow P (k a)) ->
  nothrow P (bind m k).
Proof.
  intros Hm Hp Hk w H. specialize (Hm w H). specialize (Hp w H).
  unfold completes, exec, bind in *.
  destruct (m w) as [[a|e] w']; simpl in *; [apply Hk, Hp | discriminate].
Qed.
(** When [P] fixes the value that is read, the rest is proved for that
    value only. *)
Lemma preserves_bind_link {A B} (f : World -> A) (k : A -> M B) (a : A) :
  (forall w, P w -> f w = a) -> preserves P (k a) ->
  preserves P (bind (gets f) k).
Proof.
  intros Hf Hk w H. unfold exec, bind, gets. simpl.
  rewrite (Hf w H). apply Hk, H.
Qed.

Lemma nothrow_bind_link {A B} (f : World -> A) (k : A -> M B) (a : A) :
  (forall w, P w -> f w = a) -> nothrow P (k a) ->
  nothrow P (bind (gets f) k).
Proof.
  intros Hf Hk w H. unfold completes, bind, gets. simpl.
  rewrite (Hf w H). apply Hk, H.
Qed.

End Rules.

(** What a sequence does when its first part completes. *)
Lemma exec_bind {A B} (m : M A) (k : A -> M B) (w : World) (a : A) :
  fst (m w) = Normal a -> exec (bind m k) w = exec (k a) (exec m w).
Proof.
  unfold exec, bind. destruct (m w) as [[a'|e] w']; simpl; intros H.
  - now inversion H.
  - discriminate.
Qed.

Lemma completes_bind {A B} (m : M A) (k : A -> M B) (w : World) (a : A) :
  fst (m w) = Normal a ->
  completes (bind m k) w = completes (k a) (exec m w).
Proof.
  unfold completes, exec, bind. destruct (m w) as [[a'|e] w']; simpl; intros H.
  - now inversion H.
  - discriminate.
Qed.

Lemma completes_unit (m : M unit) (w : World) :
  completes m w = true -> fst (m w) = Normal tt.
Proof.
  unfold completes. destruct (fst (m w)) as [[]|]; [reflexivity|discriminate].
Qed.

(** Unfolding the source functions and the derived primitives. *)
Ltac js_unfold :=
  unfold cacheElements, set_inThrottle, throttle, isDesktop, detectTouch,
    detectReducedMotion, setScrollingState, handleScrollEnd, cancelHideTimer,
    showToggle, hideToggleWithDelay, handleScroll, onScroll, openMenu,
    closeMenu, toggleMenu, handleKeydown, handleOrientationChange,
    resize_body, handleResize, init, cleanup, onVisibilityChange,
    onReducedMotionChange, onOverlayTouchmove, run_frame, run_timer,
    common_toggleSidebar,
    get_state, get_config, set_field, optional_chain, member, on_node,
    classList_add, classList_remove, classList_toggle, setAttribute,
    set_innerHTML, focus, index, spread, scrollTo, preventDefault,
    console_warn, console_log, clearTimeout, requestAnimationFrame,
    addEventListener, removeEventListener.

(** Syntax-directed proof of [preserves] and [nothrow] goals: [leaf] closes
    the calls that have a lemma of their own, [side] the conditions on the
    primitive updates. *)
Ltac js_rules leaf side :=
  repeat first
    [ leaf
    | apply preserves_ret
    | apply preserves_throw
    | apply preserves_gets
    | apply preserves_modify; side
    | apply preserves_setTimeout; side
    | apply preserves_bind; [ | intro ]
    | apply nothrow_ret
    | apply nothrow_gets
    | apply nothrow_modify
    | apply nothrow_setTimeout
    | apply nothrow_bind; [ | | intro ]
    | match goal with
      | |- context [truthy ?r] => is_var r; destruct r; cbn [truthy negb orb andb]
      | |- context [truthy (?f ?x)] =>
          is_var x; destruct (f x) eqn:?; cbn [truthy negb orb andb]
      | |- preserves _ (if ?b then _ else _) => destruct b eqn:?
      | |- preserves _ (match ?x with _ => _ end) => destruct x eqn:?
      | |- nothrow _ (if ?b then _ else _) => destruct b eqn:?
      | |- nothrow _ (match ?x with _ => _ end) => destruct x eqn:?
      end
    | progress js_unfold ].

(* ================================================================== *)
(** ** Forward execution of a handler, one statement at a time *)
(* ================================================================== *)

Lemma exec_ret {A} (a : A) (w : World) : exec (ret a) w = w.
Proof. reflexivity. Qed.

Lemma exec_gets {A} (f : World -> A) (w : World) : exec (gets f) w = w.
Proof. reflexivity. Qed.

Lemma exec_modify (g : World -> World) (w : World) : exec (modify g) w = g w.
Proof. reflexivity. Qed.

Lemma exec_bind_ret {A B} (a : A) (k : A -> M B) (w : World) :
  exec (bind (ret a) k) w = exec (k a) w.
Proof. reflexivity. Qed.

Lemma exec_bind_gets {A B} (f : World -> A) (k : A -> M B) (w : World) :
  exec (bind (gets f) k) w = exec (k (f w)) w.
Proof. reflexivity. Qed.

Lemma exec_bind_modify {B} (g : World -> World) (k : unit -> M B) (w : World) :
  exec (bind (modify g) k) w = exec (k tt) (g w).
Proof. reflexivity. Qed.

Lemma exec_bind_setTimeout {B} (cb : TimerCallback) (d : Z) (k : nat -> M B)
  (w : World) :
  exec (bind (setTimeout cb d) k) w
  = exec (k (nextTimerId w))
      (set_nextTimerId (S (nextTimerId w))
         (set_timers
            (timers w ++ [mkTimer (nextTimerId w) (now w + Z.max 0 d) cb]) w)).
Proof. reflexivity. Qed.

Lemma exec_bind_assoc {A B C} (m : M A) (k1 : A -> M B) (k2 : B -> M C)
  (w : World) :
  exec (bind (bind m k1) k2) w = exec (bind m (fun a => bind (k1 a) k2)) w.
Proof.
  unfold exec, bind. destruct (m w) as [[a|e] w']; [|reflexivity].
  destruct (k1 a w') as [[b|e] w'']; reflexivity.
Qed.

Lemma exec_bind_call {B} (m : M unit) (k : unit -> M B) (w : World) :
  completes m w = true -> exec (bind m k) w = exec (k tt) (exec m w).
Proof. intros H. apply exec_bind. now apply completes_unit. Qed.

Lemma completes_ret {A} (a : A) (w : World) : completes (ret a) w = true.
Proof. reflexivity. Qed.

Lemma completes_modify (g : World -> World) (w : World) :
  completes (modify g) w = true.
Proof. reflexivity. Qed.

Lemma completes_bind_ret {A B} (a : A) (k : A -> M B) (w : World) :
  completes (bind (ret a) k) w = completes (k a) w.
Proof. reflexivity. Qed.

Lemma completes_bind_gets {A B} (f : World -> A) (k : A -> M B) (w : World) :
  completes (bind (gets f) k) w = completes (k (f w)) w.
Proof. reflexivity. Qed.

Lemma completes_bind_modify {B} (g : World -> World) (k : unit -> M B)
  (w : World) :
  completes (bind (modify g) k) w = completes (k tt) (g w).
Proof. reflexivity. Qed.

Lemma completes_bind_setTimeout {B} (cb : TimerCallback) (d : Z)
  (k : nat -> M B) (w : World) :
  completes (bind (setTimeout cb d) k) w
  = completes (k (nextTimerId w))
      (set_nextTimerId (S (nextTimerId w))
         (set_timers
            (timers w ++ [mkTimer (nextTimerId w) (now w + Z.max 0 d) cb]) w)).
Proof. reflexivity. Qed.

Lemma completes_bind_assoc {A B C} (m : M A) (k1 : A -> M B) (k2 : B -> M C)
  (w : World) :
  completes (bind (bind m k1) k2) w
  = completes (bind m (fun a => bind (k1 a) k2)) w.
Proof.
  unfold completes, bind. destruct (m w) as [[a|e] w']; [|reflexivity].
  destruct (k1 a w') as [[b|e] w'']; reflexivity.
Qed.

Lemma completes_bind_call {B} (m : M unit) (k : unit -> M B) (w : World) :
  completes m w = true ->
  completes (bind m k) w = completes (k tt) (exec m w).
Proof. intros H. apply completes_bind. now apply completes_unit. Qed.

(** Field projections only: neither [exec] nor [bind] is unfolded. *)
Ltac js_fields :=
  cbn [CONFIG state elements document dom activeElement scrollY innerWidth
       innerHeight env timers nextTimerId now rafQueue listeners
       scrollThrottle resizeThrottle defaultPrevented console
       set_CONFIG set_state set_elements set_document set_dom
       set_activeElement set_scrollY set_innerWidth set_innerHeight set_env
       set_timers set_nextTimerId set_now set_rafQueue set_listeners
       set_scrollThrottle set_resizeThrottle set_defaultPrevented
       set_console upd_state
       lastScrollY ticking menuOpen scrollPosition isTouch isScrolling
       scrollingTimer hideTimer prefersReducedMotion orientation
       set_lastScrollY set_ticking set_menuOpen set_scrollPosition
       set_isTouch set_isScrolling set_scrollingTimer set_hideTimer
       set_prefersReducedMotion set_orientation
       toggle sidebar overlay body navItems
       scrollThreshold scrollDelta topThreshold autoHideDelay showDelay
       throttleDelay scrollingTimeout transitionDuration
       tid due callback inThrottle limit throttle_of set_throttle
       truthy truthy_handle negb andb orb fst snd].

Ltac js_fields_in H := revert H; js_fields; intro H.

Ltac js_prims :=
  unfold get_state, get_config, set_field, member, optional_chain, on_node,
    classList_add, classList_remove, classList_toggle, setAttribute,
    set_innerHTML, focus, scrollTo, preventDefault, clearTimeout, isDesktop,
    index, spread, console_warn, console_log, requestAnimationFrame,
    addEventListener, removeEventListener, set_inThrottle.

Ltac js_fwd :=
  repeat first
    [ rewrite exec_bind_assoc
    | rewrite exec_bind_gets
    | rewrite exec_bind_modify
    | rewrite exec_bind_ret
    | rewrite exec_bind_setTimeout
    | rewrite exec_gets
    | rewrite exec_modify
    | rewrite exec_ret
    | rewrite completes_bind_assoc
    | rewrite completes_bind_gets
    | rewrite completes_bind_modify
    | rewrite completes_bind_ret
    | rewrite completes_bind_setTimeout
    | rewrite completes_modify
    | rewrite completes_ret
    | progress js_prims
    | progress js_fields
    | progress cbv beta iota ].

(* ================================================================== *)
(** ** The invariant of reachable worlds *)
(* ================================================================== *)

(** [TimersInv] only looks at the timers, [state.hideTimer], the cached
    elements and the loading flag. *)
Lemma TimersInv_ext (w w' : World) :
  nextTimerId w' = nextTimerId w ->
  timers w' = timers w ->
  hideTimer (state w') = hideTimer (state w) ->
  elements w' = elements w ->
  readyStateLoading (env w') = readyStateLoading (env w) ->
  TimersInv w -> TimersInv w'.
Proof.
  intros E1 E2 E3 E4 E5 [H1 H2 H3 H4 H5].
  constructor; rewrite ?E1, ?E2, ?E3, ?E4, ?E5; assumption.
Qed.

Lemma In_drop_timer (h : nat) (l : list Timer) (t : Timer) :
  In t (drop_timer h l) <-> In t l /\ tid t <> h.
Proof.
  unfold drop_timer. rewrite filter_In.
  destruct (Nat.eqb_spec (tid t) h); simpl; intuition congruence.
Qed.

Lemma TimersInv_drop_timer (h : nat) (w : World) :
  TimersInv w -> TimersInv (set_timers (drop_timer h (timers w)) w).
Proof.
  intros [H1 H2 H3 H4 H5].
  constructor; cbn; try assumption;
    intros t Ht; apply In_drop_timer in Ht as [Ht _]; auto.
Qed.

Lemma TimersInv_add_timer (cb : TimerCallback) (d : Z) (w : World) :
  is_hide cb = false -> callback_ok cb = true -> TimersInv w ->
  TimersInv (set_nextTimerId (S (nextTimerId w))
               (set_timers (timers w ++ [mkTimer (nextTimerId w) d cb]) w)).
Proof.
  intros Hh Hc [H1 H2 H3 H4 H5].
  constructor; cbn; try assumption.
  - lia.
  - intros t Ht. apply in_app_or in Ht as [Ht|[<-|[]]]; cbn.
    + specialize (H2 t Ht). lia.
    + lia.
  - intros t Ht. apply in_app_or in Ht as [Ht|[<-|[]]]; cbn; auto.
  - intros t Ht Hide. apply in_app_or in Ht as [Ht|[<-|[]]]; cbn in *; auto.
    congruence.
Qed.

Lemma TimersInv_set_dom (g : node -> Element) (w : World) :
  TimersInv w -> TimersInv (set_dom g w).
Proof. intros H. apply (TimersInv_ext w); [reflexivity .. | exact H]. Qed.

(** [cancelHideTimer], in one equation. *)
Lemma cancelHideTimer_exec (w : World) :
  exec cancelHideTimer w =
  match hideTimer (state w) with
  | Some (S h) =>
      upd_state (set_hideTimer None)
        (set_timers (drop_timer (S h) (timers w)) w)
  | _ => w
  end.
Proof.
  unfold cancelHideTimer. js_fwd.
  destruct (hideTimer (state w)) as [[|h]|]; reflexivity.
Qed.

Lemma cancelHideTimer_completes (w : World) :
  completes cancelHideTimer w = true.
Proof.
  unfold cancelHideTimer. js_fwd.
  destruct (hideTimer (state w)) as [[|h]|]; reflexivity.
Qed.

Lemma cancelHideTimer_TimersInv : preserves TimersInv cancelHideTimer.
Proof.
  intros w H. rewrite cancelHideTimer_exec.
  destruct (hideTimer (state w)) as [[|h]|] eqn:E; try assumption.
  pose proof (TimersInv_drop_timer (S h) w H) as [H1 H2 H3 H4 H5].
  constructor; cbn in *; try assumption.
  intros t Ht Hide. exfalso.
  apply In_drop_timer in Ht as [Ht Hne].
  destruct (inv_hide w H t Ht Hide) as [Heq _]. congruence.
Qed.

(** Under the invariant, cancelling the tracked timer leaves no hide
    pending. *)
Lemma cancelHideTimer_no_hide (w : World) :
  TimersInv w -> no_hide_pending (exec cancelHideTimer w).
Proof.
  intros H t Ht. rewrite cancelHideTimer_exec in Ht.
  destruct (is_hide (callback t)) eqn:Hide; [exfalso | reflexivity].
  destruct (hideTimer (state w)) as [[|h]|] eqn:E.
  - destruct (inv_hide w H t Ht Hide) as [Heq _].
    pose proof (inv_fresh w H t Ht). rewrite E in Heq. inversion Heq. lia.
  - cbn in Ht. apply In_drop_timer in Ht as [Ht Hne].
    destruct (inv_hide w H t Ht Hide) as [Heq _]. congruence.
  - destruct (inv_hide w H t Ht Hide) as [Heq _]. congruence.
Qed.

Ltac side_TimersInv :=
  idtac;
  let w := fresh "w" in
  let H := fresh "H" in
  intros w H; unfold set_throttle;
  repeat match goal with
         | |- context [if ?b then _ else _] => destruct b
         | |- context [match ?x with _ => _ end] => is_var x; destruct x
         end;
  first
    [ exact H
    | apply TimersInv_drop_timer; exact H
    | apply TimersInv_add_timer; [reflexivity | reflexivity | exact H]
    | apply (TimersInv_ext w); [reflexivity .. | exact H] ].

Lemma hideToggleWithDelay_TimersInv : preserves TimersInv hideToggleWithDelay.
Proof.
  intros w H. unfold hideToggleWithDelay. js_fwd.
  destruct (toggle (elements w)) as [t|] eqn:Et; js_fwd; [|exact H].
  destruct (menuOpen (state w)); js_fwd; [exact H|].
  rewrite exec_bind_call by apply cancelHideTimer_completes.
  pose proof (cancelHideTimer_TimersInv w H) as H1.
  pose proof (cancelHideTimer_no_hide w H) as H2.
  assert (Et1 : toggle (elements (exec cancelHideTimer w)) = Some t).
  { rewrite cancelHideTimer_exec.
    destruct (hideTimer (state w)) as [[|h]|]; exact Et. }
  revert H1 H2 Et1. generalize (exec cancelHideTimer w). clear w H Et.
  intros w H Hno Et. js_fwd.
  destruct (prefersReducedMotion (state w) || (autoHideDelay (CONFIG w) =? 0));
    js_fwd.
  - apply TimersInv_set_dom, H.
  - destruct H as [H1 H2 H3 H4 H5]. constructor; js_fields; try assumption.
    + lia.
    + intros x Hx. apply in_app_or in Hx as [Hx|[<-|[]]]; cbn;
        [specialize (H2 x Hx)|]; lia.
    + intros x Hx. apply in_app_or in Hx as [Hx|[<-|[]]]; cbn; auto.
    + intros x Hx Hide. apply in_app_or in Hx as [Hx|[<-|[]]]; cbn.
      * rewrite (Hno x Hx) in Hide. discriminate.
      * rewrite Et. auto.
Qed.

Ltac side_TimersInv_at H :=
  match type of H with
  | TimersInv ?w => apply (TimersInv_ext w); [reflexivity .. | exact H]
  end.

Ltac side_TimersInv_th :=
  idtac;
  let w := fresh "w" in
  let x := fresh "x" in
  let H := fresh "H" in
  intros w x H;
  first [ apply TimersInv_add_timer; [reflexivity | reflexivity | exact H]
        | unfold set_throttle;
          match goal with
          | |- context [match ?th with _ => _ end] =>
              destruct th; apply (TimersInv_ext w); [reflexivity .. | exact H]
          | |- _ => apply (TimersInv_ext w); [reflexivity .. | exact H]
          end ].

Ltac leaf_TimersInv :=
  idtac;
  first [ apply cancelHideTimer_TimersInv
        | apply hideToggleWithDelay_TimersInv ].

Ltac auto_TimersInv := js_rules leaf_TimersInv side_TimersInv.

(** The two loops of the event loop keep whatever their bodies keep. *)
Lemma run_frames_preserves (P : World -> Prop) :
  (forall w, P w -> P (set_rafQueue [] w)) ->
  (forall cb, preserves P (run_frame cb)) ->
  forall w, P w -> P (run_frames w).
Proof.
  intros Hq Hf w H. unfold run_frames.
  generalize (Hq w H). generalize (set_rafQueue [] w).
  induction (rafQueue w) as [|cb q IH]; intros w' H'; simpl; [exact H'|].
  apply IH, Hf, H'.
Qed.

Lemma fire_timer_preserves (P : World -> Prop) :
  (forall h w, P w -> P (set_timers (drop_timer h (timers w)) w)) ->
  (forall cb, preserves P (run_timer cb)) ->
  forall h w, P w -> P (fire_timer h w).
Proof.
  intros Hd Hr h w H. unfold fire_timer.
  destruct (find_timer h (timers w)) as [t|]; [|exact H].
  destruct (due t <=? now w); [|exact H].
  apply Hr, Hd, H.
Qed.

Lemma dispatch_keeps (P : World -> Prop) (l : Listener) (m : M unit)
  (w : World) :
  preserves P m -> P w -> P (dispatch l m w).
Proof.
  intros Hm H. unfold dispatch.
  destruct (listening l w); [apply Hm, H | exact H].
Qed.

Lemma throttle_preserves (P : World -> Prop) (th : ThrottleId) (m : M unit) :
  (forall w t, P w -> P (set_throttle th t w)) ->
  (forall w d, P w ->
     P (set_nextTimerId (S (nextTimerId w))
          (set_timers
             (timers w ++ [mkTimer (nextTimerId w) d (CbThrottleReset th)])
             w))) ->
  preserves P m -> preserves P (throttle th m).
Proof.
  intros Ht Hs Hm. unfold throttle.
  apply preserves_bind; [apply preserves_gets | intros t].
  destruct (negb (inThrottle t)); [|apply preserves_ret].
  apply preserves_bind; [exact Hm | intros _].
  apply preserves_bind;
    [apply preserves_modify; intros w H; apply Ht, H | intros _].
  apply preserves_bind; [|intros _; apply preserves_ret].
  apply preserves_setTimeout. intros w H. apply Hs, H.
Qed.

Lemma Quiet_ext (w w' : World) :
  nextTimerId w' = nextTimerId w ->
  timers w' = timers w ->
  readyStateLoading (env w') = readyStateLoading (env w) ->
  Quiet w -> Quiet w'.
Proof.
  intros E1 E2 E3 ([H1 H2 H3 H4 H5] & Hno & Hl).
  split; [|split].
  - constructor; rewrite ?E1, ?E2, ?E3; try assumption.
    + intros t Ht Hide. rewrite (Hno t Ht) in Hide. discriminate.
    + congruence.
  - unfold no_hide_pending. rewrite E2. exact Hno.
  - congruence.
Qed.

Ltac side_Quiet :=
  idtac;
  let w := fresh "w" in
  let H := fresh "H" in
  intros w H;
  repeat match goal with
         | |- context [if ?b then _ else _] => destruct b
         end;
  first [ exact H | apply (Quiet_ext w); [reflexivity .. | exact H] ].

Lemma init_Quiet : preserves Quiet init.
Proof. js_rules fail side_Quiet. Qed.

Lemma TimersInv_step (e : Event) (w : World) :
  TimersInv w -> TimersInv (step e w).
Proof.
  intros H. destruct e; cbn [step].
  - (* DOMContentLoaded *)
    destruct (readyStateLoading (env w)) eqn:El; [|exact H].
    assert (Q : Quiet (set_env (set_readyStateLoading false (env w)) w)).
    { pose proof (inv_loading w H El) as Ee.
      split; [|split]; [| |reflexivity].
      - destruct H as [H1 H2 H3 H4 H5]. constructor; cbn; auto; discriminate.
      - intros t Ht. cbn in Ht.
        destruct (is_hide (callback t)) eqn:Hide; [|reflexivity].
        destruct (inv_hide w H t Ht Hide) as [_ Htg].
        rewrite Ee in Htg. discriminate. }
    apply (dispatch_keeps Quiet LDOMContentLoaded _ _ init_Quiet) in Q.
    apply Q.
  - apply dispatch_keeps; [|side_TimersInv_at H].
    apply throttle_preserves; [side_TimersInv_th | side_TimersInv_th |].
    auto_TimersInv.
  - apply run_frames_preserves; [side_TimersInv | | exact H].
    intros cb. auto_TimersInv.
  - apply dispatch_keeps; [|side_TimersInv_at H].
    unfold handleResize.
    apply throttle_preserves; [side_TimersInv_th | side_TimersInv_th |].
    auto_TimersInv.
  - apply dispatch_keeps; [auto_TimersInv|].
    destruct (screenOrientation (env w)); [side_TimersInv_at H | exact H].
  - assert (H' : TimersInv
                   (dispatch LKeydown (handleKeydown key shiftKey)
                      (set_defaultPrevented false w))).
    { apply dispatch_keeps; [auto_TimersInv | side_TimersInv_at H]. }
    destruct (key =? "Tab")%string; [|exact H'].
    unfold default_tab.
    destruct (defaultPrevented _); [exact H' | side_TimersInv_at H'].
  - apply dispatch_keeps; [auto_TimersInv | exact H].
  - apply dispatch_keeps; [auto_TimersInv | exact H].
  - apply dispatch_keeps; [auto_TimersInv | side_TimersInv_at H].
  - assert (Hp : preserves TimersInv toggleMenu) by auto_TimersInv.
    apply Hp, H.
  - assert (Hp : preserves TimersInv cleanup) by auto_TimersInv.
    apply Hp, H.
  - apply dispatch_keeps; [auto_TimersInv | exact H].
  - apply dispatch_keeps; [auto_TimersInv | side_TimersInv_at H].
  - apply fire_timer_preserves; [| | exact H].
    + intros h' w' H'. apply TimersInv_drop_timer, H'.
    + intros cb. auto_TimersInv.
  - side_TimersInv_at H.
  - side_TimersInv_at H.
  - side_TimersInv_at H.
Qed.

(** *** Frames *)

Ltac side_FramesInv :=
  idtac;
  let w := fresh "w" in
  let H := fresh "H" in
  intros w H; unfold FramesInv, set_throttle in *;
  repeat match goal with
         | |- context [if listening ?l ?x then _ else _] =>
             destruct (listening l x)
         | |- context [match ?x with _ => _ end] => is_var x; destruct x
         end;
  exact H.

Ltac side_FramesInv_at H :=
  unfold FramesInv in *; exact H.

Ltac auto_FramesInv := js_rules fail side_FramesInv.

Lemma handleScroll_nothrow : nothrow anywhere handleScroll.
Proof. js_rules fail ltac:(intros; exact I). Qed.

Lemma handleScroll_completes (w : World) : completes handleScroll w = true.
Proof. apply handleScroll_nothrow. exact I. Qed.

Lemma handleScroll_FramesInv : preserves FramesInv handleScroll.
Proof. auto_FramesInv. Qed.

Lemma handleScroll_rafQueue (w : World) :
  rafQueue (exec handleScroll w) = rafQueue w.
Proof.
  assert (Hp : preserves (fun x => rafQueue x = rafQueue w) handleScroll).
  { js_rules fail
      ltac:(let x := fresh in let H := fresh in intros x H; exact H). }
  apply Hp. reflexivity.
Qed.

Lemma run_frame_exec (w : World) :
  exec (run_frame FcScrollEval) w
  = upd_state (set_ticking false) (exec handleScroll w).
Proof.
  unfold run_frame.
  rewrite exec_bind_call by apply handleScroll_completes.
  reflexivity.
Qed.

Lemma onScroll_exec (w : World) :
  exec onScroll w =
  if ticking (state w) then w
  else upd_state (set_ticking true)
         (set_rafQueue (rafQueue w ++ [FcScrollEval]) w).
Proof.
  unfold onScroll. js_fwd. destruct (ticking (state w)); js_fwd; reflexivity.
Qed.

Lemma onScroll_FramesInv : preserves FramesInv onScroll.
Proof.
  intros w H. rewrite onScroll_exec. unfold FramesInv in *.
  destruct (ticking (state w)) eqn:E; [now rewrite E|].
  cbn. now rewrite H.
Qed.

Lemma run_frames_FramesInv (w : World) :
  FramesInv w -> FramesInv (run_frames w).
Proof.
  unfold FramesInv, run_frames. intros H. rewrite H.
  destruct (ticking (state w)) eqn:E; cbn [fold_left].
  - rewrite run_frame_exec. cbn. now rewrite handleScroll_rafQueue.
  - cbn. now rewrite E.
Qed.

Lemma FramesInv_step (e : Event) (w : World) :
  FramesInv w -> FramesInv (step e w).
Proof.
  intros H. destruct e; cbn [step].
  - destruct (readyStateLoading (env w)); [|exact H].
    apply dispatch_keeps; [auto_FramesInv | side_FramesInv_at H].
  - apply dispatch_keeps; [|side_FramesInv_at H].
    apply throttle_preserves;
      [intros w0 t H0; side_FramesInv_at H0
      | intros w0 d H0; side_FramesInv_at H0 | apply onScroll_FramesInv ].
  - apply run_frames_FramesInv, H.
  - apply dispatch_keeps; [|side_FramesInv_at H].
    unfold handleResize.
    apply throttle_preserves;
      [intros w0 t H0; side_FramesInv_at H0
      | intros w0 d H0; side_FramesInv_at H0 | auto_FramesInv ].
  - apply dispatch_keeps; [auto_FramesInv|].
    destruct (screenOrientation (env w)); side_FramesInv_at H.
  - assert (H' : FramesInv
                   (dispatch LKeydown (handleKeydown key shiftKey)
                      (set_defaultPrevented false w))).
    { apply dispatch_keeps; [auto_FramesInv | side_FramesInv_at H]. }
    destruct (key =? "Tab")%string; [|exact H'].
    unfold default_tab.
    destruct (defaultPrevented _); side_FramesInv_at H'.
  - apply dispatch_keeps; [auto_FramesInv | exact H].
  - apply dispatch_keeps; [auto_FramesInv | exact H].
  - apply dispatch_keeps; [auto_FramesInv | side_FramesInv_at H].
  - assert (Hp : preserves FramesInv toggleMenu) by auto_FramesInv.
    apply Hp, H.
  - assert (Hp : preserves FramesInv cleanup) by auto_FramesInv.
    apply Hp, H.
  - apply dispatch_keeps; [auto_FramesInv | exact H].
  - apply dispatch_keeps; [auto_FramesInv | side_FramesInv_at H].
  - apply fire_timer_preserves; [| | exact H].
    + intros h' w' H'. side_FramesInv_at H'.
    + intros cb. auto_FramesInv.
  - side_FramesInv_at H.
  - side_FramesInv_at H.
  - side_FramesInv_at H.
Qed.

(** *** Every reachable world satisfies the invariant *)

Lemma loaded_Inv d nodes e width height y :
  Inv (loaded d nodes e width height y).
Proof.
  unfold loaded, navbar_js, page. js_fwd.
  destruct (readyStateLoading e) eqn:El.
  - js_fwd.
    match goal with
    | |- context [if ?b then _ else _] => destruct b
    end;
      (split; [constructor; cbn; try (intros ? []); auto; lia | reflexivity]).
  - match goal with
    | |- Inv (exec init ?w1) =>
        assert (Q : Quiet w1);
        [| split;
           [ apply (init_Quiet w1 Q)
           | assert (Hp : preserves FramesInv init) by auto_FramesInv;
             apply Hp; reflexivity ] ]
    end.
    split; [|split]; [| intros ? [] | exact El].
    constructor; cbn; try (intros ? []); try lia.
    rewrite El. discriminate.
Qed.

Lemma Inv_step (e : Event) (w : World) : Inv w -> Inv (step e w).
Proof.
  intros [H1 H2]. split; [apply TimersInv_step | apply FramesInv_step];
    assumption.
Qed.

Lemma reachable_Inv (w : World) : reachable w -> Inv w.
Proof.
  induction 1 as [d nodes e width height y | e w _ IH].
  - apply loaded_Inv.
  - apply Inv_step, IH.
Qed.

Lemma reachable_run (es : list Event) (w : World) :
  reachable w -> reachable (run es w).
Proof.
  revert w. induction es as [|e es IH]; intros w H; simpl; [exact H|].
  apply IH. now constructor.
Qed.

(* ================================================================== *)
(** ** Generic treatment of one event *)
(* ================================================================== *)

(** [step_keeps H auto_tac side_at] proves [P (step e w)] from [H : P w]
    for an event whose handlers keep [P]: [auto_tac] proves [preserves P m]
    for a handler [m], [side_at H'] proves [P w'] from [H' : P w] when [w']
    is [w] with fields outside [P] changed. *)
Ltac step_keeps H auto_tac side_at :=
  let via_throttle :=
    (apply throttle_preserves;
     [ let w0 := fresh in let t0 := fresh in let H0 := fresh in
       intros w0 t0 H0; side_at H0
     | let w0 := fresh in let d0 := fresh in let H0 := fresh in
       intros w0 d0 H0; side_at H0
     | solve [auto_tac] ]) in
  let start :=
    first [ exact H | side_at H
          | match goal with
            | |- context [screenOrientation ?x] =>
                destruct (screenOrientation x); first [exact H | side_at H]
            end ] in
  first
    [ exact H
    | side_at H
    | apply dispatch_keeps;
      [ first [ via_throttle | unfold handleResize; via_throttle
              | solve [auto_tac] ]
      | start ]
    | apply run_frames_preserves;
      [ let w0 := fresh in let H0 := fresh in intros w0 H0; side_at H0
      | intros ?; solve [auto_tac]
      | exact H ]
    | apply fire_timer_preserves;
      [ let h0 := fresh in let w0 := fresh in let H0 := fresh in
        intros h0 w0 H0; side_at H0
      | intros ?; solve [auto_tac]
      | exact H ]
    | match goal with
      | |- ?P (exec ?m ?w) =>
          let Hp := fresh in
          assert (Hp : preserves P m) by (solve [auto_tac]); apply Hp, H
      end ].

(* ================================================================== *)
(** ** Scroll evaluations are serialised (onScroll) *)
(* ================================================================== *)

Ltac side_Ticking :=
  idtac;
  let w := fresh "w" in
  let H := fresh "H" in
  intros w H; unfold Ticking, set_throttle in *;
  repeat match goal with
         | |- context [if listening ?l ?x then _ else _] =>
             destruct (listening l x)
         | |- context [match ?x with _ => _ end] => is_var x; destruct x
         end;
  first [exact H | reflexivity].

Ltac side_Ticking_at H := unfold Ticking in *; first [exact H | reflexivity].

Ltac auto_Ticking := js_rules fail side_Ticking.

Lemma Ticking_step (e : Event) (w : World) :
  e <> EvAnimationFrame -> Ticking w -> Ticking (step e w).
Proof.
  intros He H. destruct e; cbn [step]; try congruence;
    try (step_keeps H auto_Ticking side_Ticking_at).
  - destruct (readyStateLoading (env w));
      step_keeps H auto_Ticking side_Ticking_at.
  - assert (H' : Ticking
                   (dispatch LKeydown (handleKeydown key shiftKey)
                      (set_defaultPrevented false w)))
      by step_keeps H auto_Ticking side_Ticking_at.
    destruct (key =? "Tab")%string; [|exact H'].
    unfold default_tab.
    destruct (defaultPrevented _); side_Ticking_at H'.
Qed.

Lemma scroll_while_ticking (y : Z) (w : World) :
  ticking (state w) = true ->
  rafQueue (step (EvScroll y) w) = rafQueue w /\
  ticking (state (step (EvScroll y) w)) = true.
Proof.
  intros H. cbn [step]. unfold dispatch.
  destruct (listening _ _); [|split; [reflexivity | exact H]].
  unfold throttle. js_fwd.
  destruct (inThrottle (scrollThrottle w)); js_fwd;
    [split; [reflexivity | exact H]|].
  assert (Ho : exec onScroll (set_scrollY y w) = set_scrollY y w).
  { rewrite onScroll_exec. cbn. now rewrite H. }
  assert (Hc : completes onScroll (set_scrollY y w) = true).
  { unfold onScroll. js_fwd. rewrite H. reflexivity. }
  rewrite exec_bind_call by exact Hc. rewrite Ho. js_fwd.
  split; [reflexivity | exact H].
Qed.

Lemma frame_while_ticking (w : World) :
  FramesInv w -> ticking (state w) = true ->
  step EvAnimationFrame w
  = upd_state (set_ticking false) (exec handleScroll (set_rafQueue [] w)).
Proof.
  unfold FramesInv. intros H Ht. rewrite Ht in H.
  cbn [step]. unfold run_frames. rewrite H. cbn [fold_left].
  apply run_frame_exec.
Qed.

(** C7: at most one scroll evaluation is queued; a scroll event that
    arrives while [ticking] is set queues nothing and leaves the flag set;
    only the animation frame clears the flag, and it does so after having
    run [handleScroll] once on the emptied queue. *)
Theorem C7_scroll_evaluations_serialised (w : World) :
  reachable w ->
  (List.length (rafQueue w) <= 1)%nat /\
  rafQueue w = (if ticking (state w) then [FcScrollEval] else []) /\
  (forall y, ticking (state w) = true ->
     rafQueue (step (EvScroll y) w) = rafQueue w /\
     ticking (state (step (EvScroll y) w)) = true) /\
  (forall e, ticking (state w) = true ->
     ticking (state (step e w)) = false -> e = EvAnimationFrame) /\
  (ticking (state w) = true ->
     step EvAnimationFrame w
     = upd_state (set_ticking false)
         (exec handleScroll (set_rafQueue [] w))).
Proof.
  intros Hr. destruct (reachable_Inv w Hr) as [_ Hf].
  split; [|split; [|split; [|split]]].
  - rewrite Hf. destruct (ticking (state w)); simpl; lia.
  - exact Hf.
  - intros y Ht. now apply scroll_while_ticking.
  - intros e Ht Hc.
    destruct e; try reflexivity; exfalso;
      match goal with
      | _ : ticking (state (step ?e w)) = false |- _ =>
          assert (Hk : Ticking (step e w))
            by (apply Ticking_step; [discriminate | exact Ht]);
          unfold Ticking in Hk; congruence
      end.
  - intros Ht. now apply frame_while_ticking.
Qed.

Lemma C7_witness :
  reachable (step (EvScroll 120) sample_world) /\
  (List.length (rafQueue (step (EvScroll 120) sample_world)) <= 1)%nat.
Proof.
  assert (Hr : reachable (step (EvScroll 120) sample_world)).
  { apply reach_step. apply reach_loaded. }
  split; [exact Hr|].
  exact (proj1 (C7_scroll_evaluations_serialised _ Hr)).
Defined.

(* ================================================================== *)
(** ** No hide while the menu is open (handleScroll, hideToggleWithDelay) *)
(* ================================================================== *)

(** Membership of a literal class in a literal list is computed. *)
Ltac eval_class_literals :=
  repeat match goal with
         | |- context [has_class ?c (?x :: ?l)] =>
             let v := eval vm_compute in (has_class c (x :: l)) in
             change (has_class c (x :: l)) with v
         end.

Ltac side_open_quiet_classes Hc :=
  let n := fresh "n" in
  let Hn := fresh "Hn" in
  intros n; unfold node_has_class in *; js_fields;
  autorewrite with dom_obs; eval_class_literals;
  rewrite ?andb_false_r, ?orb_false_l; cbn [negb andb];
  intros Hn; apply Hc;
  first [ exact Hn | apply andb_prop in Hn; apply Hn ].

Ltac side_open_quiet_timers Ht :=
  let t := fresh "t" in
  let Hi := fresh "Hi" in
  let Hh := fresh "Hh" in
  intros t Hi Hh; js_fields; js_fields_in Hi;
  first
    [ exact (Ht t Hi Hh)
    | apply In_drop_timer in Hi; exact (Ht t (proj1 Hi) Hh)
    | apply in_app_or in Hi; destruct Hi as [Hi|[<-|[]]];
      [exact (Ht t Hi Hh) | discriminate Hh] ].

Ltac side_open_quiet :=
  idtac;
  let w := fresh "w" in
  let Hm := fresh "Hm" in
  let Hc := fresh "Hc" in
  let Ht := fresh "Ht" in
  intros w (Hm & Hc & Ht); unfold set_throttle;
  repeat match goal with
         | |- context [if listening ?l ?x then _ else _] =>
             destruct (listening l x)
         | |- context [match ?x with _ => _ end] => is_var x; destruct x
         end;
  (split;
   [ exact Hm
   | split; [side_open_quiet_classes Hc | side_open_quiet_timers Ht] ]).

Ltac link_menuOpen :=
  apply preserves_bind_link with (a := true);
  [ let x := fresh in let H := fresh in intros x H; exact (proj1 H)
  | cbv beta iota; cbn [negb orb andb] ].

Ltac leaf_open_quiet :=
  idtac;
  match goal with
  | |- preserves _ (bind (get_state menuOpen) _) =>
      unfold get_state at 1; link_menuOpen
  | |- preserves _ (bind (gets (fun x => menuOpen (state x))) _) =>
      link_menuOpen
  end.

Ltac auto_open_quiet := js_rules leaf_open_quiet side_open_quiet.

Lemma handleScroll_open_quiet (w0 : World) :
  preserves (open_quiet w0) handleScroll.
Proof. auto_open_quiet. Qed.

Lemma run_timer_open_quiet (w0 : World) (cb : TimerCallback) :
  preserves (open_quiet w0) (run_timer cb).
Proof. auto_open_quiet. Qed.

Lemma setScrollingState_completes (b : bool) (w : World) :
  completes (setScrollingState b) w = true.
Proof.
  assert (H : nothrow anywhere (setScrollingState b))
    by js_rules fail ltac:(intros; exact I).
  apply H. exact I.
Qed.

Lemma handleScrollEnd_completes (w : World) :
  completes handleScrollEnd w = true.
Proof.
  assert (H : nothrow anywhere handleScrollEnd)
    by js_rules fail ltac:(intros; exact I).
  apply H. exact I.
Qed.

Lemma open_quiet_refl (w : World) :
  menuOpen (state w) = true -> open_quiet w w.
Proof. intros H. split; [exact H | split; auto]. Qed.

Lemma open_quiet_step (w0 : World) (e : Event) (w : World) :
  scroll_or_timer e = true -> open_quiet w0 w -> open_quiet w0 (step e w).
Proof.
  intros He H. destruct e; try discriminate He; cbn [step].
  - (* a scroll event: the throttled onScroll only queues a frame *)
    apply (dispatch_keeps (open_quiet w0)).
    + apply throttle_preserves;
        [ intros w1 t H1; revert w1 H1; side_open_quiet
        | intros w1 d H1; revert w1 H1; side_open_quiet
        | auto_open_quiet ].
    + revert w H. side_open_quiet.
  - (* the frame: handleScroll with the menu open *)
    apply (run_frames_preserves (open_quiet w0));
      [side_open_quiet | | exact H].
    intros cb. auto_open_quiet.
  - (* a timer fires *)
    apply (fire_timer_preserves (open_quiet w0)); [| | exact H].
    + intros h' w'. revert w'. side_open_quiet.
    + intros cb. apply run_timer_open_quiet.
  - (* time passes *)
    revert w H. side_open_quiet.
Qed.

Lemma open_quiet_run (w0 : World) (es : list Event) (w : World) :
  forallb scroll_or_timer es = true ->
  open_quiet w0 w -> open_quiet w0 (run es w).
Proof.
  revert w. induction es as [|e es IH]; intros w Hes H; simpl; [exact H|].
  simpl in Hes. apply andb_prop in Hes as [He Hes].
  apply IH; [exact Hes|]. now apply open_quiet_step.
Qed.

(** A hide timer that fires while the menu is open does nothing. *)
Lemma hide_callback_while_open (tg : ref) (w : World) :
  menuOpen (state w) = true -> exec (run_timer (CbHide tg)) w = w.
Proof.
  intros H. unfold run_timer. js_fwd. rewrite H. reflexivity.
Qed.

(** With the menu open, the evaluation keeps the scrolling shadow up to
    date and records the offset; it reaches neither [hideToggleWithDelay]
    nor [showToggle]. *)
Lemma handleScroll_while_open (w : World) :
  menuOpen (state w) = true ->
  exec handleScroll w =
  if (1025 <=? innerWidth w) || negb (truthy (toggle (elements w))) then w
  else upd_state (set_lastScrollY (scrollY w))
         (exec handleScrollEnd (exec (setScrollingState true) w)).
Proof.
  intros H. unfold handleScroll. js_fwd.
  destruct ((1025 <=? innerWidth w) || negb (truthy (toggle (elements w))));
    js_fwd; [reflexivity|].
  rewrite exec_bind_call by apply setScrollingState_completes.
  rewrite exec_bind_call by apply handleScrollEnd_completes.
  js_fwd.
  assert (Hp : preserves (open_quiet w)
                 (setScrollingState true ;; handleScrollEnd))
    by auto_open_quiet.
  specialize (Hp w (open_quiet_refl w H)).
  rewrite exec_bind_call in Hp by apply setScrollingState_completes.
  rewrite (proj1 Hp). reflexivity.
Qed.

(** C1: from a world where the menu is open, along any sequence of scroll
    events, frames, timer firings and ticks the menu stays open, no node
    (so not the toggle) gains [auto-hidden], and no hide timer is added;
    a hide callback that fires meanwhile changes nothing; and the scroll
    evaluation only maintains the scrolling shadow and then records the
    offset in [lastScrollY]. *)
Theorem C1_no_hide_while_menu_open (w : World) (es : list Event) :
  menuOpen (state w) = true ->
  forallb scroll_or_timer es = true ->
  menuOpen (state (run es w)) = true /\
  (forall n, node_has_class (run es w) n "auto-hidden" = true ->
             node_has_class w n "auto-hidden" = true) /\
  (forall t, In t (timers (run es w)) -> is_hide (callback t) = true ->
             In t (timers w)) /\
  (forall tg, exec (run_timer (CbHide tg)) (run es w) = run es w) /\
  exec handleScroll (run es w) =
    (if (1025 <=? innerWidth (run es w))
        || negb (truthy (toggle (elements (run es w))))
     then run es w
     else upd_state (set_lastScrollY (scrollY (run es w)))
            (exec handleScrollEnd
               (exec (setScrollingState true) (run es w)))).
Proof.
  intros Hm Hes.
  destruct (open_quiet_run w es w Hes (open_quiet_refl w Hm))
    as (H1 & H2 & H3).
  repeat split; try assumption.
  - intros tg. now apply hide_callback_while_open.
  - now apply handleScroll_while_open.
Qed.

(** C1 at work: the menu is opened on the sample page, then the page is
    scrolled to 300, a frame runs, time passes and a timer fires. *)
Lemma C1_witness :
  menuOpen (state sample_open) = true /\
  menuOpen
    (state (run [EvScroll 300; EvAnimationFrame; EvTick 200; EvTimer 4%nat]
              sample_open)) = true.
Proof.
  assert (Hm : menuOpen (state sample_open) = true)
    by (vm_compute; reflexivity).
  split; [exact Hm|].
  exact (proj1 (C1_no_hide_while_menu_open sample_open
                  [EvScroll 300; EvAnimationFrame; EvTick 200; EvTimer 4%nat]
                  Hm eq_refl)).
Defined.

(* ================================================================== *)
(** ** Closing restores what opening saved (openMenu, closeMenu) *)
(* ================================================================== *)

Ltac side_saved :=
  idtac;
  let w := fresh "w" in
  let H := fresh "H" in
  intros w H; unfold saved, set_throttle in *;
  repeat match goal with
         | |- context [if listening ?l ?x then _ else _] =>
             destruct (listening l x)
         | |- context [match ?x with _ => _ end] => is_var x; destruct x
         end;
  exact H.

Ltac side_saved_at H := unfold saved in *; exact H.

Ltac auto_saved := js_rules fail side_saved.

Lemma toggleMenu_exec (w : World) :
  exec toggleMenu w =
  if 1025 <=? innerWidth w then w
  else if menuOpen (state w) then exec closeMenu w
  else exec openMenu w.
Proof.
  unfold toggleMenu. js_fwd.
  destruct (1025 <=? innerWidth w); [reflexivity|].
  js_fwd. destruct (menuOpen (state w)); reflexivity.
Qed.

(** [opens] marks exactly the events that run [openMenu]. *)
Lemma opens_openMenu (e : Event) (w : World) :
  opens e w = true -> step e w = exec openMenu w.
Proof.
  destruct e; try discriminate; cbn [step opens]; intros H.
  - apply andb_prop in H as [H Hm]. apply andb_prop in H as [Hl Hd].
    unfold dispatch. rewrite Hl, toggleMenu_exec.
    destruct (1025 <=? innerWidth w); [discriminate|].
    destruct (menuOpen (state w)); [discriminate | reflexivity].
  - apply andb_prop in H as [Hd Hm]. rewrite toggleMenu_exec.
    destruct (1025 <=? innerWidth w); [discriminate|].
    destruct (menuOpen (state w)); [discriminate | reflexivity].
Qed.

Lemma closeMenu_saved (v : Z) : preserves (saved v) closeMenu.
Proof. auto_saved. Qed.

Lemma saved_step (v : Z) (e : Event) (w : World) :
  opens e w = false -> saved v w -> saved v (step e w).
Proof.
  intros Ho H. destruct e; cbn [step];
    try (step_keeps H auto_saved side_saved_at).
  - destruct (readyStateLoading (env w));
      step_keeps H auto_saved side_saved_at.
  - assert (H' : saved v
                   (dispatch LKeydown (handleKeydown key shiftKey)
                      (set_defaultPrevented false w)))
      by step_keeps H auto_saved side_saved_at.
    destruct (key =? "Tab")%string; [|exact H'].
    unfold default_tab.
    destruct (defaultPrevented _); side_saved_at H'.
  - cbn [opens] in Ho. unfold dispatch.
    destruct (listening LToggleClick w); [|exact H].
    rewrite toggleMenu_exec.
    destruct (1025 <=? innerWidth w); [exact H|].
    destruct (menuOpen (state w)); [|discriminate].
    apply closeMenu_saved, H.
  - cbn [opens] in Ho. rewrite toggleMenu_exec.
    destruct (1025 <=? innerWidth w); [exact H|].
    destruct (menuOpen (state w)); [|discriminate].
    apply closeMenu_saved, H.
Qed.

Lemma saved_run (v : Z) (es : list Event) (w : World) :
  no_open es w = true -> saved v w -> saved v (run es w).
Proof.
  revert w. induction es as [|e es IH]; intros w Hes H; simpl; [exact H|].
  simpl in Hes. apply andb_prop in Hes as [He Hes].
  apply IH; [exact Hes|]. apply saved_step; [|exact H].
  now destruct (opens e w).
Qed.

(** [openMenu] saves the current offset. *)
Lemma openMenu_saves (w : World) : saved (scrollY w) (exec openMenu w).
Proof.
  unfold openMenu. js_fwd.
  match goal with
  | |- saved ?v (exec ?m ?w') =>
      assert (Hp : preserves (saved v) m) by auto_saved
  end.
  apply Hp. reflexivity.
Qed.

(** Reading a node after an optional-chaining update. *)
Lemma has_class_opt_add c r cs d m :
  has_class c (classList (dom_opt r (el_add_classes cs) d m))
  = (ref_is r m && has_class c cs) || has_class c (classList (d m)).
Proof. destruct r; [apply has_class_update_add | reflexivity]. Qed.

Lemma has_class_opt_remove c r cs d m :
  has_class c (classList (dom_opt r (el_remove_classes cs) d m))
  = negb (ref_is r m && has_class c cs) && has_class c (classList (d m)).
Proof. destruct r; [apply has_class_update_remove | reflexivity]. Qed.

Lemma has_class_opt_attr c r k v d m :
  has_class c (classList (dom_opt r (el_set_attr k v) d m))
  = has_class c (classList (d m)).
Proof. destruct r; [apply has_class_update_attr | reflexivity]. Qed.

Lemma has_class_opt_html c r h d m :
  has_class c (classList (dom_opt r (el_set_html h) d m))
  = has_class c (classList (d m)).
Proof. destruct r; [apply has_class_update_html | reflexivity]. Qed.

Lemma get_attr_opt_attr k r k' v d m :
  get_attr k (attributes (dom_opt r (el_set_attr k' v) d m))
  = if ref_is r m && (k =? k')%string then Some v
    else get_attr k (attributes (d m)).
Proof. destruct r; [apply get_attr_update_attr | reflexivity]. Qed.

Lemma get_attr_opt_add k r cs d m :
  get_attr k (attributes (dom_opt r (el_add_classes cs) d m))
  = get_attr k (attributes (d m)).
Proof. destruct r; [apply get_attr_update_add | reflexivity]. Qed.

Lemma get_attr_opt_remove k r cs d m :
  get_attr k (attributes (dom_opt r (el_remove_classes cs) d m))
  = get_attr k (attributes (d m)).
Proof. destruct r; [apply get_attr_update_remove | reflexivity]. Qed.

Lemma get_attr_opt_html k r h d m :
  get_attr k (attributes (dom_opt r (el_set_html h) d m))
  = get_attr k (attributes (d m)).
Proof. destruct r; [apply get_attr_update_html | reflexivity]. Qed.

#[global] Hint Rewrite
  has_class_opt_add has_class_opt_remove has_class_opt_attr
  has_class_opt_html get_attr_opt_attr get_attr_opt_add
  get_attr_opt_remove get_attr_opt_html
  : dom_obs.

Lemma ref_is_Some (n : node) : ref_is (Some n) n = true.
Proof. apply Nat.eqb_refl. Qed.

(** Reading classes and attributes off a world built by node updates. *)
Ltac eval_string_literals :=
  repeat match goal with
         | |- context [String.eqb ?a ?b] =>
             let v := eval vm_compute in (String.eqb a b) in
             match v with
             | true => change (String.eqb a b) with true
             | false => change (String.eqb a b) with false
             end
         end.

Ltac dom_read :=
  unfold node_attr, node_has_class; js_fields;
  autorewrite with dom_obs;
  eval_class_literals; eval_string_literals;
  rewrite ?ref_is_Some, ?Nat.eqb_refl, ?andb_false_r, ?andb_true_r,
    ?orb_false_r, ?orb_true_r;
  cbn [negb andb orb].

(** [closeMenu], in one equation. *)
Lemma closeMenu_exec (w : World) :
  exec closeMenu w =
  let els := elements w in
  set_activeElement
    (match toggle els with Some t => Some t | None => activeElement w end)
    (set_scrollY (scrollPosition (state w))
       (set_dom
          (dom_opt (toggle els) (el_set_html (ToggleIcon "☰"))
             (dom_opt (body els) (el_remove_classes ["nav-open"])
                (dom_opt (overlay els) (el_remove_classes ["active"])
                   (dom_opt (sidebar els)
                      (el_remove_classes ["open"; "visible"])
                      (dom_opt (sidebar els)
                         (el_set_attr "aria-hidden" "true")
                         (dom_opt (toggle els)
                            (el_set_attr "aria-expanded" "false")
                            (dom w)))))))
          (upd_state (set_menuOpen false) w))).
Proof.
  unfold closeMenu. js_fwd. cbv zeta.
  destruct (toggle (elements w)), (sidebar (elements w)),
    (overlay (elements w)), (body (elements w)); reflexivity.
Qed.

Lemma closeMenu_effect (w : World) :
  menuOpen (state (exec closeMenu w)) = false /\
  scrollY (exec closeMenu w) = scrollPosition (state w) /\
  (forall t, toggle (elements w) = Some t ->
     node_attr (exec closeMenu w) t "aria-expanded" = Some "false" /\
     activeElement (exec closeMenu w) = Some t) /\
  (forall s, sidebar (elements w) = Some s ->
     node_attr (exec closeMenu w) s "aria-hidden" = Some "true") /\
  (forall b, body (elements w) = Some b ->
     node_has_class (exec closeMenu w) b "nav-open" = false).
Proof.
  rewrite closeMenu_exec. cbv zeta.
  split; [reflexivity | split; [reflexivity | split; [|split]]].
  - intros t Et. rewrite Et. split; [|reflexivity]. now dom_read.
  - intros s Es. rewrite Es. now dom_read.
  - intros b Eb. rewrite Eb. now dom_read.
Qed.

(** C2: [openMenu] is called in [w0]; then any events happen, none of which
    opens the menu again; then [closeMenu] is called.  The window is
    scrolled back to the offset it had in [w0], the menu is closed,
    [aria-expanded] is ["false"] on the toggle, which has the focus,
    [aria-hidden] is ["true"] on the sidebar and the body has lost
    [nav-open]. *)
Theorem C2_close_restores_open (w0 : World) (es : list Event) :
  no_open es (exec openMenu w0) = true ->
  let w1 := run es (exec openMenu w0) in
  let w2 := exec closeMenu w1 in
  scrollY w2 = scrollY w0 /\
  menuOpen (state w2) = false /\
  (forall t, toggle (elements w1) = Some t ->
     node_attr w2 t "aria-expanded" = Some "false" /\
     activeElement w2 = Some t) /\
  (forall s, sidebar (elements w1) = Some s ->
     node_attr w2 s "aria-hidden" = Some "true") /\
  (forall b, body (elements w1) = Some b ->
     node_has_class w2 b "nav-open" = false).
Proof.
  intros Hes w1 w2.
  assert (Hs : saved (scrollY w0) w1)
    by (apply saved_run; [exact Hes | apply openMenu_saves]).
  destruct (closeMenu_effect w1) as (Hm & Hy & Ht & Hsb & Hb).
  subst w2. split; [|split; [|split; [|split]]]; try assumption.
  rewrite Hy. exact Hs.
Qed.

(** C2 at work on the sample page scrolled to 240: the menu is opened,
    the page is scrolled to 700 underneath, the menu is closed. *)
Lemma C2_witness :
  no_open [EvScroll 700; EvAnimationFrame]
    (exec openMenu (set_scrollY 240 sample_world)) = true /\
  scrollY
    (exec closeMenu
       (run [EvScroll 700; EvAnimationFrame]
          (exec openMenu (set_scrollY 240 sample_world)))) = 240.
Proof.
  assert (Hn : no_open [EvScroll 700; EvAnimationFrame]
                 (exec openMenu (set_scrollY 240 sample_world)) = true)
    by (vm_compute; reflexivity).
  split; [exact Hn|].
  exact (proj1 (C2_close_restores_open (set_scrollY 240 sample_world)
                  [EvScroll 700; EvAnimationFrame] Hn)).
Defined.

(* ================================================================== *)
(** ** Entering the open state (openMenu, showToggle) *)
(* ================================================================== *)

(** [showToggle(0)], the call made by [openMenu] and at the top of the
    page: the hide timer is cancelled, then the class is removed at once. *)
Lemma showToggle_0_exec (w : World) :
  exec (showToggle 0) w =
  match toggle (elements w) with
  | None => w
  | Some t =>
      set_dom (update_node t (el_remove_classes ["auto-hidden"])
                 (dom (exec cancelHideTimer w)))
        (exec cancelHideTimer w)
  end.
Proof.
  unfold showToggle. js_fwd.
  destruct (toggle (elements w)) as [t|]; js_fwd; [|reflexivity].
  rewrite exec_bind_call by apply cancelHideTimer_completes.
  js_fwd. reflexivity.
Qed.

Lemma showToggle_completes (d : Z) (w : World) :
  completes (showToggle d) w = true.
Proof.
  assert (H : nothrow anywhere (showToggle d))
    by js_rules fail ltac:(intros; exact I).
  apply H. exact I.
Qed.

(** What [cancelHideTimer] leaves alone. *)
Lemma cancelHideTimer_frame (w : World) :
  exists ts h,
    incl ts (timers w) /\
    exec cancelHideTimer w = upd_state (set_hideTimer h) (set_timers ts w).
Proof.
  rewrite cancelHideTimer_exec.
  destruct (hideTimer (state w)) as [[|h]|] eqn:E.
  - exists (timers w), (Some 0%nat). split; [apply incl_refl|].
    destruct w as [? [] ?]; cbn in *. now rewrite E.
  - exists (drop_timer (S h) (timers w)), None. split; [|reflexivity].
    intros t Ht. now apply In_drop_timer in Ht.
  - exists (timers w), None. split; [apply incl_refl|].
    destruct w as [? [] ?]; cbn in *. now rewrite E.
Qed.

(** [openMenu], in one equation. *)
Lemma openMenu_exec (w : World) :
  exec openMenu w =
  let w2 := exec (showToggle 0) (opened w) in
  set_nextTimerId (S (nextTimerId w2))
    (set_timers
       (timers w2 ++
        [mkTimer (nextTimerId w2)
           (now w2 + Z.max 0 (transitionDuration (CONFIG w2))) CbFocusFirst])
       w2).
Proof.
  unfold openMenu, opened. js_fwd. cbv zeta.
  destruct (toggle (elements w)), (sidebar (elements w)),
    (overlay (elements w)), (body (elements w)); js_fwd;
    rewrite exec_bind_call by apply showToggle_completes;
    js_fwd; reflexivity.
Qed.

Lemma world_eta (w : World) :
  set_dom (dom w)
    (upd_state (set_hideTimer (hideTimer (state w)))
       (set_timers (timers w) w)) = w.
Proof. destruct w as [? [] ?]; reflexivity. Qed.

(** [showToggle(0)] changes the toggle's classes, the timers and
    [state.hideTimer], nothing else. *)
Lemma showToggle_0_frame (w : World) :
  exists ts h,
    incl ts (timers w) /\
    exec (showToggle 0) w =
    set_dom (dom_opt (toggle (elements w))
               (el_remove_classes ["auto-hidden"]) (dom w))
      (upd_state (set_hideTimer h) (set_timers ts w)).
Proof.
  rewrite showToggle_0_exec.
  destruct (toggle (elements w)) as [t|].
  - destruct (cancelHideTimer_frame w) as (ts & h & Hi & E).
    exists ts, h. split; [exact Hi|]. rewrite E. reflexivity.
  - exists (timers w), (hideTimer (state w)). split; [apply incl_refl|].
    symmetry. apply world_eta.
Qed.

Lemma showToggle_0_TimersInv : preserves TimersInv (showToggle 0).
Proof. auto_TimersInv. Qed.

Lemma showToggle_0_no_hide (w : World) :
  TimersInv w -> no_hide_pending (exec (showToggle 0) w).
Proof.
  intros H. rewrite showToggle_0_exec.
  destruct (toggle (elements w)) as [t|] eqn:Et.
  - intros x Hx. cbn in Hx. now apply (cancelHideTimer_no_hide w H).
  - intros x Hx. destruct (is_hide (callback x)) eqn:Hide; [|reflexivity].
    destruct (inv_hide w H x Hx Hide) as [_ Htg].
    rewrite Et in Htg. discriminate.
Qed.

Lemma opened_TimersInv (w : World) : TimersInv w -> TimersInv (opened w).
Proof. intros H. apply (TimersInv_ext w); [reflexivity .. | exact H]. Qed.

Lemma find_timer_fresh (h : nat) (d : Z) (cb : TimerCallback)
  (l : list Timer) :
  (forall t, In t l -> (tid t < h)%nat) ->
  find_timer h (l ++ [mkTimer h d cb]) = Some (mkTimer h d cb).
Proof.
  unfold find_timer. induction l as [|x l IH]; intros Hl; simpl.
  - now rewrite Nat.eqb_refl.
  - destruct (Nat.eqb_spec (tid x) h) as [E|_].
    + specialize (Hl x (or_introl eq_refl)). lia.
    + apply IH. intros t Ht. apply Hl. now right.
Qed.

(** The deferred focus of [openMenu]. *)
Lemma focus_callback_exec (w : World) (item : node) (rest : list node) :
  navItems (elements w) = Some (item :: rest) ->
  activeElement (exec (run_timer CbFocusFirst) w) = Some item.
Proof.
  intros H. unfold run_timer. js_fwd. rewrite H. js_fwd. reflexivity.
Qed.

(** C3: [openMenu] called in any reachable world cancels the hide in
    flight (no hide timer is pending afterwards), saves the current scroll
    offset, sets [menuOpen], adds [nav-open] to the body, sets
    [aria-expanded] to ["true"] on the toggle and [aria-hidden] to
    ["false"] on the sidebar, removes [auto-hidden] from the toggle, and
    schedules the focus of the first navigation item: the timer it creates
    cannot fire before [transitionDuration] ms have passed, and gives the
    focus to that item when it fires afterwards. *)
Theorem C3_openMenu_entry (w : World) :
  reachable w ->
  let w' := exec openMenu w in
  let D := Z.max 0 (transitionDuration (CONFIG w)) in
  no_hide_pending w' /\
  scrollPosition (state w') = scrollY w /\
  menuOpen (state w') = true /\
  (forall b, body (elements w) = Some b ->
     node_has_class w' b "nav-open" = true) /\
  (forall t, toggle (elements w) = Some t ->
     node_attr w' t "aria-expanded" = Some "true" /\
     node_has_class w' t "auto-hidden" = false) /\
  (forall s, sidebar (elements w) = Some s ->
     node_attr w' s "aria-hidden" = Some "false") /\
  In (mkTimer (nextTimerId w) (now w + D) CbFocusFirst) (timers w') /\
  (forall dt, 0 <= dt < D ->
     step (EvTimer (nextTimerId w)) (step (EvTick dt) w')
     = step (EvTick dt) w') /\
  (forall dt item rest, D <= dt ->
     navItems (elements w) = Some (item :: rest) ->
     activeElement (step (EvTimer (nextTimerId w)) (step (EvTick dt) w'))
     = Some item).
Proof.
  intros Hr w' D. subst w'.
  destruct (reachable_Inv w Hr) as [Hi _].
  pose proof (opened_TimersInv w Hi) as Ho.
  pose proof (showToggle_0_TimersInv _ Ho) as H2.
  pose proof (showToggle_0_no_hide _ Ho) as Hn.
  rewrite openMenu_exec. cbv zeta.
  destruct (showToggle_0_frame (opened w)) as (ts & h & _ & E).
  rewrite E in *. clear E. unfold opened in *.
  js_fields. js_fields_in H2. fold D.
  assert (Hfresh : forall t, In t ts -> (tid t < nextTimerId w)%nat).
  { intros t Ht. apply (inv_fresh _ H2 t Ht). }
  assert (Hfind : forall n,
             find_timer (nextTimerId w)
               (ts ++ [mkTimer (nextTimerId w) n CbFocusFirst])
             = Some (mkTimer (nextTimerId w) n CbFocusFirst))
    by (intros n; now apply find_timer_fresh).
  split; [|split; [|split; [|split; [|split; [|split; [|split; [|split]]]]]]].
  - intros x Hx. js_fields_in Hx.
    apply in_app_or in Hx as [Hx|[<-|[]]]; [|reflexivity].
    apply Hn. exact Hx.
  - reflexivity.
  - reflexivity.
  - intros b Eb. rewrite Eb. now dom_read.
  - intros t Et. rewrite Et. split; now dom_read.
  - intros s Es. rewrite Es. now dom_read.
  - apply in_or_app. right. now left.
  - intros dt Hdt. cbn [step]. unfold fire_timer. js_fields.
    rewrite Hfind. js_fields.
    destruct (Z.leb_spec (now w + D) (now w + Z.max 0 dt)); [lia|].
    reflexivity.
  - intros dt item rest Hdt Hnav. cbn [step]. unfold fire_timer. js_fields.
    rewrite Hfind. js_fields.
    destruct (Z.leb_spec (now w + D) (now w + Z.max 0 dt)); [|lia].
    apply (focus_callback_exec _ item rest). exact Hnav.
Qed.

(* ================================================================== *)
(** ** The scroll evaluation with the menu closed (handleScroll) *)
(* ================================================================== *)

Lemma same_autohide_refl (w : World) : same_autohide w w.
Proof. constructor; auto. Qed.

Ltac side_same_autohide :=
  idtac;
  let x := fresh "x" in
  let H := fresh "H" in
  intros x H; destruct H;
  repeat match goal with
         | |- context [if listening ?l ?y then _ else _] =>
             destruct (listening l y)
         end;
  constructor; js_fields; try assumption; try lia;
  match goal with
  | |- forall t, In t _ -> _ \/ _ =>
      let t := fresh "t" in
      let Hi := fresh "Hi" in
      intros t Hi;
      first
        [ apply In_drop_timer in Hi; destruct Hi as [Hi _]; auto
        | apply in_app_or in Hi; destruct Hi as [Hi|[<-|[]]];
          [auto | right; reflexivity] ]
  | |- forall n, _ = _ =>
      let n := fresh "n" in
      intros n;
      match goal with
      | Hh : forall m, node_has_class _ m _ = _ |- _ => rewrite <- Hh
      end;
      unfold node_has_class; js_fields; autorewrite with dom_obs;
      eval_class_literals;
      rewrite ?andb_false_r, ?orb_false_l; cbn [negb andb];
      reflexivity
  end.

Lemma scroll_prefix_frame (w : World) :
  preserves (same_autohide w) scroll_prefix.
Proof. unfold scroll_prefix. js_rules fail side_same_autohide. Qed.

Lemma hideToggleWithDelay_completes (w : World) :
  completes hideToggleWithDelay w = true.
Proof.
  assert (H : nothrow anywhere hideToggleWithDelay)
    by js_rules fail ltac:(intros; exact I).
  apply H. exact I.
Qed.

Lemma scroll_prefix_exec (w : World) :
  exec scroll_prefix w = exec handleScrollEnd (exec (setScrollingState true) w).
Proof.
  unfold scroll_prefix.
  now rewrite exec_bind_call by apply setScrollingState_completes.
Qed.

Lemma autohide_decision_completes (w x : World) :
  completes (autohide_decision w) x = true.
Proof.
  unfold autohide_decision. cbv zeta.
  destruct (scrollY w <? topThreshold (CONFIG w)).
  - rewrite completes_bind_call by apply cancelHideTimer_completes.
    apply showToggle_completes.
  - destruct ((scrollDelta (CONFIG w) <? scrollY w - lastScrollY (state w))
              && (scrollThreshold (CONFIG w) <? scrollY w)).
    + apply hideToggleWithDelay_completes.
    + destruct (scrollY w - lastScrollY (state w) <? - scrollDelta (CONFIG w)).
      * rewrite completes_bind_call by apply cancelHideTimer_completes.
        apply showToggle_completes.
      * reflexivity.
Qed.

(** With the menu closed, below desktop width and with a toggle, the
    evaluation is: the scrolling shadow, then the decision, then the
    offset is recorded. *)
Lemma handleScroll_closed_exec (w : World) (t : node) :
  menuOpen (state w) = false ->
  innerWidth w < 1025 ->
  toggle (elements w) = Some t ->
  exec handleScroll w =
  upd_state (set_lastScrollY (scrollY w))
    (exec (autohide_decision w) (exec scroll_prefix w)).
Proof.
  intros Hm Hd Et.
  pose proof (scroll_prefix_frame w w (same_autohide_refl w)) as F.
  rewrite scroll_prefix_exec in *.
  unfold handleScroll. js_fwd.
  destruct (Z.leb_spec 1025 (innerWidth w)); [lia|].
  rewrite Et. js_fwd.
  rewrite exec_bind_call by apply setScrollingState_completes.
  rewrite exec_bind_call by apply handleScrollEnd_completes.
  revert F. generalize (exec handleScrollEnd (exec (setScrollingState true) w)).
  intros x F. js_fwd.
  rewrite (sa_menuOpen w x F), Hm. js_fwd.
  rewrite (sa_last w x F), (sa_config w x F).
  unfold autohide_decision. cbv zeta.
  destruct (scrollY w <? topThreshold (CONFIG w)).
  - rewrite exec_bind_assoc.
    rewrite !(exec_bind_call cancelHideTimer)
          by apply cancelHideTimer_completes.
    rewrite (exec_bind_call (showToggle 0))
      by apply showToggle_completes.
    reflexivity.
  - destruct ((scrollDelta (CONFIG w) <? scrollY w - lastScrollY (state w))
              && (scrollThreshold (CONFIG w) <? scrollY w)).
    + rewrite exec_bind_call by apply hideToggleWithDelay_completes.
      reflexivity.
    + destruct (scrollY w - lastScrollY (state w) <? - scrollDelta (CONFIG w)).
      * rewrite exec_bind_assoc.
        rewrite !(exec_bind_call cancelHideTimer)
          by apply cancelHideTimer_completes.
        js_fwd.
        destruct (cancelHideTimer_frame x) as (ts & h & _ & E). rewrite E.
        js_fields. rewrite (sa_config w x F).
        rewrite exec_bind_call by apply showToggle_completes. reflexivity.
      * js_fwd. reflexivity.
Qed.

Lemma scroll_prefix_TimersInv : preserves TimersInv scroll_prefix.
Proof. unfold scroll_prefix. auto_TimersInv. Qed.

(** C5: a scroll evaluation with the menu closed (below desktop width,
    with a toggle) at an offset strictly below [topThreshold], whatever
    the last recorded offset was: afterwards no hide timer is pending, the
    toggle does not have [auto-hidden], no timer was created other than
    the scroll-end one (the show is not deferred), and the offset is
    recorded. *)
Theorem C5_top_zone_shows_at_once (w : World) (t : node) :
  reachable w ->
  menuOpen (state w) = false ->
  innerWidth w < 1025 ->
  toggle (elements w) = Some t ->
  scrollY w < topThreshold (CONFIG w) ->
  let w' := exec handleScroll w in
  no_hide_pending w' /\
  node_has_class w' t "auto-hidden" = false /\
  (forall x, In x (timers w') ->
     In x (timers w) \/ callback x = CbScrollEnd) /\
  lastScrollY (state w') = scrollY w.
Proof.
  intros Hr Hm Hd Et Htop w'. subst w'.
  destruct (reachable_Inv w Hr) as [Hi _].
  rewrite (handleScroll_closed_exec w t Hm Hd Et).
  pose proof (scroll_prefix_frame w w (same_autohide_refl w)) as F.
  pose proof (scroll_prefix_TimersInv w Hi) as Hx.
  revert F Hx. generalize (exec scroll_prefix w). intros x F Hx.
  unfold autohide_decision. cbv zeta.
  destruct (Z.ltb_spec (scrollY w) (topThreshold (CONFIG w))); [|lia].
  rewrite exec_bind_call by apply cancelHideTimer_completes.
  pose proof (cancelHideTimer_TimersInv x Hx) as H1.
  destruct (cancelHideTimer_frame x) as (ts1 & h1 & Hi1 & E1).
  pose proof (showToggle_0_no_hide _ H1) as Hn.
  destruct (showToggle_0_frame (exec cancelHideTimer x))
    as (ts2 & h2 & Hi2 & E2).
  rewrite E2 in *. clear E2. rewrite E1 in *. clear E1.
  js_fields. js_fields_in Hi2. rewrite (sa_elements w x F), Et.
  split; [|split; [|split]].
  - exact Hn.
  - now dom_read.
  - intros y Hy. apply (sa_timers w x F). apply Hi1, Hi2, Hy.
  - reflexivity.
Qed.

(** [showToggle(delay)] and [hideToggleWithDelay], each in one equation. *)
Lemma showToggle_exec (d : Z) (w : World) :
  exec (showToggle d) w =
  match toggle (elements w) with
  | None => w
  | Some t =>
      let w1 := exec cancelHideTimer w in
      if (0 <? d) && negb (prefersReducedMotion (state w1)) then
        set_nextTimerId (S (nextTimerId w1))
          (set_timers
             (timers w1 ++
              [mkTimer (nextTimerId w1) (now w1 + Z.max 0 d) (CbShow (Some t))])
             w1)
      else
        set_dom (update_node t (el_remove_classes ["auto-hidden"]) (dom w1)) w1
  end.
Proof.
  unfold showToggle. js_fwd.
  destruct (toggle (elements w)) as [t|]; js_fwd; [|reflexivity].
  rewrite exec_bind_call by apply cancelHideTimer_completes.
  js_fwd. cbv zeta.
  destruct ((0 <? d) && negb (prefersReducedMotion (state (exec cancelHideTimer w))));
    js_fwd; reflexivity.
Qed.

Lemma hideToggleWithDelay_exec (w : World) (t : node) :
  toggle (elements w) = Some t ->
  menuOpen (state w) = false ->
  exec hideToggleWithDelay w =
  let w1 := exec cancelHideTimer w in
  if prefersReducedMotion (state w1) || (autoHideDelay (CONFIG w1) =? 0) then
    set_dom (update_node t (el_add_classes ["auto-hidden"]) (dom w1)) w1
  else
    upd_state (set_hideTimer (Some (nextTimerId w1)))
      (set_nextTimerId (S (nextTimerId w1))
         (set_timers
            (timers w1 ++
             [mkTimer (nextTimerId w1)
                (now w1 + Z.max 0 (autoHideDelay (CONFIG w1)))
                (CbHide (Some t))])
            w1)).
Proof.
  intros Et Hm. unfold hideToggleWithDelay. js_fwd. rewrite Et, Hm. js_fwd.
  rewrite exec_bind_call by apply cancelHideTimer_completes.
  js_fwd. cbv zeta.
  destruct (prefersReducedMotion (state (exec cancelHideTimer w))
            || (autoHideDelay (CONFIG (exec cancelHideTimer w)) =? 0));
    js_fwd; reflexivity.
Qed.

(** Showing never hides and never leaves a hide pending. *)
Lemma showToggle_quiet (d : Z) (w : World) :
  TimersInv w ->
  no_hide_pending (exec (showToggle d) w) /\
  no_gain w (exec (showToggle d) w).
Proof.
  intros H. rewrite showToggle_exec.
  destruct (toggle (elements w)) as [t|] eqn:Et.
  - pose proof (cancelHideTimer_no_hide w H) as Hn.
    destruct (cancelHideTimer_frame w) as (ts & h & Hi & E).
    rewrite E in *. clear E. cbv zeta. js_fields.
    destruct ((0 <? d) && negb (prefersReducedMotion (state w))).
    + split.
      * intros x Hx. js_fields_in Hx.
        apply in_app_or in Hx as [Hx|[<-|[]]]; [now apply Hn | reflexivity].
      * intros n Hc. exact Hc.
    + split; [exact Hn|].
      intros n. unfold node_has_class. js_fields.
      autorewrite with dom_obs. intros Hc.
      now apply andb_prop in Hc.
  - split; [|intros n Hc; exact Hc].
    intros x Hx. destruct (is_hide (callback x)) eqn:Hide; [|reflexivity].
    destruct (inv_hide w H x Hx Hide) as [_ Htg].
    rewrite Et in Htg. discriminate.
Qed.

Ltac side_no_gain :=
  idtac;
  let x := fresh "x" in
  let H := fresh "H" in
  let n := fresh "n" in
  let Hn := fresh "Hn" in
  intros x H; unfold set_throttle;
  repeat match goal with
         | |- context [match ?y with _ => _ end] => is_var y; destruct y
         end;
  intros n; unfold no_gain, node_has_class in *; js_fields;
  autorewrite with dom_obs; eval_class_literals;
  rewrite ?andb_false_r, ?orb_false_l; cbn [negb andb];
  intros Hn; apply H;
  first [ exact Hn | apply andb_prop in Hn; apply Hn ].

(** A callback other than a hide adds [auto-hidden] nowhere. *)
Lemma run_timer_no_gain (w0 : World) (cb : TimerCallback) :
  is_hide cb = false -> preserves (no_gain w0) (run_timer cb).
Proof.
  intros Hc. destruct cb; try discriminate Hc; cbn [run_timer];
    js_rules fail side_no_gain.
Qed.

Lemma fire_timer_no_gain (w0 : World) (h : nat) (w : World) :
  no_hide_pending w -> no_gain w0 w -> no_gain w0 (fire_timer h w).
Proof.
  intros Hn H. unfold fire_timer.
  destruct (find_timer h (timers w)) as [t|] eqn:Ef; [|exact H].
  destruct (due t <=? now w); [|exact H].
  apply run_timer_no_gain; [|exact H].
  apply Hn. unfold find_timer in Ef. now apply find_some in Ef.
Qed.

(** The decision, seen from the world [x] the scrolling shadow leaves. *)
Lemma decision_quiet (w x : World) (t : node) :
  TimersInv x -> same_autohide w x ->
  toggle (elements w) = Some t -> menuOpen (state w) = false ->
  hide_condition w = false ->
  (forall y, In y (timers (exec (autohide_decision w) x)) ->
     is_hide (callback y) = true -> In y (timers w)) /\
  no_gain w (exec (autohide_decision w) x) /\
  (scrollY w - lastScrollY (state w) < - scrollDelta (CONFIG w) ->
   no_hide_pending (exec (autohide_decision w) x)).
Proof.
  intros Hx F Et Hm Hc.
  assert (Hsub : forall y, In y (timers x) -> is_hide (callback y) = true ->
                           In y (timers w)).
  { intros y Hy Hh. destruct (sa_timers w x F y Hy) as [Hin|Hcb];
      [exact Hin | rewrite Hcb in Hh; discriminate]. }
  assert (Hg : no_gain w x).
  { intros n Hn. now rewrite <- (sa_hidden w x F). }
  assert (Hshow : forall d,
             (forall y, In y (timers (exec (showToggle d)
                                        (exec cancelHideTimer x))) ->
                is_hide (callback y) = true -> In y (timers w)) /\
             no_gain w (exec (showToggle d) (exec cancelHideTimer x)) /\
             no_hide_pending (exec (showToggle d) (exec cancelHideTimer x))).
  { intros d.
    pose proof (cancelHideTimer_TimersInv x Hx) as H1.
    destruct (showToggle_quiet d _ H1) as [Hn Hg1].
    destruct (cancelHideTimer_frame x) as (ts & h & Hi & E).
    rewrite E in *. clear E.
    split; [|split; [|exact Hn]].
    - intros y Hy Hh. rewrite (Hn y Hy) in Hh. discriminate.
    - intros n Hc'. apply Hg. apply (Hg1 n) in Hc'. exact Hc'. }
  unfold hide_condition in Hc. unfold autohide_decision. cbv zeta.
  destruct (scrollY w <? topThreshold (CONFIG w)).
  - rewrite exec_bind_call by apply cancelHideTimer_completes.
    destruct (Hshow 0) as (H1 & H2 & H3). auto.
  - cbn [negb andb] in Hc. rewrite Hc.
    destruct (Z.ltb_spec (scrollY w - lastScrollY (state w))
                (- scrollDelta (CONFIG w))).
    + rewrite exec_bind_call by apply cancelHideTimer_completes.
      destruct (Hshow (showDelay (CONFIG w))) as (H1 & H2 & H3). auto.
    + rewrite exec_ret. split; [exact Hsub | split; [exact Hg | lia]].
Qed.

Lemma decision_hide (w x : World) (t : node) :
  TimersInv x -> same_autohide w x ->
  toggle (elements w) = Some t -> menuOpen (state w) = false ->
  hide_condition w = true ->
  exec (autohide_decision w) x =
  let x1 := exec cancelHideTimer x in
  if hide_deferred w then
    upd_state (set_hideTimer (Some (nextTimerId x)))
      (set_nextTimerId (S (nextTimerId x))
         (set_timers
            (timers x1 ++
             [mkTimer (nextTimerId x)
                (now w + Z.max 0 (autoHideDelay (CONFIG w)))
                (CbHide (Some t))])
            x1))
  else
    set_dom (update_node t (el_add_classes ["auto-hidden"]) (dom x)) x1.
Proof.
  intros Hx F Et Hm Hc. unfold hide_condition in Hc.
  apply andb_prop in Hc as [Hc Hc3]. apply andb_prop in Hc as [Hc1 Hc2].
  unfold autohide_decision. cbv zeta.
  destruct (scrollY w <? topThreshold (CONFIG w)); [discriminate|].
  rewrite Hc2, Hc3. cbn [andb].
  rewrite (hideToggleWithDelay_exec x t);
    [| now rewrite (sa_elements w x F)
     | now rewrite (sa_menuOpen w x F) ].
  cbv zeta. unfold hide_deferred.
  destruct (cancelHideTimer_frame x) as (ts & h & Hi & E).
  rewrite E. js_fields.
  rewrite (sa_reduced w x F), (sa_config w x F), (sa_now w x F).
  destruct (prefersReducedMotion (state w) || (autoHideDelay (CONFIG w) =? 0));
    reflexivity.
Qed.

Lemma no_gain_recorded (w x : World) (y : Z) :
  no_gain w x -> no_gain w (upd_state (set_lastScrollY y) x).
Proof. intros H n Hn. apply H. exact Hn. Qed.

Lemma no_hide_recorded (x : World) (y : Z) :
  no_hide_pending x -> no_hide_pending (upd_state (set_lastScrollY y) x).
Proof. intros H t Ht. apply H. exact Ht. Qed.

(** C4, as the code has it: on a scroll evaluation with the menu closed
    (below desktop width, with a toggle), a hide is triggered exactly when
    the downward delta exceeds [scrollDelta], the offset exceeds
    [scrollThreshold] and the offset is not in the top zone.  The hide is
    a timer of [autoHideDelay] ms, named by [state.hideTimer], unless
    reduced motion is preferred or the delay is 0: then [auto-hidden] is
    added at once and no timer exists.  Otherwise nothing is hidden.  An
    upward delta beyond [scrollDelta] leaves no hide pending, hides
    nothing, and no timer that fires afterwards hides anything. *)
Theorem C4_hide_on_scroll_down (w : World) (t : node) :
  reachable w ->
  menuOpen (state w) = false ->
  innerWidth w < 1025 ->
  toggle (elements w) = Some t ->
  let w' := exec handleScroll w in
  (hide_scheduled w w' <->
   hide_condition w = true /\ hide_deferred w = true) /\
  (hide_condition w = true -> hide_deferred w = true ->
   exists h,
     hideTimer (state w') = Some h /\
     In (mkTimer h (now w + Z.max 0 (autoHideDelay (CONFIG w)))
           (CbHide (Some t))) (timers w') /\
     (forall n, node_has_class w' n "auto-hidden"
                = node_has_class w n "auto-hidden")) /\
  (hide_condition w = true -> hide_deferred w = false ->
   node_has_class w' t "auto-hidden" = true /\ no_hide_pending w') /\
  (hide_condition w = false -> no_gain w w') /\
  (0 <= scrollDelta (CONFIG w) ->
   scrollY w - lastScrollY (state w) < - scrollDelta (CONFIG w) ->
   no_hide_pending w' /\ no_gain w w' /\
   forall h, no_gain w (step (EvTimer h) w')).
Proof.
  intros Hr Hm Hd Et w'. subst w'.
  destruct (reachable_Inv w Hr) as [Hi _].
  rewrite (handleScroll_closed_exec w t Hm Hd Et).
  pose proof (scroll_prefix_frame w w (same_autohide_refl w)) as F.
  pose proof (scroll_prefix_TimersInv w Hi) as Hx.
  revert F Hx. generalize (exec scroll_prefix w). intros x F Hx.
  assert (Hup : hide_condition w = true -> 0 <= scrollDelta (CONFIG w) ->
                scrollY w - lastScrollY (state w) < - scrollDelta (CONFIG w) ->
                False).
  { unfold hide_condition. intros Hc H0 Hlt.
    apply andb_prop in Hc as [Hc _]. apply andb_prop in Hc as [_ Hc].
    apply Z.ltb_lt in Hc. lia. }
  destruct (hide_condition w) eqn:Hc.
  - (* the hide is triggered *)
    rewrite (decision_hide w x t Hx F Et Hm Hc). cbv zeta.
    pose proof (cancelHideTimer_no_hide x Hx) as Hn1.
    destruct (cancelHideTimer_frame x) as (ts & h1 & Hi1 & E1).
    rewrite E1 in *. clear E1. js_fields_in Hn1.
    destruct (hide_deferred w) eqn:Hdf.
    + split; [|split; [|split; [|split]]].
      * split; [auto|]. intros _.
        exists (mkTimer (nextTimerId x)
                  (now w + Z.max 0 (autoHideDelay (CONFIG w)))
                  (CbHide (Some t))).
        split; [js_fields; apply in_or_app; right; now left|].
        split; [reflexivity|].
        intros Hin. pose proof (inv_fresh w Hi _ Hin) as Hf.
        pose proof (sa_next w x F). cbn in Hf. lia.
      * intros _ _. exists (nextTimerId x).
        split; [reflexivity|]. split.
        -- js_fields. apply in_or_app. right. now left.
        -- intros n. unfold node_has_class. js_fields.
           apply (sa_hidden w x F).
      * discriminate.
      * discriminate.
      * intros H0 Hlt. exfalso. now apply Hup.
    + split; [|split; [|split; [|split]]].
      * split; [|intros [_ Hf]; discriminate].
        intros (y & Hy & Hh & _). js_fields_in Hy.
        rewrite (Hn1 y Hy) in Hh. discriminate.
      * discriminate.
      * intros _ _. split; [now dom_read|].
        intros y Hy. js_fields_in Hy. now apply Hn1.
      * discriminate.
      * intros H0 Hlt. exfalso. now apply Hup.
  - (* nothing is hidden *)
    destruct (decision_quiet w x t Hx F Et Hm Hc) as (Hsub & Hg & Hnone).
    revert Hsub Hg Hnone. generalize (exec (autohide_decision w) x).
    intros x' Hsub Hg Hnone.
    split; [|split; [|split; [|split]]].
    + split; [|intros [Hf _]; discriminate].
      intros (y & Hy & Hh & Hnew). exfalso. apply Hnew.
      now apply Hsub.
    + discriminate.
    + discriminate.
    + intros _. now apply no_gain_recorded.
    + intros _ Hlt.
      assert (Hn' : no_hide_pending
                      (upd_state (set_lastScrollY (scrollY w)) x'))
        by (apply no_hide_recorded; now apply Hnone).
      assert (Hg' : no_gain w (upd_state (set_lastScrollY (scrollY w)) x'))
        by now apply no_gain_recorded.
      split; [exact Hn' | split; [exact Hg'|]].
      intros h. cbn [step]. now apply fire_timer_no_gain.
Qed.

Lemma reachable_sample_world : reachable sample_world.
Proof. unfold sample_world. apply reach_loaded. Qed.

Lemma reachable_sample_reduced : reachable sample_reduced.
Proof. unfold sample_reduced. apply reach_loaded. Qed.

Lemma no_hide_pending_forallb (w : World) :
  forallb (fun t => negb (is_hide (callback t))) (timers w) = true ->
  no_hide_pending w.
Proof.
  intros H t Ht. rewrite forallb_forall in H.
  specialize (H t Ht). now destruct (is_hide (callback t)).
Qed.

(** C4 as stated fails for a user who prefers reduced motion: scrolling
    the sample page from 0 to 120 meets the three conditions with the menu
    closed, yet the evaluation schedules no hide; it adds [auto-hidden] to
    the toggle at once. *)
Lemma C4_counterexample :
  reachable reduced_scrolled /\
  menuOpen (state reduced_scrolled) = false /\
  toggle (elements reduced_scrolled) = Some 0%nat /\
  hide_condition reduced_scrolled = true /\
  ~ hide_scheduled reduced_scrolled (exec handleScroll reduced_scrolled) /\
  node_has_class (exec handleScroll reduced_scrolled) 0%nat "auto-hidden"
  = true.
Proof.
  split; [apply reach_step, reachable_sample_reduced|].
  split; [vm_compute; reflexivity|].
  split; [vm_compute; reflexivity|].
  split; [vm_compute; reflexivity|].
  split; [|vm_compute; reflexivity].
  intros (y & Hy & Hh & _).
  assert (Hn : no_hide_pending (exec handleScroll reduced_scrolled))
    by (apply no_hide_pending_forallb; vm_compute; reflexivity).
  rewrite (Hn y Hy) in Hh. discriminate.
Qed.

(** C4 at work: the spec's example, the sample page scrolled from 0 to
    120 with the default configuration. *)
Lemma C4_witness :
  reachable sample_scrolled /\
  menuOpen (state sample_scrolled) = false /\
  innerWidth sample_scrolled < 1025 /\
  toggle (elements sample_scrolled) = Some 0%nat /\
  hide_scheduled sample_scrolled (exec handleScroll sample_scrolled).
Proof.
  assert (Hr : reachable sample_scrolled)
    by apply reach_step, reachable_sample_world.
  assert (Hm : menuOpen (state sample_scrolled) = false)
    by (vm_compute; reflexivity).
  assert (Hd : innerWidth sample_scrolled < 1025)
    by (vm_compute; reflexivity).
  assert (Et : toggle (elements sample_scrolled) = Some 0%nat)
    by (vm_compute; reflexivity).
  repeat (split; [assumption|]).
  apply (proj1 (C4_hide_on_scroll_down sample_scrolled 0%nat Hr Hm Hd Et)).
  split; vm_compute; reflexivity.
Defined.

(** C5 at work: the spec's example, the scroll back to 40 while the hide
    scheduled at 120 is pending. *)
Lemma C5_witness :
  reachable sample_scrolled_back /\
  scrollY sample_scrolled_back < topThreshold (CONFIG sample_scrolled_back) /\
  no_hide_pending (exec handleScroll sample_scrolled_back).
Proof.
  assert (Hr : reachable sample_scrolled_back).
  { apply reach_step. unfold sample_hide_pending.
    apply reachable_run, reachable_sample_world. }
  assert (Hm : menuOpen (state sample_scrolled_back) = false)
    by (vm_compute; reflexivity).
  assert (Hd : innerWidth sample_scrolled_back < 1025)
    by (vm_compute; reflexivity).
  assert (Et : toggle (elements sample_scrolled_back) = Some 0%nat)
    by (vm_compute; reflexivity).
  assert (Htop : scrollY sample_scrolled_back
                 < topThreshold (CONFIG sample_scrolled_back))
    by (vm_compute; reflexivity).
  split; [exact Hr | split; [exact Htop|]].
  exact (proj1 (C5_top_zone_shows_at_once sample_scrolled_back 0%nat
                  Hr Hm Hd Et Htop)).
Defined.

(** C3 at work: the menu is opened while the hide scheduled at 120 is
    pending. *)
Lemma C3_witness :
  reachable sample_hide_pending /\
  ~ no_hide_pending sample_hide_pending /\
  no_hide_pending (exec openMenu sample_hide_pending).
Proof.
  assert (Hr : reachable sample_hide_pending).
  { unfold sample_hide_pending.
    apply reachable_run, reachable_sample_world. }
  split; [exact Hr | split].
  - intros H.
    specialize (H (mkTimer 3 150 (CbHide (Some 0%nat)))).
    assert (Hin : In (mkTimer 3 150 (CbHide (Some 0%nat)))
                    (timers sample_hide_pending))
      by (vm_compute; auto).
    specialize (H Hin). discriminate H.
  - exact (proj1 (C3_openMenu_entry sample_hide_pending Hr)).
Defined.

(* ================================================================== *)
(** ** The desktop reset (handleResize, handleScroll) *)
(* ================================================================== *)

(** What the reset does when it runs at desktop width. *)
Lemma resize_body_desktop_exec (w : World) :
  1025 <= innerWidth w ->
  exec resize_body w =
  let els := elements w in
  set_dom
    (dom_opt (toggle els) (el_set_html (ToggleIcon "☰"))
       (dom_opt (toggle els) (el_set_attr "aria-expanded" "false")
          (dom_opt (toggle els) (el_remove_classes ["auto-hidden"])
             (dom_opt (body els) (el_remove_classes ["nav-open"])
                (dom_opt (overlay els) (el_remove_classes ["active"])
                   (dom_opt (sidebar els)
                      (el_remove_classes ["open"; "visible"])
                      (dom w)))))))
    (upd_state (set_menuOpen false) w).
Proof.
  intros Hd. unfold resize_body. js_fwd.
  destruct (Z.leb_spec 1025 (innerWidth w)); [|lia].
  js_fwd. cbv zeta.
  destruct (toggle (elements w)), (sidebar (elements w)),
    (overlay (elements w)), (body (elements w)); reflexivity.
Qed.

Lemma resize_body_desktop (w : World) :
  1025 <= innerWidth w ->
  menuOpen (state (exec resize_body w)) = false /\
  (forall s, sidebar (elements w) = Some s ->
     node_has_class (exec resize_body w) s "open" = false /\
     node_has_class (exec resize_body w) s "visible" = false) /\
  (forall o, overlay (elements w) = Some o ->
     node_has_class (exec resize_body w) o "active" = false) /\
  (forall b, body (elements w) = Some b ->
     node_has_class (exec resize_body w) b "nav-open" = false) /\
  (forall t, toggle (elements w) = Some t ->
     node_has_class (exec resize_body w) t "auto-hidden" = false).
Proof.
  intros Hd. rewrite (resize_body_desktop_exec w Hd). cbv zeta.
  split; [reflexivity | split; [|split; [|split]]].
  - intros s Es. rewrite Es. split; now dom_read.
  - intros o Eo. rewrite Eo. now dom_read.
  - intros b Eb. rewrite Eb. now dom_read.
  - intros t Et. rewrite Et. now dom_read.
Qed.

(** At desktop width the scroll evaluation does nothing at all. *)
Lemma handleScroll_desktop (w : World) :
  1025 <= innerWidth w -> exec handleScroll w = w.
Proof.
  intros Hd. unfold handleScroll. js_fwd.
  destruct (Z.leb_spec 1025 (innerWidth w)); [|lia].
  reflexivity.
Qed.

(** The reset does not cancel a hide that is already scheduled. *)
Lemma resize_body_keeps_timers (w : World) :
  timers (exec resize_body w) = timers w.
Proof.
  assert (Hp : preserves (fun x => timers x = timers w) resize_body).
  { js_rules fail
      ltac:(idtac; let x := fresh in let H := fresh in
            intros x H; exact H). }
  apply Hp. reflexivity.
Qed.

(** C6, the failing run: on the sample page a hide is scheduled at offset
    120; the window is then resized to 1200 px, and the reset leaves the
    menu closed and the toggle without [auto-hidden]; 150 ms later the
    hide timer fires, and the toggle has [auto-hidden] although the
    viewport is still a desktop one. *)
Theorem C6_stale_hide_fires_on_desktop :
  innerWidth sample_resized = 1200 /\
  menuOpen (state sample_resized) = false /\
  node_has_class sample_resized 0%nat "auto-hidden" = false /\
  hide_scheduled sample_world sample_resized /\
  innerWidth sample_resized_later = 1200 /\
  node_has_class sample_resized_later 0%nat "auto-hidden" = true.
Proof.
  split; [vm_compute; reflexivity|].
  split; [vm_compute; reflexivity|].
  split; [vm_compute; reflexivity|].
  split; [|split; vm_compute; reflexivity].
  exists (mkTimer 3 150 (CbHide (Some 0%nat))).
  split; [vm_compute; auto|].
  split; [reflexivity|].
  vm_compute. intros [].
Qed.

(* ================================================================== *)
(** ** Missing elements (init and every operation) *)
(* ================================================================== *)

Ltac side_cached :=
  idtac;
  let w := fresh "w" in
  let H := fresh "H" in
  intros w H; unfold cached, set_throttle in *;
  repeat match goal with
         | |- context [if listening ?l ?x then _ else _] =>
             destruct (listening l x)
         | |- context [match ?x with _ => _ end] => is_var x; destruct x
         end;
  exact H.

(** Reads of the cache are reads of [els]; a list that is not undefined
    can be indexed and spread. *)
Ltac leaf_cached :=
  idtac;
  first
    [ eapply preserves_bind_link;
      [ let x := fresh in let H := fresh in intros x H; exact H | ]
    | eapply nothrow_bind_link;
      [ let x := fresh in let H := fresh in intros x H; exact H | ]
    | match goal with
      | H : ?x <> ?x |- _ => exfalso; exact (H eq_refl)
      | H : truthy None = true |- _ => exfalso; discriminate H
      end ].

Lemma operations_complete (els : Elements) (op : Operation) :
  navItems els <> None -> operation_ok op = true ->
  nothrow (cached els) (run_operation op).
Proof.
  intros Hn Hok. destruct op; cbn [run_operation] in *;
    try (destruct cb; cbn [run_frame run_timer operation_ok callback_ok] in * );
    try solve [js_rules leaf_cached side_cached].
Qed.

Ltac side_untouched :=
  idtac;
  let w := fresh "w" in
  let H := fresh "H" in
  intros w H; unfold untouched, set_throttle in *;
  repeat match goal with
         | |- context [if listening ?l ?x then _ else _] =>
             destruct (listening l x)
         | |- context [match ?x with _ => _ end] => is_var x; destruct x
         end;
  exact H.

Ltac leaf_untouched :=
  idtac;
  eapply preserves_bind_link;
  [ let x := fresh in let H := fresh in intros x H; exact (proj1 H)
  | cbn [elements_absent toggle sidebar overlay body navItems truthy
         negb andb orb optional_chain index spread map] ].

(** With no element at all, no operation writes to a node. *)
Lemma operations_untouched (w0 : World) (op : Operation) :
  closes_over_toggle op = false ->
  preserves (untouched elements_absent w0) (run_operation op).
Proof.
  intros Hok. destruct op; cbn [run_operation] in *;
    try (destruct cb; cbn [run_frame run_timer closes_over_toggle] in * );
    try discriminate Hok;
    try solve [js_rules leaf_untouched side_untouched].
Qed.

(** [init] on a page with neither toggle nor sidebar. *)
Lemma init_skipped_exec (w : World) :
  qToggle (document w) = None -> qSidebar (document w) = None ->
  exec init w =
  set_console (console w ++ [Warn warning_not_found])
    (set_elements
       (mkElements None None (qOverlay (document w)) (qBody (document w))
          (Some (qNavItems (document w)))) w) /\
  completes init w = true.
Proof.
  intros Ht Hs. unfold init, cacheElements. js_fwd. rewrite Ht, Hs.
  js_fwd. split; reflexivity.
Qed.

(** Before [init] has cached the elements, [elements.navItems] is
    undefined and the deferred focus of [openMenu] throws in its timer. *)
Lemma focus_callback_before_init (w : World) :
  navItems (elements w) = None ->
  completes (run_timer CbFocusFirst) w = false.
Proof.
  intros H. unfold run_timer. js_fwd. rewrite H. reflexivity.
Qed.

(** C8: when neither the toggle nor the sidebar is found, [init] logs the
    warning and returns: no listener is added, no node is written, no
    timer is set and the state is as before.  Once the elements are
    cached, every operation of the component completes without throwing,
    whichever elements are missing; and when all of them are missing no
    operation writes to any node. *)
Theorem C8_missing_elements_tolerated :
  (forall w,
     qToggle (document w) = None -> qSidebar (document w) = None ->
     completes init w = true /\
     console (exec init w) = console w ++ [Warn warning_not_found] /\
     listeners (exec init w) = listeners w /\
     dom (exec init w) = dom w /\
     timers (exec init w) = timers w /\
     state (exec init w) = state w) /\
  (forall w op,
     navItems (elements w) <> None -> operation_ok op = true ->
     completes (run_operation op) w = true) /\
  (forall w op,
     elements w = elements_absent -> closes_over_toggle op = false ->
     dom (exec (run_operation op) w) = dom w).
Proof.
  split; [|split].
  - intros w Ht Hs. destruct (init_skipped_exec w Ht Hs) as [E Hc].
    rewrite E. repeat split; [exact Hc | reflexivity ..].
  - intros w op Hn Hok.
    apply (operations_complete (elements w) op Hn Hok). reflexivity.
  - intros w op He Hok.
    apply (operations_untouched w op Hok w). split; [exact He | reflexivity].
Qed.

(** C8 at work: navbar.js on a page that has only a body. *)
Lemma C8_witness :
  qToggle (document (page bare_document sample_nodes sample_env 800 600 0))
  = None /\
  console (exec init (page bare_document sample_nodes sample_env 800 600 0))
  = [Warn warning_not_found] /\
  listeners (exec init (page bare_document sample_nodes sample_env 800 600 0))
  = [].
Proof.
  destruct (proj1 C8_missing_elements_tolerated
              (page bare_document sample_nodes sample_env 800 600 0)
              eq_refl eq_refl) as (_ & Hc & Hl & _).
  split; [reflexivity | split; [exact Hc | exact Hl]].
Defined.

(* ================================================================== *)
(** ** The keyboard trap (handleKeydown) *)
(* ================================================================== *)

Lemma ref_eqb_eq (a b : ref) : ref_eqb a b = true <-> a = b.
Proof.
  destruct a as [x|], b as [y|]; simpl; try (split; congruence).
  rewrite Nat.eqb_eq. split; congruence.
Qed.

Lemma ref_eqb_neq (a b : ref) : a <> b -> ref_eqb a b = false.
Proof.
  intros H. destruct (ref_eqb a b) eqn:E; [|reflexivity].
  apply ref_eqb_eq in E. contradiction.
Qed.

Lemma ref_eqb_refl (a : ref) : ref_eqb a a = true.
Proof. now apply ref_eqb_eq. Qed.

Lemma last_focusable (t : node) (items : list node) :
  exists n, last (Some t :: map Some items) None = Some n.
Proof.
  revert t. induction items as [|x items IH]; intros t.
  - now exists t.
  - destruct (IH x) as [n Hn]. exists n. exact Hn.
Qed.

(** [handleKeydown] on Tab with the menu open, in one equation. *)
Lemma handleKeydown_Tab_exec (w : World) (shiftKey : bool)
  (items : list node) :
  menuOpen (state w) = true ->
  navItems (elements w) = Some items ->
  exec (handleKeydown "Tab" shiftKey) w =
  let firstItem := toggle (elements w) in
  let lastItem := last (toggle (elements w) :: map Some items) None in
  if shiftKey && ref_eqb (activeElement w) firstItem then
    exec (lastItem ?. focus) (set_defaultPrevented true w)
  else if negb shiftKey && ref_eqb (activeElement w) lastItem then
    exec (firstItem ?. focus) (set_defaultPrevented true w)
  else w.
Proof.
  intros Hm Hn. unfold handleKeydown, get_state.
  rewrite exec_bind_gets. rewrite Hm.
  change (("Tab" =? "Escape")%string) with false.
  change (("Tab" =? "Tab")%string) with true.
  cbn [andb]. rewrite exec_bind_gets, Hn. unfold spread.
  rewrite exec_bind_ret, exec_bind_gets. cbn [hd]. cbv zeta.
  destruct (shiftKey && ref_eqb (activeElement w) (toggle (elements w))).
  - unfold preventDefault. now rewrite exec_bind_modify.
  - destruct (negb shiftKey
              && ref_eqb (activeElement w)
                   (last (toggle (elements w) :: map Some items) None)).
    + unfold preventDefault. now rewrite exec_bind_modify.
    + reflexivity.
Qed.

Ltac name_last :=
  repeat match goal with
         | Hlast : last _ _ = Some ?n |- context [last ?l ?d] =>
             replace (last l d) with (Some n) by (symmetry; exact Hlast)
         end.

(** C9, as the code has it: with the menu open (and the listener still
    registered), Tab on the last of [toggle, ...navItems] moves the focus
    to the toggle and Shift+Tab on the toggle moves it to the last one;
    every other Tab press is not intercepted, and the focus goes where the
    document's own tab order says; Escape closes the menu. *)
Theorem C9_tab_wraps_at_both_ends (w : World) (t : node)
  (items : list node) (shiftKey : bool) :
  listening LKeydown w = true ->
  menuOpen (state w) = true ->
  toggle (elements w) = Some t ->
  navItems (elements w) = Some items ->
  let lastItem := last (Some t :: map Some items) None in
  (activeElement w = lastItem ->
   activeElement (step (EvKeydown "Tab" false) w) = Some t) /\
  (activeElement w = Some t ->
   activeElement (step (EvKeydown "Tab" true) w) = lastItem) /\
  ((shiftKey = true -> activeElement w <> Some t) ->
   (shiftKey = false -> activeElement w <> lastItem) ->
   activeElement (step (EvKeydown "Tab" shiftKey) w)
   = (if shiftKey then tabPrev (document w) else tabNext (document w))
       (activeElement w)) /\
  menuOpen (state (step (EvKeydown "Escape" shiftKey) w)) = false.
Proof.
  intros Hl Hm Et Hn lastItem.
  destruct (last_focusable t items) as [n Hlast].
  assert (Hstep : forall s,
             step (EvKeydown "Tab" s) w
             = default_tab s
                 (exec (handleKeydown "Tab" s) (set_defaultPrevented false w))).
  { intros s. cbn [step]. unfold dispatch.
    change (listening LKeydown (set_defaultPrevented false w))
      with (listening LKeydown w).
    rewrite Hl. reflexivity. }
  assert (Hexec := fun s =>
            handleKeydown_Tab_exec (set_defaultPrevented false w) s items
              Hm Hn).
  cbv zeta in Hexec. js_fields_in Hexec. rewrite Et in Hexec.
  fold lastItem in Hexec. subst lastItem. rewrite Hlast in *.
  split; [|split; [|split]].
  - intros Ha. rewrite Hstep, Hexec. name_last.
    rewrite Ha, ref_eqb_refl.
    cbn [negb andb]. unfold optional_chain, focus. reflexivity.
  - intros Ha. rewrite Hstep, Hexec. name_last.
    rewrite Ha, ref_eqb_refl.
    cbn [andb]. unfold optional_chain, focus. reflexivity.
  - intros H1 H2. rewrite Hstep, Hexec. name_last.
    destruct shiftKey; cbn [negb andb].
    + rewrite (ref_eqb_neq _ _ (H1 eq_refl)). reflexivity.
    + rewrite (ref_eqb_neq _ _ (H2 eq_refl)). reflexivity.
  - cbn [step]. unfold dispatch.
    change (listening LKeydown (set_defaultPrevented false w))
      with (listening LKeydown w).
    rewrite Hl.
    change (("Escape" =? "Tab")%string) with false. cbv iota.
    unfold handleKeydown, get_state. rewrite exec_bind_gets. js_fields.
    rewrite Hm.
    change (("Escape" =? "Escape")%string) with true. cbn [andb].
    apply closeMenu_effect.
Qed.

(** C9 as stated fails on the sample page, whose markup has the sidebar
    before the toggle button: with the menu open and the focus on the
    toggle, a plain Tab is not intercepted and the focus leaves the set,
    for the theme button. *)
Lemma C9_counterexample :
  menuOpen (state sample_open_on_toggle) = true /\
  in_trap sample_open_on_toggle (activeElement sample_open_on_toggle)
  = true /\
  activeElement (step (EvKeydown "Tab" false) sample_open_on_toggle)
  = Some 9%nat /\
  menuOpen (state (step (EvKeydown "Tab" false) sample_open_on_toggle))
  = true /\
  in_trap (step (EvKeydown "Tab" false) sample_open_on_toggle) (Some 9%nat)
  = false.
Proof. repeat split; vm_compute; reflexivity. Qed.

(** C9 at work: Tab on the last navigation item of the sample page. *)
Lemma C9_witness :
  listening LKeydown sample_open_on_last = true /\
  menuOpen (state sample_open_on_last) = true /\
  activeElement (step (EvKeydown "Tab" false) sample_open_on_last)
  = Some 0%nat.
Proof.
  assert (Hl : listening LKeydown sample_open_on_last = true)
    by (vm_compute; reflexivity).
  assert (Hm : menuOpen (state sample_open_on_last) = true)
    by (vm_compute; reflexivity).
  assert (Et : toggle (elements sample_open_on_last) = Some 0%nat)
    by (vm_compute; reflexivity).
  assert (Hn : navItems (elements sample_open_on_last)
               = Some [4%nat; 5%nat])
    by (vm_compute; reflexivity).
  split; [exact Hl | split; [exact Hm|]].
  apply (proj1 (C9_tab_wraps_at_both_ends sample_open_on_last 0%nat
                  [4%nat; 5%nat] false Hl Hm Et Hn)).
  vm_compute. reflexivity.
Defined.

(* ================================================================== *)
(** ** The two definitions of toggleSidebar (common.js, navbar.js) *)
(* ================================================================== *)

Lemma has_class_toggle_class (c c' : string) (l : list string) :
  has_class c (toggle_class c' l)
  = if (c =? c')%string then negb (has_class c l) else has_class c l.
Proof.
  unfold toggle_class.
  destruct (has_class c' l) eqn:E.
  - rewrite has_class_remove_class.
    destruct (String.eqb_spec c c') as [->|_]; [now rewrite E | reflexivity].
  - rewrite has_class_add_class.
    destruct (String.eqb_spec c c') as [->|_]; [now rewrite E | reflexivity].
Qed.

Lemma has_class_update_toggle c n c' d m :
  has_class c (classList (update_node n (el_toggle_class c') d m))
  = if Nat.eqb m n && (c =? c')%string
    then negb (has_class c (classList (d m)))
    else has_class c (classList (d m)).
Proof.
  unfold update_node. destruct (Nat.eqb m n); simpl; [|reflexivity].
  apply has_class_toggle_class.
Qed.

(** [toggleSidebar] of common.js, in one equation. *)
Lemma common_toggleSidebar_exec (w : World) :
  exec common_toggleSidebar w =
  match qSidebar (document w), qOverlay (document w) with
  | Some s, Some o =>
      set_dom
        (update_node o (el_toggle_class "active")
           (update_node s (el_toggle_class "open") (dom w))) w
  | _, _ => w
  end.
Proof.
  unfold common_toggleSidebar. js_fwd. cbv zeta.
  destruct (qSidebar (document w)), (qOverlay (document w)); reflexivity.
Qed.

(** C10: below desktop width and with the menu closed, the two functions
    bound to the global name [toggleSidebar] differ.  The one of common.js
    leaves the controller's state and every attribute as they are, and
    changes no class other than [open] on the sidebar and [active] on the
    overlay, which it flips.  The one of navbar.js sets [menuOpen], saves
    the scroll offset, sets the ARIA attributes and locks the body.  The
    script loaded last decides which of the two a page gets. *)
Theorem C10_two_toggleSidebar (w : World) :
  innerWidth w < 1025 ->
  menuOpen (state w) = false ->
  let wc := exec common_toggleSidebar w in
  let wn := exec toggleMenu w in
  (state wc = state w /\
   (forall n k, node_attr wc n k = node_attr w n k) /\
   (forall n c,
      ~ (qSidebar (document w) = Some n /\ c = "open") ->
      ~ (qOverlay (document w) = Some n /\ c = "active") ->
      node_has_class wc n c = node_has_class w n c) /\
   (forall s o,
      qSidebar (document w) = Some s -> qOverlay (document w) = Some o ->
      node_has_class wc s "open" = negb (node_has_class w s "open") /\
      node_has_class wc o "active" = negb (node_has_class w o "active"))) /\
  (menuOpen (state wn) = true /\
   scrollPosition (state wn) = scrollY w /\
   (forall t, toggle (elements w) = Some t ->
      node_attr wn t "aria-expanded" = Some "true") /\
   (forall s, sidebar (elements w) = Some s ->
      node_attr wn s "aria-hidden" = Some "false") /\
   (forall b, body (elements w) = Some b ->
      node_has_class wn b "nav-open" = true)) /\
  wc <> wn /\
  global_toggleSidebar [CommonJs; NavbarJs] = Some toggleMenu /\
  global_toggleSidebar [NavbarJs; CommonJs] = Some common_toggleSidebar.
Proof.
  intros Hd Hm wc wn.
  assert (Ewn : wn = exec openMenu w).
  { subst wn. rewrite toggleMenu_exec.
    destruct (Z.leb_spec 1025 (innerWidth w)); [lia|]. now rewrite Hm. }
  assert (Hc : state wc = state w).
  { subst wc. rewrite common_toggleSidebar_exec.
    destruct (qSidebar (document w)), (qOverlay (document w)); reflexivity. }
  assert (Hn : menuOpen (state wn) = true /\
               scrollPosition (state wn) = scrollY w /\
               (forall t, toggle (elements w) = Some t ->
                  node_attr wn t "aria-expanded" = Some "true") /\
               (forall s, sidebar (elements w) = Some s ->
                  node_attr wn s "aria-hidden" = Some "false") /\
               (forall b, body (elements w) = Some b ->
                  node_has_class wn b "nav-open" = true)).
  { rewrite Ewn, openMenu_exec. cbv zeta.
    destruct (showToggle_0_frame (opened w)) as (ts & h & _ & E).
    rewrite E. clear E. unfold opened. js_fields.
    split; [reflexivity | split; [reflexivity | split; [|split]]].
    - intros t Et. rewrite Et. now dom_read.
    - intros s Es. rewrite Es. now dom_read.
    - intros b Eb. rewrite Eb. now dom_read. }
  split; [|split; [exact Hn | split; [|split; reflexivity]]].
  - split; [exact Hc | split; [|split]]; subst wc;
      rewrite common_toggleSidebar_exec.
    + intros n k.
      destruct (qSidebar (document w)), (qOverlay (document w));
        try reflexivity.
      unfold node_attr. js_fields. now autorewrite with dom_obs.
    + intros n c H1 H2.
      destruct (qSidebar (document w)) as [s|], (qOverlay (document w)) as [o|];
        try reflexivity.
      unfold node_has_class. js_fields.
      rewrite !has_class_update_toggle.
      destruct (Nat.eqb_spec n o) as [Eo|_];
        destruct (Nat.eqb_spec n s) as [Es|_];
        cbn [andb]; subst;
        repeat match goal with
               | |- context [String.eqb c ?x] =>
                   destruct (String.eqb_spec c x) as [->|_]
               end;
        try reflexivity; exfalso;
        first [ apply H1; split; reflexivity
              | apply H2; split; reflexivity ].
    + intros s o Es Eo. rewrite Es, Eo.
      unfold node_has_class. js_fields.
      rewrite !has_class_update_toggle, !Nat.eqb_refl.
      change (("open" =? "active")%string) with false.
      change (("active" =? "open")%string) with false.
      change (("open" =? "open")%string) with true.
      change (("active" =? "active")%string) with true.
      rewrite !andb_false_r, !andb_true_r.
      destruct (Nat.eqb s o), (Nat.eqb o s); split; reflexivity.
  - intros E.
    assert (Hs : menuOpen (state wc) = menuOpen (state wn)) by now rewrite E.
    rewrite Hc, Hm, (proj1 Hn) in Hs. discriminate.
Qed.

(** C10 at work on the sample page. *)
Lemma C10_witness :
  innerWidth sample_world < 1025 /\
  menuOpen (state sample_world) = false /\
  exec common_toggleSidebar sample_world <> exec toggleMenu sample_world.
Proof.
  assert (Hd : innerWidth sample_world < 1025) by (vm_compute; reflexivity).
  assert (Hm : menuOpen (state sample_world) = false)
    by (vm_compute; reflexivity).
  split; [exact Hd | split; [exact Hm|]].
  exact (proj1 (proj2 (proj2 (C10_two_toggleSidebar sample_world Hd Hm)))).
Defined.

(* ================================================================== *)
(** ** Timer handles and throttle windows (setTimeout, clearTimeout,
       throttle) *)
(* ================================================================== *)

(** Cancelling a timer keeps the handles distinct. *)
Lemma NoDup_tid_drop (h : nat) (l : list Timer) :
  NoDup (map tid l) -> NoDup (map tid (drop_timer h l)).
Proof.
  unfold drop_timer. induction l as [|t l IH]; cbn [map filter]; intros Hd.
  - constructor.
  - apply NoDup_cons_iff in Hd as [Hfresh Hrest].
    destruct (negb (Nat.eqb (tid t) h)); cbn [map]; [|now apply IH].
    apply NoDup_cons_iff. split; [|now apply IH].
    rewrite in_map_iff. intros (x & Ex & Hx).
    apply filter_In in Hx as [Hx _]. apply Hfresh.
    rewrite <- Ex. now apply in_map.
Qed.

Lemma NoDup_map_eq {A B} (f : A -> B) (l : list A) (a b : A) :
  NoDup (map f l) -> In a l -> In b l -> f a = f b -> a = b.
Proof.
  induction l as [|x l IH]; simpl; intros H Ha Hb E; [contradiction|].
  inversion H as [|? ? Hn Hd]; subst.
  destruct Ha as [->|Ha], Hb as [->|Hb]; auto.
  - exfalso. apply Hn. rewrite E. now apply in_map.
  - exfalso. apply Hn. rewrite <- E. now apply in_map.
Qed.

Lemma find_timer_Some (h : nat) (l : list Timer) (t : Timer) :
  find_timer h l = Some t -> In t l /\ tid t = h.
Proof.
  unfold find_timer. intros H. apply find_some in H as [Hi He].
  split; [exact Hi | now apply Nat.eqb_eq].
Qed.

Lemma HandlesInv_ext (w w' : World) :
  nextTimerId w' = nextTimerId w ->
  timers w' = timers w ->
  hideTimer (state w') = hideTimer (state w) ->
  scrollingTimer (state w') = scrollingTimer (state w) ->
  HandlesInv w -> HandlesInv w'.
Proof.
  intros E1 E2 E3 E4 [H0 H1 H2 H3 H4 H5 H6].
  constructor; rewrite ?E1, ?E2, ?E3, ?E4; assumption.
Qed.

Lemma Handles_ext (w w' : World) :
  nextTimerId w' = nextTimerId w ->
  timers w' = timers w ->
  hideTimer (state w') = hideTimer (state w) ->
  scrollingTimer (state w') = scrollingTimer (state w) ->
  scrollThrottle w' = scrollThrottle w ->
  resizeThrottle w' = resizeThrottle w ->
  Handles w -> Handles w'.
Proof.
  intros E1 E2 E3 E4 E5 E6 [H Ht]. split.
  - now apply (HandlesInv_ext w).
  - intros th Hth. unfold reset_pending. rewrite E2. apply Ht.
    destruct th; cbn in *; congruence.
Qed.

Lemma HandlesInv_drop_timer (h : nat) (w : World) :
  HandlesInv w -> HandlesInv (set_timers (drop_timer h (timers w)) w).
Proof.
  intros [H0 H1 H2 H3 H4 H5 H6]. constructor; cbn.
  - exact H0.
  - intros t Ht. apply In_drop_timer in Ht as [Ht _]. auto.
  - now apply NoDup_tid_drop.
  - intros i Hi. destruct (H3 i Hi) as [Hlt Hk]. split; [exact Hlt|].
    intros t Ht. apply In_drop_timer in Ht as [Ht _]. auto.
  - intros i Hi. destruct (H4 i Hi) as [Hlt Hk]. split; [exact Hlt|].
    intros t Ht. apply In_drop_timer in Ht as [Ht _]. auto.
  - intros t Ht. apply In_drop_timer in Ht as [Ht _]. auto.
  - intros t Ht. apply In_drop_timer in Ht as [Ht _]. auto.
Qed.

(** Cancelling a timer whose handle does not name a throttle reset keeps
    the resets pending. *)
Lemma ThrottleInv_drop_timer (h : nat) (w : World) :
  (forall t th, In t (timers w) -> tid t = h ->
                callback t <> CbThrottleReset th) ->
  ThrottleInv w -> ThrottleInv (set_timers (drop_timer h (timers w)) w).
Proof.
  intros Hh Ht th Hth.
  assert (Hth' : inThrottle (throttle_of th w) = true)
    by (destruct th; exact Hth).
  destruct (Ht th Hth') as (t & Hi & Hc).
  exists t. split; [|exact Hc]. cbn. apply In_drop_timer. split; [exact Hi|].
  intros E. exact (Hh t th Hi E Hc).
Qed.

Lemma HandlesInv_add_timer (cb : TimerCallback) (d : Z) (w : World) :
  is_hide cb = false -> is_scroll_end cb = false -> HandlesInv w ->
  HandlesInv (set_nextTimerId (S (nextTimerId w))
                (set_timers (timers w ++ [mkTimer (nextTimerId w) d cb]) w)).
Proof.
  intros Hh Hs [H0 H1 H2 H3 H4 H5 H6].
  constructor; cbn.
  - lia.
  - intros t Ht. apply in_app_or in Ht as [Ht|[<-|[]]]; cbn;
      [specialize (H1 t Ht)|]; lia.
  - rewrite map_app. cbn. apply NoDup_app; [exact H2 | repeat constructor; intros [] |].
    intros x Hx [<-|[]]. apply in_map_iff in Hx as (t & E & Ht).
    specialize (H1 t Ht). lia.
  - intros i Hi. destruct (H3 i Hi) as [Hlt Hk]. split; [lia|].
    intros t Ht E. apply in_app_or in Ht as [Ht|[<-|[]]]; [auto|].
    cbn in E. lia.
  - intros i Hi. destruct (H4 i Hi) as [Hlt Hk]. split; [lia|].
    intros t Ht E. apply in_app_or in Ht as [Ht|[<-|[]]]; [auto|].
    cbn in E. lia.
  - intros t Ht Hide. apply in_app_or in Ht as [Ht|[<-|[]]]; [auto|].
    cbn in Hide. congruence.
  - intros t Ht Hc. apply in_app_or in Ht as [Ht|[<-|[]]]; [auto|].
    cbn in Hc. subst cb. discriminate.
Qed.

Lemma ThrottleInv_add_timer (cb : TimerCallback) (d : Z) (w : World) :
  ThrottleInv w ->
  ThrottleInv (set_nextTimerId (S (nextTimerId w))
                 (set_timers (timers w ++ [mkTimer (nextTimerId w) d cb]) w)).
Proof.
  intros Ht th Hth.
  assert (Hth' : inThrottle (throttle_of th w) = true)
    by (destruct th; exact Hth).
  destruct (Ht th Hth') as (t & Hi & Hc).
  exists t. split; [|exact Hc]. cbn. apply in_or_app. now left.
Qed.

Lemma Handles_add_timer (cb : TimerCallback) (d : Z) (w : World) :
  is_hide cb = false -> is_scroll_end cb = false -> Handles w ->
  Handles (set_nextTimerId (S (nextTimerId w))
             (set_timers (timers w ++ [mkTimer (nextTimerId w) d cb]) w)).
Proof.
  intros Hh Hs [H Ht]. split.
  - now apply HandlesInv_add_timer.
  - now apply ThrottleInv_add_timer.
Qed.

(** Leaving a throttle window is always allowed. *)
Lemma Handles_unthrottle (th : ThrottleId) (d : Z) (w : World) :
  Handles w -> Handles (set_throttle th (mkThrottle false d) w).
Proof.
  intros [H Ht]. split.
  - apply (HandlesInv_ext w); [destruct th; reflexivity .. | exact H].
  - intros th' Hth'.
    assert (E : timers (set_throttle th (mkThrottle false d) w) = timers w)
      by (destruct th; reflexivity).
    unfold reset_pending. rewrite E. apply Ht.
    destruct th, th'; cbn in *; congruence.
Qed.

(** A handle field names no throttle reset. *)
Lemma hide_handle_no_reset (w : World) (h : nat) :
  HandlesInv w -> hideTimer (state w) = Some h ->
  forall t th, In t (timers w) -> tid t = h ->
               callback t <> CbThrottleReset th.
Proof.
  intros H E t th Hi Ht Hc. destruct (hi_hide w H h E) as [_ Hk].
  specialize (Hk t Hi Ht). rewrite Hc in Hk. discriminate.
Qed.

Lemma scroll_handle_no_reset (w : World) (h : nat) :
  HandlesInv w -> scrollingTimer (state w) = Some h ->
  forall t th, In t (timers w) -> tid t = h ->
               callback t <> CbThrottleReset th.
Proof.
  intros H E t th Hi Ht Hc. destruct (hi_scroll w H h E) as [_ Hk].
  specialize (Hk t Hi Ht). rewrite Hc in Hk. discriminate.
Qed.

Lemma cancelHideTimer_Handles : preserves Handles cancelHideTimer.
Proof.
  intros w [H Ht]. rewrite cancelHideTimer_exec.
  destruct (hideTimer (state w)) as [[|h]|] eqn:E; try (split; assumption).
  split.
  - pose proof (HandlesInv_drop_timer (S h) w H) as [H0 H1 H2 H3 H4 H5 H6].
    constructor; cbn in *; try assumption.
    + discriminate.
    + intros t Hi Hide. exfalso.
      apply In_drop_timer in Hi as [Hi Hne].
      pose proof (hi_hide_tracked w H t Hi Hide). congruence.
  - pose proof (ThrottleInv_drop_timer (S h) w
                  (hide_handle_no_reset w (S h) H E) Ht) as Ht'.
    intros th Hth. destruct (Ht' th) as (t & Hi & Hc);
      [destruct th; exact Hth|].
    exists t. split; [exact Hi | exact Hc].
Qed.

(** [handleScrollEnd], in one equation. *)
Lemma handleScrollEnd_exec (w : World) :
  exec handleScrollEnd w =
  let w1 :=
    match scrollingTimer (state w) with
    | Some (S h) => set_timers (drop_timer (S h) (timers w)) w
    | _ => w
    end in
  upd_state (set_scrollingTimer (Some (nextTimerId w1)))
    (set_nextTimerId (S (nextTimerId w1))
       (set_timers
          (timers w1 ++
           [mkTimer (nextTimerId w1)
              (now w1 + Z.max 0 (scrollingTimeout (CONFIG w1)))
              CbScrollEnd])
          w1)).
Proof.
  unfold handleScrollEnd. js_fwd.
  destruct (scrollingTimer (state w)) as [[|h]|]; js_fwd; reflexivity.
Qed.

Lemma handleScrollEnd_Handles : preserves Handles handleScrollEnd.
Proof.
  intros w [H Ht]. rewrite handleScrollEnd_exec.
  set (w1 := match scrollingTimer (state w) with
             | Some (S h) => set_timers (drop_timer (S h) (timers w)) w
             | _ => w
             end).
  assert (H1 : HandlesInv w1 /\ ThrottleInv w1 /\
               (forall t, In t (timers w1) -> callback t <> CbScrollEnd) /\
               hideTimer (state w1) = hideTimer (state w)).
  { subst w1. destruct (scrollingTimer (state w)) as [[|h]|] eqn:E.
    - split; [exact H | split; [exact Ht | split; [|reflexivity]]].
      intros t Hi Hc. pose proof (hi_scroll_tracked w H t Hi Hc) as Hn.
      pose proof (hi_fresh w H t Hi). rewrite E in Hn. inversion Hn. lia.
    - split; [apply HandlesInv_drop_timer, H | split; [|split; [|reflexivity]]].
      + apply ThrottleInv_drop_timer; [|exact Ht].
        apply (scroll_handle_no_reset w (S h) H E).
      + intros t Hi Hc. cbn in Hi. apply In_drop_timer in Hi as [Hi Hne].
        pose proof (hi_scroll_tracked w H t Hi Hc). congruence.
    - split; [exact H | split; [exact Ht | split; [|reflexivity]]].
      intros t Hi Hc. pose proof (hi_scroll_tracked w H t Hi Hc). congruence. }
  clearbody w1. destruct H1 as ([H0 H1 H2 H3 H4 H5 H6] & Ht1 & Hno & _).
  cbv zeta. split.
  - constructor; js_fields.
    + lia.
    + intros t Hi. apply in_app_or in Hi as [Hi|[<-|[]]]; cbn;
        [specialize (H1 t Hi)|]; lia.
    + rewrite map_app. cbn.
      apply NoDup_app; [exact H2 | repeat constructor; intros [] |].
      intros x Hx [<-|[]]. apply in_map_iff in Hx as (t & E & Hi).
      specialize (H1 t Hi). lia.
    + intros i Hi. destruct (H3 i Hi) as [Hlt Hk]. split; [lia|].
      intros t Hin E. apply in_app_or in Hin as [Hin|[<-|[]]]; [auto|].
      cbn in E. lia.
    + intros i Hi. inversion Hi; subst i. split; [lia|].
      intros t Hin E. apply in_app_or in Hin as [Hin|[<-|[]]]; [|reflexivity].
      specialize (H1 t Hin). lia.
    + intros t Hin Hide. apply in_app_or in Hin as [Hin|[<-|[]]]; [auto|].
      discriminate.
    + intros t Hin Hc. apply in_app_or in Hin as [Hin|[<-|[]]];
        [exfalso; exact (Hno t Hin Hc) | reflexivity].
  - intros th Hth.
    destruct (Ht1 th) as (t & Hi & Hc); [destruct th; exact Hth|].
    exists t. split; [|exact Hc]. js_fields. apply in_or_app. now left.
Qed.

Lemma cancelHideTimer_clears (w : World) :
  HandlesInv w -> no_hide_pending (exec cancelHideTimer w).
Proof.
  intros H t Ht. rewrite cancelHideTimer_exec in Ht.
  destruct (is_hide (callback t)) eqn:Hide; [exfalso | reflexivity].
  destruct (hideTimer (state w)) as [[|h]|] eqn:E.
  - pose proof (hi_hide_tracked w H t Ht Hide) as Heq.
    pose proof (hi_fresh w H t Ht). rewrite E in Heq. inversion Heq. lia.
  - cbn in Ht. apply In_drop_timer in Ht as [Ht Hne].
    pose proof (hi_hide_tracked w H t Ht Hide). congruence.
  - pose proof (hi_hide_tracked w H t Ht Hide). congruence.
Qed.

Lemma hideToggleWithDelay_Handles : preserves Handles hideToggleWithDelay.
Proof.
  intros w H. unfold hideToggleWithDelay. js_fwd.
  destruct (toggle (elements w)) as [t|] eqn:Et; js_fwd; [|exact H].
  destruct (menuOpen (state w)); js_fwd; [exact H|].
  rewrite exec_bind_call by apply cancelHideTimer_completes.
  pose proof (cancelHideTimer_Handles w H) as H1.
  pose proof (cancelHideTimer_clears w (proj1 H)) as H2.
  revert H1 H2. generalize (exec cancelHideTimer w). clear w H Et.
  intros w [H Ht] Hno. js_fwd.
  destruct (prefersReducedMotion (state w) || (autoHideDelay (CONFIG w) =? 0));
    js_fwd.
  - apply (Handles_ext w); [reflexivity .. | split; assumption].
  - destruct H as [H0 H1 H2 H3 H4 H5 H6]. split.
    + constructor; js_fields.
      * lia.
      * intros x Hx. apply in_app_or in Hx as [Hx|[<-|[]]]; cbn;
          [specialize (H1 x Hx)|]; lia.
      * rewrite map_app. cbn.
        apply NoDup_app; [exact H2 | repeat constructor; intros [] |].
        intros x Hx [<-|[]]. apply in_map_iff in Hx as (y & E & Hi).
        specialize (H1 y Hi). lia.
      * intros i Hi. inversion Hi; subst i. split; [lia|].
        intros x Hx E. apply in_app_or in Hx as [Hx|[<-|[]]]; [|reflexivity].
        specialize (H1 x Hx). lia.
      * intros i Hi. destruct (H4 i Hi) as [Hlt Hk]. split; [lia|].
        intros x Hx E. apply in_app_or in Hx as [Hx|[<-|[]]]; [auto|].
        cbn in E. lia.
      * intros x Hx Hide. apply in_app_or in Hx as [Hx|[<-|[]]];
          [|reflexivity].
        rewrite (Hno x Hx) in Hide. discriminate.
      * intros x Hx Hc. apply in_app_or in Hx as [Hx|[<-|[]]]; [auto|].
        discriminate.
    + intros th Hth.
      destruct (Ht th) as (x & Hi & Hc); [destruct th; exact Hth|].
      exists x. split; [|exact Hc]. js_fields. apply in_or_app. now left.
Qed.

Lemma Handles_drop_scroll (h : nat) (w : World) :
  Handles w -> scrollingTimer (state w) = Some h ->
  Handles (set_timers (drop_timer h (timers w)) w).
Proof.
  intros [H Ht] E. split.
  - apply HandlesInv_drop_timer, H.
  - apply ThrottleInv_drop_timer; [|exact Ht].
    apply (scroll_handle_no_reset w h H E).
Qed.

Lemma cleanup_Handles : preserves Handles cleanup.
Proof.
  intros w H. unfold cleanup.
  rewrite exec_bind_call by apply cancelHideTimer_completes.
  pose proof (cancelHideTimer_Handles w H) as H1.
  revert H1. generalize (exec cancelHideTimer w). clear w H.
  intros w H. js_fwd.
  destruct (scrollingTimer (state w)) as [[|h]|] eqn:E; js_fwd;
    try (apply (Handles_ext w); [reflexivity .. | exact H]).
  pose proof (Handles_drop_scroll (S h) w H E) as H1.
  revert H1. apply Handles_ext; reflexivity.
Qed.

(** [throttle(func, limit)], in one equation: a call inside the window is
    dropped; otherwise [func] runs and, unless it throws, the window opens
    and its end is scheduled [limit] ms ahead. *)
Lemma throttle_exec (th : ThrottleId) (func : M unit) (w : World) :
  exec (throttle th func) w =
  if inThrottle (throttle_of th w) then w
  else if completes func w then
    let w1 := exec func w in
    let w2 := set_throttle th (mkThrottle true (limit (throttle_of th w1))) w1 in
    set_nextTimerId (S (nextTimerId w2))
      (set_timers
         (timers w2 ++
          [mkTimer (nextTimerId w2)
             (now w2 + Z.max 0 (limit (throttle_of th w)))
             (CbThrottleReset th)])
         w2)
  else exec func w.
Proof.
  unfold throttle. js_fwd.
  destruct (inThrottle (throttle_of th w)); js_fwd; [reflexivity|].
  unfold completes, exec, bind.
  destruct (func w) as [[[]|e] w1]; reflexivity.
Qed.

Lemma throttle_Handles (th : ThrottleId) (m : M unit) :
  preserves Handles m -> preserves Handles (throttle th m).
Proof.
  intros Hm w H. rewrite throttle_exec.
  destruct (inThrottle (throttle_of th w)); [exact H|].
  specialize (Hm w H).
  destruct (completes m w); [|exact Hm].
  revert Hm. generalize (exec m w). generalize (limit (throttle_of th w)).
  clear w H. intros d w [H Ht]. cbv zeta. split.
  - assert (H' : HandlesInv
                   (set_throttle th
                      (mkThrottle true (limit (throttle_of th w))) w))
      by (apply (HandlesInv_ext w); [destruct th; reflexivity .. | exact H]).
    apply HandlesInv_add_timer; [reflexivity | reflexivity | exact H'].
  - intros th' Hth'. destruct th, th'; js_fields_in Hth'; js_fields.
    all: try (eexists; split; [apply in_or_app; right; left; reflexivity
                              | reflexivity]).
    all: first [ destruct (Ht ThScroll Hth') as (x & Hi & Hc)
               | destruct (Ht ThResize Hth') as (x & Hi & Hc) ];
      exists x; (split; [apply in_or_app; left; exact Hi | exact Hc]).
Qed.

Ltac side_Handles :=
  idtac;
  let w := fresh "w" in
  let H := fresh "H" in
  intros w H;
  first
    [ exact H
    | apply Handles_unthrottle; exact H
    | apply (Handles_unthrottle ThScroll); exact H
    | apply Handles_add_timer; [reflexivity | reflexivity | exact H]
    | repeat match goal with
             | |- context [if listening ?l ?x then _ else _] =>
                 destruct (listening l x)
             | |- context [match ?x with _ => _ end] => is_var x; destruct x
             end;
      first [ exact H | apply (Handles_ext w); [reflexivity .. | exact H] ] ].

Ltac side_Handles_at H :=
  match type of H with
  | Handles ?w => apply (Handles_ext w); [reflexivity .. | exact H]
  end.

Ltac leaf_Handles :=
  idtac;
  match goal with
  | |- preserves _ cancelHideTimer => apply cancelHideTimer_Handles
  | |- preserves _ hideToggleWithDelay => apply hideToggleWithDelay_Handles
  | |- preserves _ handleScrollEnd => apply handleScrollEnd_Handles
  | |- preserves _ cleanup => apply cleanup_Handles
  | |- preserves _ (throttle _ _) => apply throttle_Handles
  | |- preserves _ handleResize => unfold handleResize; apply throttle_Handles
  end.

Ltac auto_Handles := js_rules leaf_Handles side_Handles.

Lemma run_timer_Handles (cb : TimerCallback) :
  preserves Handles (run_timer cb).
Proof. auto_Handles. Qed.

(** A timer that fires is forgotten; if it ends a throttle window, its
    callback clears the flag. *)
Lemma fire_timer_Handles (h : nat) (w : World) :
  Handles w -> Handles (fire_timer h w).
Proof.
  intros H. unfold fire_timer.
  destruct (find_timer h (timers w)) as [t|] eqn:Ef; [|exact H].
  destruct (due t <=? now w); [|exact H].
  apply find_timer_Some in Ef as [Hi Hh].
  destruct H as [H Ht].
  assert (Hd : HandlesInv (set_timers (drop_timer h (timers w)) w))
    by apply HandlesInv_drop_timer, H.
  assert (Hother : forall th, callback t <> CbThrottleReset th ->
            inThrottle (throttle_of th w) = true ->
            reset_pending th (set_timers (drop_timer h (timers w)) w)).
  { intros th Hne Hth. destruct (Ht th Hth) as (x & Hx & Hc).
    exists x. split; [|exact Hc]. cbn. apply In_drop_timer.
    split; [exact Hx|]. intros E.
    assert (x = t)
      by (apply (NoDup_map_eq tid (timers w)); try assumption;
          [apply (hi_nodup w H) | congruence]).
    subst x. congruence. }
  destruct (callback t) as [|tg|tg| |th] eqn:Ec.
  1-4: apply run_timer_Handles; split; [exact Hd|];
    intros th Hth; apply Hother; [discriminate | destruct th; exact Hth].
  cbn [run_timer]. unfold set_inThrottle. rewrite exec_modify. split.
  - apply (HandlesInv_ext (set_timers (drop_timer h (timers w)) w));
      [destruct th; reflexivity .. | exact Hd].
  - intros th' Hth'.
    assert (Hne : th' <> th).
    { intros ->. destruct th; cbn in Hth'; discriminate. }
    destruct (Hother th') as (x & Hx & Hc).
    + congruence.
    + destruct th, th'; try congruence; exact Hth'.
    + exists x. split; [|exact Hc]. destruct th; exact Hx.
Qed.

Lemma Handles_step (e : Event) (w : World) :
  Handles w -> Handles (step e w).
Proof.
  intros H. destruct e; cbn [step];
    try (step_keeps H auto_Handles side_Handles_at).
  - destruct (readyStateLoading (env w));
      step_keeps H auto_Handles side_Handles_at.
  - assert (H' : Handles
                   (dispatch LKeydown (handleKeydown key shiftKey)
                      (set_defaultPrevented false w)))
      by step_keeps H auto_Handles side_Handles_at.
    destruct (key =? "Tab")%string; [|exact H'].
    unfold default_tab.
    destruct (defaultPrevented _); [exact H' | side_Handles_at H'].
  - apply fire_timer_Handles, H.
Qed.

Lemma loaded_Handles d nodes e width height y :
  Handles (loaded d nodes e width height y).
Proof.
  unfold loaded, navbar_js, page. js_fwd.
  match goal with
  | |- Handles (exec _ ?w1) =>
      assert (Q : Handles w1)
  end.
  { split.
    - constructor; cbn; try (intros ? ?; discriminate); try (intros ? []);
        try lia.
      constructor.
    - intros th Hth. destruct th; discriminate. }
  destruct (readyStateLoading e).
  - revert Q. assert (Hp : preserves Handles (addEventListener LDOMContentLoaded))
      by auto_Handles.
    apply Hp.
  - revert Q. assert (Hp : preserves Handles init) by auto_Handles.
    apply Hp.
Qed.

Lemma reachable_Handles (w : World) : reachable w -> Handles w.
Proof.
  induction 1 as [d nodes e width height y | e w _ IH].
  - apply loaded_Handles.
  - apply Handles_step, IH.
Qed.

Lemma filter_length_le_1 {A} (p : A -> bool) (l : list A) :
  NoDup l ->
  (forall a b, In a l -> In b l -> p a = true -> p b = true -> a = b) ->
  (List.length (filter p l) <= 1)%nat.
Proof.
  induction l as [|a l IH]; simpl; intros Hn Hu; [lia|].
  inversion Hn as [|? ? Hna Hnl]; subst.
  destruct (p a) eqn:Ea.
  - destruct (filter p l) as [|b r] eqn:Ef; simpl; [lia|]. exfalso.
    assert (Hb : In b (filter p l)) by (rewrite Ef; now left).
    apply filter_In in Hb as [Hb Hpb].
    assert (a = b) by (apply Hu; auto).
    subst b. contradiction.
  - apply IH; [exact Hnl|]. intros x y Hx Hy. apply Hu; now right.
Qed.

Lemma is_scroll_end_eq (cb : TimerCallback) :
  is_scroll_end cb = true <-> cb = CbScrollEnd.
Proof. destruct cb; cbn; split; congruence. Qed.

(** X1: in every reachable world at most one hide timer and at most one
    scroll-end timer are pending, and each of them is the timer whose
    handle is stored in [state.hideTimer] and [state.scrollingTimer]:
    [hideToggleWithDelay] and [handleScrollEnd] cancel the previous timer
    before they start a new one. *)
Theorem at_most_one_hide_and_scroll_end (w : World) :
  reachable w ->
  (List.length (filter (fun t => is_hide (callback t)) (timers w)) <= 1)%nat /\
  (List.length (filter (fun t => is_scroll_end (callback t)) (timers w))
   <= 1)%nat /\
  (forall t, In t (timers w) -> is_hide (callback t) = true ->
     hideTimer (state w) = Some (tid t)) /\
  (forall t, In t (timers w) -> is_scroll_end (callback t) = true ->
     scrollingTimer (state w) = Some (tid t)).
Proof.
  intros Hr. destruct (reachable_Handles w Hr) as [H _].
  pose proof (hi_nodup w H) as Hn.
  assert (Hl : NoDup (timers w)) by (apply NoDup_map_inv in Hn; exact Hn).
  split; [|split; [|split]].
  - apply filter_length_le_1; [exact Hl|].
    intros a b Ha Hb Pa Pb. apply (NoDup_map_eq tid (timers w)); auto.
    pose proof (hi_hide_tracked w H a Ha Pa).
    pose proof (hi_hide_tracked w H b Hb Pb). congruence.
  - apply filter_length_le_1; [exact Hl|].
    intros a b Ha Hb Pa Pb. apply (NoDup_map_eq tid (timers w)); auto.
    apply is_scroll_end_eq in Pa, Pb.
    pose proof (hi_scroll_tracked w H a Ha Pa).
    pose proof (hi_scroll_tracked w H b Hb Pb). congruence.
  - apply (hi_hide_tracked w H).
  - intros t Hi Hs. apply is_scroll_end_eq in Hs.
    now apply (hi_scroll_tracked w H).
Qed.

(** X1 at work: two scroll evaluations on the sample page, the second one
    replacing the timers of the first. *)
Lemma at_most_one_hide_and_scroll_end_witness :
  reachable
    (run [EvScroll 120; EvAnimationFrame; EvTick 16; EvTimer 1%nat;
          EvScroll 300; EvAnimationFrame] sample_world) /\
  (List.length
     (filter (fun t => is_hide (callback t))
        (timers
           (run [EvScroll 120; EvAnimationFrame; EvTick 16; EvTimer 1%nat;
                 EvScroll 300; EvAnimationFrame] sample_world))) <= 1)%nat.
Proof.
  assert (Hr : reachable
                 (run [EvScroll 120; EvAnimationFrame; EvTick 16;
                       EvTimer 1%nat; EvScroll 300; EvAnimationFrame]
                    sample_world))
    by (apply reachable_run, reach_loaded).
  split; [exact Hr|].
  exact (proj1 (at_most_one_hide_and_scroll_end _ Hr)).
Defined.

Lemma find_timer_In (l : list Timer) (t : Timer) :
  NoDup (map tid l) -> In t l -> find_timer (tid t) l = Some t.
Proof.
  intros Hn Hi. unfold find_timer.
  destruct (find (fun x => Nat.eqb (tid x) (tid t)) l) as [x|] eqn:Ef.
  - apply find_some in Ef as [Hx He]. apply Nat.eqb_eq in He.
    f_equal. now apply (NoDup_map_eq tid l).
  - exfalso. pose proof (find_none _ _ Ef t Hi) as Hf. cbn in Hf.
    rewrite Nat.eqb_refl in Hf. discriminate.
Qed.

(** X2: a throttled listener cannot stay blocked.  In every reachable
    world, while the [inThrottle] flag of a closure made by [throttle] is
    set, the timer that clears it is pending; once enough time has passed
    for it to come due, its firing clears the flag. *)
Theorem throttle_window_ends (w : World) (th : ThrottleId) :
  reachable w ->
  inThrottle (throttle_of th w) = true ->
  exists t,
    In t (timers w) /\ callback t = CbThrottleReset th /\
    forall dt, due t - now w <= dt ->
      inThrottle (throttle_of th (run [EvTick dt; EvTimer (tid t)] w)) = false.
Proof.
  intros Hr Hth. destruct (reachable_Handles w Hr) as [H Ht].
  destruct (Ht th Hth) as (t & Hi & Hc).
  exists t. split; [exact Hi | split; [exact Hc|]].
  intros dt Hdt. cbn [run fold_left step]. unfold fire_timer. js_fields.
  rewrite (find_timer_In (timers w) t (hi_nodup w H) Hi).
  destruct (Z.leb_spec (due t) (now w + Z.max 0 dt)); [|lia].
  rewrite Hc. cbn [run_timer]. unfold set_inThrottle. rewrite exec_modify.
  destruct th; reflexivity.
Qed.

(** X2 at work: after the first scroll event of the sample page the scroll
    listener is inside its window. *)
Lemma throttle_window_ends_witness :
  reachable sample_scrolled /\
  inThrottle (throttle_of ThScroll sample_scrolled) = true /\
  exists t,
    In t (timers sample_scrolled) /\ callback t = CbThrottleReset ThScroll /\
    forall dt, due t - now sample_scrolled <= dt ->
      inThrottle
        (throttle_of ThScroll
           (run [EvTick dt; EvTimer (tid t)] sample_scrolled)) = false.
Proof.
  assert (Hr : reachable sample_scrolled)
    by (apply reach_step, reach_loaded).
  assert (Hth : inThrottle (throttle_of ThScroll sample_scrolled) = true)
    by (vm_compute; reflexivity).
  split; [exact Hr | split; [exact Hth|]].
  exact (throttle_window_ends sample_scrolled ThScroll Hr Hth).
Defined.

(* ================================================================== *)
(** ** Teardown (cleanup) *)
(* ================================================================== *)

Lemma cleanup_exec (w : World) :
  exec cleanup w =
  let w1 := exec cancelHideTimer w in
  let w2 :=
    match scrollingTimer (state w1) with
    | Some (S h) => set_timers (drop_timer (S h) (timers w1)) w1
    | _ => w1
    end in
  set_listeners
    (remove Listener_eq_dec LKeydown
       (remove Listener_eq_dec LResize
          (remove Listener_eq_dec LOnScroll (listeners w2)))) w2.
Proof.
  unfold cleanup.
  rewrite exec_bind_call by apply cancelHideTimer_completes.
  generalize (exec cancelHideTimer w). clear w. intros w. js_fwd.
  destruct (scrollingTimer (state w)) as [[|h]|]; js_fwd; reflexivity.
Qed.

Lemma listening_set_listeners (l : Listener) (ls : list Listener) (w : World) :
  listening l (set_listeners ls w)
  = if in_dec Listener_eq_dec l ls then true else false.
Proof. reflexivity. Qed.

Lemma listening_remove (l x : Listener) (ls : list Listener) (w : World) :
  listening l (set_listeners (remove Listener_eq_dec x ls) w)
  = if Listener_eq_dec l x then false
    else listening l (set_listeners ls w).
Proof.
  rewrite !listening_set_listeners.
  destruct (Listener_eq_dec l x) as [->|Hne].
  - destruct (in_dec _ _ _) as [Hi|]; [|reflexivity].
    exfalso. now apply remove_In in Hi.
  - destruct (in_dec Listener_eq_dec l (remove Listener_eq_dec x ls))
      as [Hi|Hn], (in_dec Listener_eq_dec l ls) as [Hj|Hm]; try reflexivity.
    + apply in_remove in Hi as [Hi _]. contradiction.
    + exfalso. apply Hn. now apply in_in_remove.
Qed.

(** X3: what [cleanup] takes down in a reachable world.  Exactly the
    pending hide and scroll-end timers are cancelled (a deferred show, the
    deferred focus and the throttle resets stay pending); the resize and
    keydown listeners are removed; every other listener stays registered,
    the throttled scroll listener among them, because [cleanup] asks to
    remove [onScroll] while [init] registered [throttle(onScroll, ...)];
    the DOM and [state.isScrolling] are left as they are. *)
Theorem cleanup_effect (w : World) :
  reachable w ->
  let w' := exec cleanup w in
  (forall t, In t (timers w') <->
     In t (timers w) /\ is_hide (callback t) = false /\
     is_scroll_end (callback t) = false) /\
  listening LResize w' = false /\
  listening LKeydown w' = false /\
  listening LScrollThrottled w' = listening LScrollThrottled w /\
  (forall l, l <> LResize -> l <> LKeydown -> l <> LOnScroll ->
     listening l w' = listening l w) /\
  dom w' = dom w /\
  isScrolling (state w') = isScrolling (state w).
Proof.
  intros Hr w'. subst w'. rewrite cleanup_exec. cbv zeta.
  pose proof (reachable_Handles w Hr) as Hw.
  pose proof (cancelHideTimer_Handles w Hw) as [H1 _].
  pose proof (cancelHideTimer_clears w (proj1 Hw)) as Hno.
  assert (Hsub : forall t, In t (timers (exec cancelHideTimer w)) <->
                   In t (timers w) /\ is_hide (callback t) = false).
  { intros t. split.
    - intros Hi. split; [|exact (Hno t Hi)].
      rewrite cancelHideTimer_exec in Hi.
      destruct (hideTimer (state w)) as [[|h]|]; try exact Hi.
      cbn in Hi. now apply In_drop_timer in Hi.
    - intros [Hi Hh]. rewrite cancelHideTimer_exec.
      destruct (hideTimer (state w)) as [[|h]|] eqn:E; try exact Hi.
      cbn. apply In_drop_timer. split; [exact Hi|]. intros Et.
      destruct (hi_hide w (proj1 Hw) (S h) E) as [_ Hk].
      rewrite (Hk t Hi Et) in Hh. discriminate. }
  assert (Hfr : listeners (exec cancelHideTimer w) = listeners w /\
                dom (exec cancelHideTimer w) = dom w /\
                isScrolling (state (exec cancelHideTimer w))
                = isScrolling (state w)).
  { rewrite cancelHideTimer_exec.
    destruct (hideTimer (state w)) as [[|h]|]; repeat split. }
  destruct Hfr as (El & Ed & Es).
  revert H1 Hsub El Ed Es. generalize (exec cancelHideTimer w).
  intros w1 H1 Hsub El Ed Es.
  set (w2 := match scrollingTimer (state w1) with
             | Some (S h) => set_timers (drop_timer (S h) (timers w1)) w1
             | _ => w1
             end).
  assert (E2 : listeners w2 = listeners w /\ dom w2 = dom w /\
               isScrolling (state w2) = isScrolling (state w)).
  { subst w2. destruct (scrollingTimer (state w1)) as [[|h]|];
      repeat split; assumption. }
  destruct E2 as (El2 & Ed2 & Es2).
  split; [|split; [|split; [|split; [|split; [|split]]]]].
  - intros t. js_fields. rewrite <- and_assoc, <- Hsub. subst w2.
    destruct (scrollingTimer (state w1)) as [[|h]|] eqn:E.
    + split; [|tauto]. intros Hi. split; [exact Hi|].
      destruct (is_scroll_end (callback t)) eqn:Hs; [exfalso | reflexivity].
      apply is_scroll_end_eq in Hs.
      pose proof (hi_scroll_tracked w1 H1 t Hi Hs) as Hn.
      pose proof (hi_fresh w1 H1 t Hi). rewrite E in Hn. inversion Hn. lia.
    + cbn. rewrite In_drop_timer. split.
      * intros [Hi Hne]. split; [exact Hi|].
        destruct (is_scroll_end (callback t)) eqn:Hs; [exfalso | reflexivity].
        apply is_scroll_end_eq in Hs.
        pose proof (hi_scroll_tracked w1 H1 t Hi Hs). congruence.
      * intros [Hi Hs]. split; [exact Hi|]. intros Et.
        destruct (hi_scroll w1 H1 (S h) E) as [_ Hk].
        rewrite (Hk t Hi Et) in Hs. discriminate.
    + split; [|tauto]. intros Hi. split; [exact Hi|].
      destruct (is_scroll_end (callback t)) eqn:Hs; [exfalso | reflexivity].
      apply is_scroll_end_eq in Hs.
      pose proof (hi_scroll_tracked w1 H1 t Hi Hs). congruence.
  - rewrite !listening_remove. reflexivity.
  - rewrite !listening_remove. reflexivity.
  - rewrite !listening_remove. cbn. rewrite El2. reflexivity.
  - intros l Hr' Hk Ho. rewrite !listening_remove.
    destruct (Listener_eq_dec l LKeydown); [contradiction|].
    destruct (Listener_eq_dec l LResize); [contradiction|].
    destruct (Listener_eq_dec l LOnScroll); [contradiction|].
    rewrite listening_set_listeners. unfold listening. now rewrite El2.
  - exact Ed2.
  - exact Es2.
Qed.

(** X3 at work on the sample page with a hide pending. *)
Lemma cleanup_effect_witness :
  reachable sample_hide_pending /\
  listening LScrollThrottled (exec cleanup sample_hide_pending)
  = listening LScrollThrottled sample_hide_pending.
Proof.
  assert (Hr : reachable sample_hide_pending)
    by (apply reachable_run, reach_loaded).
  split; [exact Hr|].
  exact (proj1 (proj2 (proj2 (proj2 (cleanup_effect _ Hr))))).
Defined.

(* ================================================================== *)
(** ** Bursts of throttled events (throttle, handleResize, the scroll
       listener of init) *)
(* ================================================================== *)

Lemma throttle_InWindow (th' th : ThrottleId) (m : M unit) :
  preserves (InWindow th') m -> preserves (InWindow th') (throttle th m).
Proof.
  intros Hm w H. rewrite throttle_exec.
  destruct (inThrottle (throttle_of th w)); [exact H|].
  specialize (Hm w H). destruct (completes m w); [|exact Hm].
  revert Hm. generalize (exec m w). generalize (limit (throttle_of th w)).
  unfold InWindow. intros d w1 H1. destruct th, th'; exact H1 || reflexivity.
Qed.

Ltac side_InWindow :=
  idtac;
  let w := fresh "w" in
  let H := fresh "H" in
  intros w H; unfold InWindow in *;
  repeat match goal with
         | |- context [if listening ?l ?x then _ else _] =>
             destruct (listening l x)
         end;
  match goal with
  | |- inThrottle (throttle_of ?th _) = true => destruct th; exact H
  end.

Ltac side_InWindow_at H :=
  unfold InWindow in *;
  match goal with
  | |- inThrottle (throttle_of ?th _) = true => destruct th; exact H
  end.

Ltac leaf_InWindow :=
  idtac;
  match goal with
  | |- preserves _ (throttle _ _) => apply throttle_InWindow
  | |- preserves _ handleResize => unfold handleResize; apply throttle_InWindow
  end.

Ltac auto_InWindow := js_rules leaf_InWindow side_InWindow.

Lemma InWindow_step (th : ThrottleId) (e : Event) (w : World) :
  between_events e = true -> InWindow th w -> InWindow th (step e w).
Proof.
  intros He H. destruct e; try discriminate; cbn [step];
    try (step_keeps H auto_InWindow side_InWindow_at).
  assert (H' : InWindow th
                 (dispatch LKeydown (handleKeydown key shiftKey)
                    (set_defaultPrevented false w)))
    by step_keeps H auto_InWindow side_InWindow_at.
  destruct (key =? "Tab")%string; [|exact H'].
  unfold default_tab.
  destruct (defaultPrevented _); [exact H' | side_InWindow_at H'].
Qed.

Lemma InWindow_run (th : ThrottleId) (es : list Event) (w : World) :
  forallb between_events es = true -> InWindow th w -> InWindow th (run es w).
Proof.
  revert w. induction es as [|e es IH]; intros w Hes H; simpl; [exact H|].
  simpl in Hes. apply andb_prop in Hes as [He Hes].
  apply IH; [exact Hes|]. now apply InWindow_step.
Qed.

Lemma resize_body_nothrow : nothrow anywhere resize_body.
Proof. js_rules fail ltac:(intros; exact I). Qed.

Lemma onScroll_completes (w : World) : completes onScroll w = true.
Proof.
  unfold onScroll. js_fwd. destruct (ticking (state w)); reflexivity.
Qed.

(** X4: a throttled listener handles at most the first event of a burst.
    After a resize event on a page whose resize listener is registered,
    and whatever happens next short of a timer firing, a further resize
    event changes the window size and nothing else: [handleResize] is not
    run, so an open menu stays open even when that event crosses to desktop
    width.  In the same way a further scroll event only moves the page and
    queues no evaluation. *)
Theorem throttled_burst (w : World) (es : list Event) :
  forallb between_events es = true ->
  (listening LResize w = true ->
   forall a b c d,
     let w1 := run es (step (EvResize a b) w) in
     step (EvResize c d) w1 = set_innerHeight d (set_innerWidth c w1)) /\
  (listening LScrollThrottled w = true ->
   forall y y',
     let w1 := run es (step (EvScroll y) w) in
     step (EvScroll y') w1 = set_scrollY y' w1).
Proof.
  intros Hes. split.
  - intros Hl a b c d w1.
    assert (H0 : InWindow ThResize (step (EvResize a b) w)).
    { cbn [step]. unfold dispatch.
      replace (listening LResize (set_innerHeight b (set_innerWidth a w)))
        with true by (symmetry; exact Hl).
      unfold handleResize. rewrite throttle_exec.
      destruct (inThrottle _) eqn:E; [exact E|].
      rewrite (resize_body_nothrow _ I). reflexivity. }
    pose proof (InWindow_run ThResize es _ Hes H0) as H1. fold w1 in H1.
    cbn [step]. unfold dispatch.
    destruct (listening LResize (set_innerHeight d (set_innerWidth c w1)));
      [|reflexivity].
    unfold handleResize. rewrite throttle_exec.
    unfold InWindow in H1. cbn in H1 |- *. now rewrite H1.
  - intros Hl y y' w1.
    assert (H0 : InWindow ThScroll (step (EvScroll y) w)).
    { cbn [step]. unfold dispatch.
      replace (listening LScrollThrottled (set_scrollY y w))
        with true by (symmetry; exact Hl).
      rewrite throttle_exec.
      destruct (inThrottle _) eqn:E; [exact E|].
      rewrite onScroll_completes. reflexivity. }
    pose proof (InWindow_run ThScroll es _ Hes H0) as H1. fold w1 in H1.
    cbn [step]. unfold dispatch.
    destruct (listening LScrollThrottled (set_scrollY y' w1)); [|reflexivity].
    rewrite throttle_exec.
    unfold InWindow in H1. cbn in H1 |- *. now rewrite H1.
Qed.

(** X4 at work: the menu is open on the sample page, the window is
    resized to 900 px and, 100 ms later, to 1200 px. *)
Lemma throttled_burst_witness :
  forallb between_events [EvTick 100] = true /\
  listening LResize sample_open = true /\
  step (EvResize 1200 800)
    (run [EvTick 100] (step (EvResize 900 600) sample_open))
  = set_innerHeight 800
      (set_innerWidth 1200
         (run [EvTick 100] (step (EvResize 900 600) sample_open))).
Proof.
  assert (Hes : forallb between_events [EvTick 100] = true) by reflexivity.
  assert (Hl : listening LResize sample_open = true)
    by (vm_compute; reflexivity).
  split; [exact Hes | split; [exact Hl|]].
  exact (proj1 (throttled_burst sample_open [EvTick 100] Hes) Hl
           900 600 1200 800).
Defined.

(* ================================================================== *)
(** ** The intervals of the throttled listeners (throttle, init) *)
(* ================================================================== *)

Ltac side_Ready :=
  idtac;
  let w := fresh "w" in
  let H := fresh "H" in
  intros w H; unfold Ready, set_throttle in *;
  repeat match goal with
         | |- context [if listening ?l ?x then _ else _] =>
             destruct (listening l x)
         | |- context [match ?x with _ => _ end] => is_var x; destruct x
         end;
  exact H.

Ltac side_Ready_at H := unfold Ready in *; exact H.

Ltac auto_Ready := js_rules fail side_Ready.

Lemma Ready_step (e : Event) (w : World) : Ready w -> Ready (step e w).
Proof.
  intros H. destruct e; cbn [step];
    try (step_keeps H auto_Ready side_Ready_at).
  - unfold Ready in H. rewrite H. exact H.
  - assert (H' : Ready
                   (dispatch LKeydown (handleKeydown key shiftKey)
                      (set_defaultPrevented false w)))
      by step_keeps H auto_Ready side_Ready_at.
    destruct (key =? "Tab")%string; [|exact H'].
    unfold default_tab.
    destruct (defaultPrevented _); side_Ready_at H'.
Qed.

Lemma step_Ready_loaded (w : World) :
  Ready w -> step EvDOMContentLoaded w = w.
Proof. unfold Ready. intros H. cbn [step]. now rewrite H. Qed.

Lemma throttle_LimitIs (th' th : ThrottleId) (d : Z) (m : M unit) :
  preserves (LimitIs th' d) m -> preserves (LimitIs th' d) (throttle th m).
Proof.
  intros Hm w H. rewrite throttle_exec.
  destruct (inThrottle (throttle_of th w)); [exact H|].
  specialize (Hm w H). destruct (completes m w); [|exact Hm].
  revert Hm. generalize (exec m w). generalize (limit (throttle_of th w)).
  unfold LimitIs. intros d' w1 H1. destruct th, th'; exact H1.
Qed.

Ltac side_LimitIs :=
  idtac;
  let w := fresh "w" in
  let H := fresh "H" in
  intros w H; unfold LimitIs in *;
  repeat match goal with
         | |- context [if listening ?l ?x then _ else _] =>
             destruct (listening l x)
         end;
  match goal with
  | |- limit (throttle_of ?th _) = _ =>
      destruct th; unfold set_throttle;
      repeat match goal with
             | |- context [match ?x with _ => _ end] => is_var x; destruct x
             end;
      exact H
  end.

Ltac side_LimitIs_at H :=
  unfold LimitIs in *;
  match goal with
  | |- limit (throttle_of ?th _) = _ => destruct th; exact H
  end.

Ltac leaf_LimitIs :=
  idtac;
  match goal with
  | |- preserves _ (throttle _ _) => apply throttle_LimitIs
  | |- preserves _ handleResize => unfold handleResize; apply throttle_LimitIs
  end.

Ltac auto_LimitIs := js_rules leaf_LimitIs side_LimitIs.

Lemma LimitIs_step (th : ThrottleId) (d : Z) (e : Event) (w : World) :
  e <> EvDOMContentLoaded -> LimitIs th d w -> LimitIs th d (step e w).
Proof.
  intros He H. destruct e; try congruence; cbn [step];
    try (step_keeps H auto_LimitIs side_LimitIs_at).
  assert (H' : LimitIs th d
                 (dispatch LKeydown (handleKeydown key shiftKey)
                    (set_defaultPrevented false w)))
    by step_keeps H auto_LimitIs side_LimitIs_at.
  destruct (key =? "Tab")%string; [|exact H'].
  unfold default_tab.
  destruct (defaultPrevented _); [exact H' | side_LimitIs_at H'].
Qed.

Lemma LimitIs_run (th : ThrottleId) (d : Z) (es : list Event) (w : World) :
  Ready w -> LimitIs th d w -> LimitIs th d (run es w).
Proof.
  revert w. induction es as [|e es IH]; intros w Hr H; simpl; [exact H|].
  apply IH; [apply Ready_step, Hr|].
  destruct e; try (apply LimitIs_step; [discriminate | exact H]).
  now rewrite step_Ready_loaded.
Qed.

(* ================================================================== *)
(** ** Initialisation (init) *)
(* ================================================================== *)

Lemma exec_addEventListener (l : Listener) (w : World) :
  exec (addEventListener l) w
  = set_listeners (add_listener l (listeners w)) w.
Proof.
  unfold addEventListener, add_listener, listening. rewrite exec_modify.
  destruct (in_dec Listener_eq_dec l (listeners w)); [|reflexivity].
  destruct w; reflexivity.
Qed.

Lemma exec_bind_addEventListener {B} (l : Listener) (k : unit -> M B)
  (w : World) :
  exec (bind (addEventListener l) k) w
  = exec (k tt) (set_listeners (add_listener l (listeners w)) w).
Proof.
  rewrite <- exec_addEventListener. apply exec_bind_call. reflexivity.
Qed.

Lemma completes_bind_addEventListener {B} (l : Listener) (k : unit -> M B)
  (w : World) :
  completes (bind (addEventListener l) k) w
  = completes (k tt) (set_listeners (add_listener l (listeners w)) w).
Proof.
  rewrite <- exec_addEventListener. apply completes_bind_call. reflexivity.
Qed.

Ltac js_step :=
  first
    [ rewrite exec_bind_assoc
    | rewrite exec_bind_addEventListener
    | rewrite exec_addEventListener
    | rewrite completes_bind_assoc
    | rewrite completes_bind_addEventListener
    | rewrite exec_bind_gets
    | rewrite exec_bind_modify
    | rewrite exec_bind_ret
    | rewrite exec_bind_setTimeout
    | rewrite exec_gets
    | rewrite exec_modify
    | rewrite exec_ret
    | rewrite completes_bind_gets
    | rewrite completes_bind_modify
    | rewrite completes_bind_ret
    | rewrite completes_bind_setTimeout
    | rewrite completes_modify
    | rewrite completes_ret ];
  cbv beta; js_fields.

(** Forward execution that simplifies the world after every statement. *)
Ltac js_fwd_l :=
  repeat first
    [ js_step
    | progress unfold get_state, get_config, set_field, member,
        optional_chain, on_node, classList_add, classList_remove,
        classList_toggle, setAttribute, set_innerHTML, focus, scrollTo,
        preventDefault, clearTimeout, isDesktop, index, spread, console_warn,
        console_log, requestAnimationFrame, removeEventListener,
        set_inThrottle, cacheElements, detectTouch, detectReducedMotion
    | progress js_fields
    | progress cbv beta iota ].

Lemma In_add_listener (l x : Listener) (ls : list Listener) :
  In l (add_listener x ls) <-> l = x \/ In l ls.
Proof.
  unfold add_listener. destruct (in_dec Listener_eq_dec x ls) as [Hi|Hn].
  - split; [now right | intros [->|H]; assumption].
  - rewrite in_app_iff. cbn. intuition congruence.
Qed.

Lemma listening_iff (l : Listener) (w : World) :
  listening l w = true <-> In l (listeners w).
Proof.
  unfold listening. destruct (in_dec Listener_eq_dec l (listeners w));
    split; auto; discriminate.
Qed.

Lemma listening_listed (l : Listener) (w : World) :
  listening l w = listed l (listeners w).
Proof. reflexivity. Qed.

Lemma listed_iff (l : Listener) (ls : list Listener) :
  listed l ls = true <-> In l ls.
Proof.
  unfold listed. destruct (in_dec Listener_eq_dec l ls);
    split; auto; discriminate.
Qed.

Lemma listed_add (l x : Listener) (ls : list Listener) :
  listed l (add_listener x ls)
  = if Listener_eq_dec l x then true else listed l ls.
Proof.
  destruct (Listener_eq_dec l x) as [->|Hne].
  - apply listed_iff, In_add_listener. now left.
  - destruct (listed l ls) eqn:E.
    + apply listed_iff, In_add_listener. right. now apply listed_iff.
    + destruct (listed l (add_listener x ls)) eqn:E'; [|reflexivity].
      apply listed_iff, In_add_listener in E'.
      destruct E' as [->|Hi]; [contradiction|].
      apply listed_iff in Hi. congruence.
Qed.

(** Reading [listening] off a world built by [addEventListener]. *)
Ltac listening_read :=
  rewrite ?listening_listed; js_fields;
  repeat (rewrite listed_add;
          match goal with
          | |- context [Listener_eq_dec ?a ?b] =>
              destruct (Listener_eq_dec a b) as [?|?];
              [try discriminate | try congruence]
          end).

Lemma World_ext (a b : World) :
  CONFIG a = CONFIG b -> state a = state b -> elements a = elements b ->
  document a = document b -> dom a = dom b ->
  activeElement a = activeElement b -> scrollY a = scrollY b ->
  innerWidth a = innerWidth b -> innerHeight a = innerHeight b ->
  env a = env b -> timers a = timers b -> nextTimerId a = nextTimerId b ->
  now a = now b -> rafQueue a = rafQueue b -> listeners a = listeners b ->
  scrollThrottle a = scrollThrottle b ->
  resizeThrottle a = resizeThrottle b ->
  defaultPrevented a = defaultPrevented b -> console a = console b ->
  a = b.
Proof. destruct a, b; cbn; intros; subst; reflexivity. Qed.

Lemma init_nothrow : nothrow anywhere init.
Proof. js_rules fail ltac:(intros; exact I). Qed.

(** [init] on a page that has the toggle or the sidebar, in one
    equation. *)
Lemma init_exec (w : World) :
  let els := cache_of (document w) in
  truthy (toggle els) || truthy (sidebar els) = true ->
  exec init w =
  set_console
    (((console w ++ [Log "🧭 Navigation Config:"]) ++
      [Log "✅ Auto-hide navigation initialized"]) ++
     [Log "📱 Device info:"])
    (upd_state
       (fun s =>
          set_lastScrollY (scrollY w)
            (set_prefersReducedMotion (mediaReducedMotion (env w))
               (set_isTouch (hasTouch (env w)) s)))
       (set_listeners (init_listeners els (listeners w))
          (set_scrollThrottle (mkThrottle false (throttleDelay (CONFIG w)))
             (set_dom (init_dom els (1025 <=? innerWidth w) (dom w))
                (set_elements els w))))).
Proof.
  intros els. subst els. unfold cache_of, init, cacheElements.
  rewrite exec_bind_assoc, exec_bind_gets, exec_bind_modify, exec_bind_gets.
  js_fields.
  destruct (qToggle (document w)) as [t|], (qSidebar (document w)) as [s|],
    (qOverlay (document w)) as [o|]; intros Hex;
    try discriminate Hex; js_fwd_l;
    apply World_ext; unfold init_dom, init_listeners; js_fields;
    cbn [dom_opt opt_listener]; reflexivity.
Qed.

(** X5: what [init] does on a page that has the toggle or the sidebar.
    It completes; it caches the five lookups; on the toggle it sets
    [aria-expanded] to "false", [aria-controls], [aria-label] and the
    hamburger icon, and registers [toggleMenu]; on the sidebar it sets
    [aria-hidden] by the viewport class, [role] and [aria-label] (when
    both lookups give the same element, the sidebar's label wins); it
    registers the scroll, resize, orientation, keydown, visibility and
    reduced-motion listeners, and the overlay's two only when there is an
    overlay; it fixes the scroll throttle at the current
    [CONFIG.throttleDelay], samples the capabilities and the scroll
    offset; it leaves [menuOpen], the timers and every class list as they
    were. *)
Theorem init_effect (w : World) :
  let d := document w in
  truthy (qToggle d) || truthy (qSidebar d) = true ->
  let w' := exec init w in
  completes init w = true /\
  elements w'
  = mkElements (qToggle d) (qSidebar d) (qOverlay d) (qBody d)
      (Some (qNavItems d)) /\
  (forall t, qToggle d = Some t ->
     node_attr w' t "aria-expanded" = Some "false" /\
     node_attr w' t "aria-controls" = Some "sidebar" /\
     (qSidebar d <> Some t ->
      node_attr w' t "aria-label" = Some "Toggle navigation menu") /\
     innerHTML (dom w' t) = ToggleIcon "☰" /\
     listening LToggleClick w' = true) /\
  (forall s, qSidebar d = Some s ->
     node_attr w' s "aria-hidden"
     = Some (if 1025 <=? innerWidth w then "false" else "true") /\
     node_attr w' s "role" = Some "navigation" /\
     node_attr w' s "aria-label" = Some "Main navigation") /\
  (forall l,
     In l [LScrollThrottled; LResize; LOrientation; LKeydown; LVisibility;
           LReducedMotion] ->
     listening l w' = true) /\
  (truthy (qOverlay d) = true ->
     listening LOverlayClick w' = true /\
     listening LOverlayTouchmove w' = true) /\
  (qOverlay d = None ->
     listening LOverlayClick w' = listening LOverlayClick w /\
     listening LOverlayTouchmove w' = listening LOverlayTouchmove w) /\
  scrollThrottle w' = mkThrottle false (throttleDelay (CONFIG w)) /\
  lastScrollY (state w') = scrollY w /\
  prefersReducedMotion (state w') = mediaReducedMotion (env w) /\
  isTouch (state w') = hasTouch (env w) /\
  menuOpen (state w') = menuOpen (state w) /\
  timers w' = timers w /\
  (forall n c, node_has_class w' n c = node_has_class w n c).
Proof.
  intros d Hex w'. subst w' d.
  split; [apply init_nothrow; exact I|].
  rewrite (init_exec w Hex). unfold init_dom, init_listeners, cache_of.
  js_fields.
  repeat match goal with |- _ /\ _ => split end; try reflexivity.
  - intros t Et. rewrite Et.
    repeat match goal with |- _ /\ _ => split end.
    + now dom_read.
    + now dom_read.
    + intros Hne. dom_read.
      destruct (qSidebar (document w)) as [s|]; cbn [ref_is];
        [|reflexivity].
      destruct (Nat.eqb_spec t s) as [->|_]; [|reflexivity].
      exfalso. now apply Hne.
    + js_fields. cbn [dom_opt]. unfold update_node at 1.
      now rewrite Nat.eqb_refl.
    + listening_read. reflexivity.
  - intros s Es. rewrite Es.
    repeat match goal with |- _ /\ _ => split end; now dom_read.
  - intros l Hl. cbn in Hl.
    destruct (qToggle (document w)), (qOverlay (document w));
      cbn [opt_listener];
      repeat destruct Hl as [<-|Hl]; try contradiction;
      listening_read; reflexivity.
  - intros Ho. destruct (qOverlay (document w)); [|discriminate].
    destruct (qToggle (document w)); cbn [opt_listener];
      split; listening_read; reflexivity.
  - intros Ho. rewrite Ho.
    destruct (qToggle (document w)); cbn [opt_listener];
      split; listening_read; reflexivity.
  - intros n c. dom_read. reflexivity.
Qed.


(** X5 at work on the sample page before any script ran. *)
Lemma init_effect_witness :
  truthy (qToggle (document (page sample_document sample_nodes sample_env
                               800 600 0)))
  || truthy (qSidebar (document (page sample_document sample_nodes sample_env
                                   800 600 0))) = true /\
  completes init (page sample_document sample_nodes sample_env 800 600 0)
  = true.
Proof.
  assert (H : truthy (qToggle (document (page sample_document sample_nodes
                                           sample_env 800 600 0)))
              || truthy (qSidebar (document (page sample_document
                                               sample_nodes sample_env
                                               800 600 0))) = true)
    by reflexivity.
  split; [exact H|].
  exact (proj1 (init_effect
                  (page sample_document sample_nodes sample_env 800 600 0) H)).
Defined.

(* ================================================================== *)
(** ** The menu state as the DOM shows it (openMenu, closeMenu,
       handleResize, init) *)
(* ================================================================== *)

Lemma innerHTML_update_add n cs d m :
  innerHTML (update_node n (el_add_classes cs) d m) = innerHTML (d m).
Proof. unfold update_node. destruct (Nat.eqb m n); reflexivity. Qed.

Lemma innerHTML_update_remove n cs d m :
  innerHTML (update_node n (el_remove_classes cs) d m) = innerHTML (d m).
Proof. unfold update_node. destruct (Nat.eqb m n); reflexivity. Qed.

Lemma innerHTML_update_attr n k v d m :
  innerHTML (update_node n (el_set_attr k v) d m) = innerHTML (d m).
Proof. unfold update_node. destruct (Nat.eqb m n); reflexivity. Qed.

Lemma innerHTML_update_toggle n c d m :
  innerHTML (update_node n (el_toggle_class c) d m) = innerHTML (d m).
Proof. unfold update_node. destruct (Nat.eqb m n); reflexivity. Qed.

Lemma innerHTML_update_html n h d m :
  innerHTML (update_node n (el_set_html h) d m)
  = if Nat.eqb m n then h else innerHTML (d m).
Proof. unfold update_node. destruct (Nat.eqb m n); reflexivity. Qed.

Lemma innerHTML_opt_add r cs d m :
  innerHTML (dom_opt r (el_add_classes cs) d m) = innerHTML (d m).
Proof. destruct r; [apply innerHTML_update_add | reflexivity]. Qed.

Lemma innerHTML_opt_remove r cs d m :
  innerHTML (dom_opt r (el_remove_classes cs) d m) = innerHTML (d m).
Proof. destruct r; [apply innerHTML_update_remove | reflexivity]. Qed.

Lemma innerHTML_opt_attr r k v d m :
  innerHTML (dom_opt r (el_set_attr k v) d m) = innerHTML (d m).
Proof. destruct r; [apply innerHTML_update_attr | reflexivity]. Qed.

Lemma innerHTML_opt_html r h d m :
  innerHTML (dom_opt r (el_set_html h) d m)
  = if ref_is r m then h else innerHTML (d m).
Proof. destruct r; [apply innerHTML_update_html | reflexivity]. Qed.

#[global] Hint Rewrite
  innerHTML_update_add innerHTML_update_remove innerHTML_update_attr
  innerHTML_update_toggle innerHTML_update_html innerHTML_opt_add
  innerHTML_opt_remove innerHTML_opt_attr innerHTML_opt_html
  : dom_obs.










(** [handleResize] below desktop width, in one equation. *)
Lemma resize_body_mobile_exec (w : World) :
  innerWidth w < 1025 ->
  exec resize_body w =
  if menuOpen (state w) then w
  else
    set_dom
      (dom_opt (sidebar (elements w)) (el_set_attr "aria-hidden" "true")
         (dom_opt (sidebar (elements w))
            (el_remove_classes ["open"; "visible"]) (dom w)))
      w.
Proof.
  intros Hd. unfold resize_body. js_fwd.
  destruct (Z.leb_spec 1025 (innerWidth w)); [lia|].
  js_fwd. destruct (menuOpen (state w)); js_fwd; [reflexivity|].
  destruct (sidebar (elements w)); [reflexivity|].
  cbn [dom_opt]. now destruct w.
Qed.





Lemma loaded_ready d nodes e width height y :
  readyStateLoading e = false ->
  loaded d nodes e width height y
  = exec init (script_top (page d nodes e width height y)).
Proof.
  intros He. unfold loaded, navbar_js, script_top. js_fwd.
  unfold page at 1. js_fields. rewrite He. reflexivity.
Qed.

Lemma init_env (w : World) : env (exec init w) = env w.
Proof.
  assert (Hp : preserves (fun x => env x = env w) init).
  { js_rules fail
      ltac:(idtac; let x := fresh in let H := fresh in
            intros x H;
            repeat match goal with
                   | |- context [if listening ?l ?y then _ else _] =>
                       destruct (listening l y)
                   end;
            exact H). }
  apply Hp. reflexivity.
Qed.

Lemma loaded_Ready d nodes e width height y :
  readyStateLoading e = false -> Ready (loaded d nodes e width height y).
Proof.
  intros He. rewrite (loaded_ready _ _ _ _ _ _ He). unfold Ready.
  rewrite init_env. exact He.
Qed.

Lemma Ready_run (es : list Event) (w : World) : Ready w -> Ready (run es w).
Proof.
  revert w. induction es as [|e es IH]; intros w H; simpl; [exact H|].
  apply IH, Ready_step, H.
Qed.





(** X7: the intervals of the two throttled listeners never change.  On a
    page with a toggle or a sidebar where [init] runs when the script is
    evaluated, the scroll listener keeps the 16 ms that
    [CONFIG.throttleDelay] held at that moment and the resize listener its
    150 ms, after any sequence of events, assignments to
    [window.navbarConfig] included. *)
Theorem throttle_intervals_fixed (d : Document) (nodes : node -> Element)
  (e : Env) (width height y : Z) (es : list Event) :
  readyStateLoading e = false ->
  truthy (qToggle d) || truthy (qSidebar d) = true ->
  let w := run es (loaded d nodes e width height y) in
  limit (scrollThrottle w) = 16 /\ limit (resizeThrottle w) = 150.
Proof.
  intros He Hex w. subst w.
  pose proof (loaded_Ready d nodes e width height y He) as Hr.
  split.
  - apply (LimitIs_run ThScroll 16 es _ Hr).
    rewrite (loaded_ready _ _ _ _ _ _ He). unfold LimitIs.
    rewrite init_exec by exact Hex. reflexivity.
  - apply (LimitIs_run ThResize 150 es _ Hr).
    rewrite (loaded_ready _ _ _ _ _ _ He). unfold LimitIs.
    rewrite init_exec by exact Hex. reflexivity.
Qed.

(** X7 at work: the throttle delay is raised to 500 ms on the running
    sample page, and the page is scrolled. *)
Lemma throttle_intervals_fixed_witness :
  readyStateLoading sample_env = false /\
  truthy (qToggle sample_document) || truthy (qSidebar sample_document)
  = true /\
  limit
    (scrollThrottle
       (run [EvSetConfig (mkConfig 100 10 50 150 0 500 150 300);
             EvScroll 120]
          (loaded sample_document sample_nodes sample_env 800 600 0))) = 16.
Proof.
  assert (He : readyStateLoading sample_env = false) by reflexivity.
  assert (Hex : truthy (qToggle sample_document)
                || truthy (qSidebar sample_document) = true) by reflexivity.
  split; [exact He | split; [exact Hex|]].
  exact (proj1 (throttle_intervals_fixed sample_document sample_nodes
                  sample_env 800 600 0
                  [EvSetConfig (mkConfig 100 10 50 150 0 500 150 300);
                   EvScroll 120] He Hex)).
Defined.

(* ================================================================== *)
(** ** The reduced-motion preference (detectReducedMotion) *)
(* ================================================================== *)

Lemma MotionSync_ext (w w' : World) :
  listed LReducedMotion (listeners w') = listed LReducedMotion (listeners w) ->
  prefersReducedMotion (state w') = prefersReducedMotion (state w) ->
  mediaReducedMotion (env w') = mediaReducedMotion (env w) ->
  MotionSync w -> MotionSync w'.
Proof.
  unfold MotionSync. rewrite !listening_listed.
  intros E1 E2 E3. rewrite E1, E2, E3. exact (fun H => H).
Qed.

Lemma listed_remove (l x : Listener) (ls : list Listener) :
  l <> x -> listed l (remove Listener_eq_dec x ls) = listed l ls.
Proof.
  intros Hne. destruct (listed l ls) eqn:E.
  - apply listed_iff. apply listed_iff in E. now apply in_in_remove.
  - destruct (listed l (remove Listener_eq_dec x ls)) eqn:E'; [|reflexivity].
    apply listed_iff in E'. apply in_remove in E' as [Hi _].
    apply listed_iff in Hi. congruence.
Qed.

Ltac side_MotionSync :=
  idtac;
  let w := fresh "w" in
  let H := fresh "H" in
  intros w H; unfold set_throttle;
  repeat match goal with
         | |- context [if listening ?l ?x then _ else _] =>
             destruct (listening l x)
         | |- context [match ?x with _ => _ end] => is_var x; destruct x
         end;
  first
    [ exact H
    | apply (MotionSync_ext w); [reflexivity .. | exact H]
    | apply (MotionSync_ext w);
      [ js_fields; apply listed_remove; discriminate
      | reflexivity | reflexivity | exact H ] ].

Ltac side_MotionSync_at H :=
  match type of H with
  | MotionSync ?w => apply (MotionSync_ext w); [reflexivity .. | exact H]
  end.

Ltac auto_MotionSync := js_rules fail side_MotionSync.

Lemma init_MotionSync (w : World) : MotionSync w -> MotionSync (exec init w).
Proof.
  intros H.
  destruct (truthy (toggle (cache_of (document w)))
            || truthy (sidebar (cache_of (document w)))) eqn:Hex.
  - rewrite (init_exec w Hex). intros _. reflexivity.
  - unfold cache_of in Hex. cbn [toggle sidebar] in Hex.
    destruct (qToggle (document w)) eqn:Et; [discriminate|].
    destruct (qSidebar (document w)) eqn:Es; [discriminate|].
    destruct (init_skipped_exec w Et Es) as [E _]. rewrite E.
    revert H. apply MotionSync_ext; reflexivity.
Qed.

Lemma MotionSync_step (e : Event) (w : World) :
  MotionSync w -> MotionSync (step e w).
Proof.
  intros H. destruct e; cbn [step];
    try (step_keeps H auto_MotionSync side_MotionSync_at).
  - destruct (readyStateLoading (env w)); [|exact H].
    unfold dispatch. destruct (listening _ _).
    + apply init_MotionSync. side_MotionSync_at H.
    + side_MotionSync_at H.
  - assert (H' : MotionSync
                   (dispatch LKeydown (handleKeydown key shiftKey)
                      (set_defaultPrevented false w)))
      by step_keeps H auto_MotionSync side_MotionSync_at.
    destruct (key =? "Tab")%string; [|exact H'].
    unfold default_tab.
    destruct (defaultPrevented _); [exact H' | side_MotionSync_at H'].
  - unfold dispatch.
    destruct (listening LReducedMotion
                (set_env (set_mediaReducedMotion matches (env w)) w)) eqn:El.
    + unfold onReducedMotionChange. js_fwd. intros _. reflexivity.
    + intros Hl. rewrite El in Hl. discriminate.
Qed.

Lemma loaded_MotionSync d nodes e width height y :
  MotionSync (loaded d nodes e width height y).
Proof.
  destruct (readyStateLoading e) eqn:He.
  - unfold loaded, navbar_js. js_fwd.
    replace (readyStateLoading (env (page d nodes e width height y)))
      with true by (symmetry; exact He).
    js_fwd. unfold page, MotionSync, listening. cbn. discriminate.
  - rewrite (loaded_ready _ _ _ _ _ _ He). apply init_MotionSync.
    unfold script_top, page, MotionSync, listening. cbn. discriminate.
Qed.

(** X8: the controller's reduced-motion flag follows the browser.  In
    every reachable world in which the listener of [detectReducedMotion]
    is registered, [state.prefersReducedMotion] equals what the media
    query currently answers. *)
Theorem reduced_motion_tracked (w : World) :
  reachable w ->
  listening LReducedMotion w = true ->
  prefersReducedMotion (state w) = mediaReducedMotion (env w).
Proof.
  intros Hr. change (MotionSync w).
  induction Hr as [d nodes e width height y | e w _ IH].
  - apply loaded_MotionSync.
  - exact (MotionSync_step e w IH).
Qed.

(** X8 at work: the preference is switched on, then off, on the sample
    page. *)
Lemma reduced_motion_tracked_witness :
  reachable
    (run [EvReducedMotionChange true; EvScroll 120;
          EvReducedMotionChange false] sample_world) /\
  listening LReducedMotion
    (run [EvReducedMotionChange true; EvScroll 120;
          EvReducedMotionChange false] sample_world) = true /\
  prefersReducedMotion
    (state
       (run [EvReducedMotionChange true; EvScroll 120;
             EvReducedMotionChange false] sample_world)) = false.
Proof.
  assert (Hr : reachable
                 (run [EvReducedMotionChange true; EvScroll 120;
                       EvReducedMotionChange false] sample_world))
    by (apply reachable_run, reach_loaded).
  assert (Hl : listening LReducedMotion
                 (run [EvReducedMotionChange true; EvScroll 120;
                       EvReducedMotionChange false] sample_world) = true)
    by (vm_compute; reflexivity).
  split; [exact Hr | split; [exact Hl|]].
  exact (reduced_motion_tracked _ Hr Hl).
Defined.

(* ================================================================== *)
(** ** The scrolling shadow (setScrollingState, handleScrollEnd) *)
(* ================================================================== *)

(** [setScrollingState], in one equation. *)
Lemma setScrollingState_exec (b : bool) (w : World) :
  exec (setScrollingState b) w =
  match toggle (elements w) with
  | None => w
  | Some t =>
      if prefersReducedMotion (state w) then w
      else if b && negb (isScrolling (state w)) then
        set_dom (update_node t (el_add_classes ["is-scrolling"]) (dom w))
          (upd_state (set_isScrolling true) w)
      else if negb b && isScrolling (state w) then
        set_dom (update_node t (el_remove_classes ["is-scrolling"]) (dom w))
          (upd_state (set_isScrolling false) w)
      else w
  end.
Proof.
  unfold setScrollingState. js_fwd.
  destruct (toggle (elements w)) as [t|]; js_fwd; [|reflexivity].
  destruct (prefersReducedMotion (state w)); js_fwd; [reflexivity|].
  destruct b, (isScrolling (state w)); js_fwd; reflexivity.
Qed.

Lemma ShadowInv_ext (w w' : World) :
  elements w' = elements w -> dom w' = dom w ->
  isScrolling (state w') = isScrolling (state w) ->
  ShadowInv w -> ShadowInv w'.
Proof.
  unfold ShadowInv, node_has_class.
  intros E1 E2 E3. rewrite E1, E2, E3. exact (fun H => H).
Qed.

Lemma ShadowInv_dom (g : node -> Element) (w : World) :
  (forall m, has_class "is-scrolling" (classList (dom w m)) = true ->
             has_class "is-scrolling" (classList (g m)) = true) ->
  ShadowInv w -> ShadowInv (set_dom g w).
Proof.
  unfold ShadowInv, node_has_class. js_fields.
  intros Hg H Hs. destruct (H Hs) as (t & Et & Hc).
  exists t. split; [exact Et | apply Hg, Hc].
Qed.

Lemma setScrollingState_ShadowInv (b : bool) :
  preserves ShadowInv (setScrollingState b).
Proof.
  intros w H. rewrite setScrollingState_exec.
  destruct (toggle (elements w)) as [t|] eqn:Et; [|exact H].
  destruct (prefersReducedMotion (state w)); [exact H|].
  destruct b, (isScrolling (state w)) eqn:Es; cbn [andb negb]; try exact H.
  - intros _. exists t. split; [exact Et|]. now dom_read.
  - intros Hs. discriminate Hs.
Qed.

Ltac side_ShadowInv :=
  idtac;
  let w := fresh "w" in
  let H := fresh "H" in
  intros w H; unfold set_throttle;
  repeat match goal with
         | |- context [if listening ?l ?x then _ else _] =>
             destruct (listening l x)
         | |- context [match ?x with _ => _ end] => is_var x; destruct x
         end;
  first
    [ exact H
    | apply (ShadowInv_ext w); [reflexivity .. | exact H]
    | apply ShadowInv_dom;
      [ let m := fresh "m" in
        let Hm := fresh "Hm" in
        intros m Hm; autorewrite with dom_obs; eval_class_literals;
        rewrite Hm, ?andb_false_r, ?orb_true_r; reflexivity
      | exact H ] ].

Ltac side_ShadowInv_at H :=
  match type of H with
  | ShadowInv ?w => apply (ShadowInv_ext w); [reflexivity .. | exact H]
  end.

Ltac leaf_ShadowInv :=
  idtac;
  match goal with
  | |- preserves _ (setScrollingState _) => apply setScrollingState_ShadowInv
  end.

Ltac auto_ShadowInv := js_rules leaf_ShadowInv side_ShadowInv.

Lemma init_not_scrolling :
  preserves (fun x => isScrolling (state x) = false) init.
Proof.
  js_rules fail
    ltac:(idtac; let x := fresh in let H := fresh in
          intros x H;
          repeat match goal with
                 | |- context [if listening ?l ?y then _ else _] =>
                     destruct (listening l y)
                 end;
          exact H).
Qed.

Lemma ShadowInv_step (e : Event) (w : World) :
  TimersInv w -> ShadowInv w -> ShadowInv (step e w).
Proof.
  intros Hi H. destruct e; cbn [step];
    try (step_keeps H auto_ShadowInv side_ShadowInv_at).
  - destruct (readyStateLoading (env w)) eqn:El; [|exact H].
    assert (Hs : isScrolling (state w) = false).
    { destruct (isScrolling (state w)) eqn:Es; [|reflexivity].
      destruct (H Es) as (t & Et & _).
      rewrite (inv_loading w Hi El) in Et. discriminate. }
    unfold dispatch. destruct (listening _ _).
    + intros Hc. rewrite init_not_scrolling in Hc; [discriminate | exact Hs].
    + side_ShadowInv_at H.
  - assert (H' : ShadowInv
                   (dispatch LKeydown (handleKeydown key shiftKey)
                      (set_defaultPrevented false w)))
      by step_keeps H auto_ShadowInv side_ShadowInv_at.
    destruct (key =? "Tab")%string; [|exact H'].
    unfold default_tab.
    destruct (defaultPrevented _); [exact H' | side_ShadowInv_at H'].
Qed.

Lemma loaded_ShadowInv d nodes e width height y :
  ShadowInv (loaded d nodes e width height y).
Proof.
  assert (Hs : isScrolling (state (loaded d nodes e width height y)) = false).
  { destruct (readyStateLoading e) eqn:He.
    - unfold loaded, navbar_js. js_fwd.
      replace (readyStateLoading (env (page d nodes e width height y)))
        with true by (symmetry; exact He).
      js_fwd. destruct (listening _ _); reflexivity.
    - rewrite (loaded_ready _ _ _ _ _ _ He). apply init_not_scrolling.
      reflexivity. }
  intros Hc. rewrite Hs in Hc. discriminate.
Qed.

Lemma reachable_ShadowInv (w : World) : reachable w -> ShadowInv w.
Proof.
  induction 1 as [d nodes e width height y | e w Hr IH].
  - apply loaded_ShadowInv.
  - apply ShadowInv_step; [apply (reachable_Inv w Hr) | exact IH].
Qed.

Lemma Shadowed_ext (t : node) (tm : Timer) (w w' : World) :
  Handles w' ->
  isScrolling (state w') = isScrolling (state w) ->
  (node_has_class w t "is-scrolling" = true ->
   node_has_class w' t "is-scrolling" = true) ->
  prefersReducedMotion (state w') = prefersReducedMotion (state w) ->
  elements w' = elements w ->
  (In tm (timers w) -> In tm (timers w')) ->
  scrollingTimer (state w') = scrollingTimer (state w) ->
  Shadowed t tm w -> Shadowed t tm w'.
Proof.
  intros H' E1 E2 E3 E4 E5 E6 (_ & A & B & C & D & E & F & G).
  unfold Shadowed. rewrite E1, E3, E4, E6. auto 10.
Qed.

Lemma cancelHideTimer_Shadowed (t : node) (tm : Timer) :
  preserves (Shadowed t tm) cancelHideTimer.
Proof.
  intros w HS. pose proof (cancelHideTimer_Handles w (proj1 HS)) as HH.
  revert HS. rewrite cancelHideTimer_exec in *.
  destruct (hideTimer (state w)) as [[|h]|] eqn:Eh; try (intros HS; exact HS).
  intros HS. apply (Shadowed_ext t tm w); try reflexivity; try assumption.
  - intros Hc. exact Hc.
  - intros Hi. cbn. apply In_drop_timer. split; [exact Hi|]. intros Et.
    destruct HS as ([H _] & _ & _ & _ & _ & _ & Hc & _).
    destruct (hi_hide w H (S h) Eh) as [_ Hk].
    specialize (Hk tm Hi Et). rewrite Hc in Hk. discriminate.
Qed.

Ltac side_Shadowed :=
  idtac;
  let w := fresh "w" in
  let HS := fresh "HS" in
  intros w HS;
  match goal with
  | |- Shadowed ?t ?tm ?x =>
      apply (Shadowed_ext t tm w);
      [ revert w HS; intros w [HS _]; revert w HS; side_Handles
      | reflexivity
      | unfold node_has_class; js_fields; autorewrite with dom_obs;
        eval_class_literals;
        let Hc := fresh "Hc" in
        intros Hc; rewrite Hc, ?andb_false_r, ?orb_true_r; reflexivity
      | reflexivity
      | reflexivity
      | js_fields;
        let Hi := fresh "Hi" in
        intros Hi; first [exact Hi | apply in_or_app; left; exact Hi]
      | reflexivity
      | exact HS ]
  end.

Lemma hideToggleWithDelay_Shadowed (t : node) (tm : Timer) :
  preserves (Shadowed t tm) hideToggleWithDelay.
Proof.
  intros w HS.
  pose proof (hideToggleWithDelay_Handles w (proj1 HS)) as HH.
  revert HH. unfold hideToggleWithDelay. js_fwd.
  destruct (toggle (elements w)) as [t'|] eqn:Et; js_fwd;
    [|intros _; exact HS].
  destruct (menuOpen (state w)); js_fwd; [intros _; exact HS|].
  rewrite exec_bind_call by apply cancelHideTimer_completes.
  pose proof (cancelHideTimer_Shadowed t tm w HS) as H1.
  revert H1. generalize (exec cancelHideTimer w). clear w HS Et.
  intros w HS. js_fwd.
  destruct (prefersReducedMotion (state w) || (autoHideDelay (CONFIG w) =? 0));
    js_fwd; intros HH.
  - apply (Shadowed_ext t tm w); try reflexivity; try assumption.
    + unfold node_has_class. js_fields. autorewrite with dom_obs.
      intros Hc. rewrite Hc. apply orb_true_r.
    + intros Hi. exact Hi.
  - apply (Shadowed_ext t tm w); try reflexivity; try assumption.
    + intros Hc. exact Hc.
    + js_fields. intros Hi. apply in_or_app. now left.
Qed.

Ltac leaf_Shadowed :=
  idtac;
  match goal with
  | |- preserves _ cancelHideTimer => apply cancelHideTimer_Shadowed
  | |- preserves _ hideToggleWithDelay => apply hideToggleWithDelay_Shadowed
  end.

Ltac auto_Shadowed := js_rules leaf_Shadowed side_Shadowed.

Lemma handleScroll_Handles : preserves Handles handleScroll.
Proof. auto_Handles. Qed.

(** The evaluation below desktop width: the shadow and the scroll-end
    timer first, then the part that decides about the toggle. *)
Lemma handleScroll_shadowed (w : World) (t : node) :
  Handles w -> ShadowInv w ->
  innerWidth w < 1025 ->
  toggle (elements w) = Some t ->
  prefersReducedMotion (state w) = false ->
  exists tm,
    due tm = now w + Z.max 0 (scrollingTimeout (CONFIG w)) /\
    Shadowed t tm (exec handleScroll w).
Proof.
  intros HH HI Hd Et Hr.
  unfold handleScroll. js_fwd.
  destruct (Z.leb_spec 1025 (innerWidth w)); [lia|].
  rewrite Et. js_fwd.
  rewrite exec_bind_call by apply setScrollingState_completes.
  rewrite exec_bind_call by apply handleScrollEnd_completes.
  assert (Ha : let wa := exec (setScrollingState true) w in
               Handles wa /\ isScrolling (state wa) = true /\
               node_has_class wa t "is-scrolling" = true /\
               prefersReducedMotion (state wa) = false /\
               toggle (elements wa) = Some t /\
               now wa = now w /\ CONFIG wa = CONFIG w).
  { cbv zeta. rewrite setScrollingState_exec, Et, Hr.
    destruct (isScrolling (state w)) eqn:Es; cbn [andb negb].
    - destruct (HI Es) as (t' & Et' & Hc).
      assert (t' = t) by congruence. subst t'. auto 10.
    - split; [apply (Handles_ext w); [reflexivity .. | exact HH]|].
      repeat split; try assumption. now dom_read. }
  revert Ha. generalize (exec (setScrollingState true) w). cbv zeta.
  intros wa (Ha & Hs & Hc & Hr' & Et' & En & Ec).
  pose proof (handleScrollEnd_Handles wa Ha) as Hb.
  revert Hb. rewrite handleScrollEnd_exec.
  set (w1 := match scrollingTimer (state wa) with
             | Some (S h) => set_timers (drop_timer (S h) (timers wa)) wa
             | _ => wa
             end).
  assert (E1 : now w1 = now w /\ CONFIG w1 = CONFIG w /\
               state w1 = state wa /\ elements w1 = elements wa /\
               dom w1 = dom wa).
  { subst w1. destruct (scrollingTimer (state wa)) as [[|h]|];
      repeat split; assumption. }
  clearbody w1. destruct E1 as (En1 & Ec1 & Es1 & Ee1 & Ed1). cbv zeta.
  intros Hb.
  exists (mkTimer (nextTimerId w1)
            (now w1 + Z.max 0 (scrollingTimeout (CONFIG w1))) CbScrollEnd).
  split; [cbn; now rewrite En1, Ec1|].
  match goal with
  | |- Shadowed ?t ?tm (exec ?m ?wb) =>
      assert (Hp : preserves (Shadowed t tm) m) by auto_Shadowed;
      apply Hp
  end.
  split; [exact Hb|]. unfold node_has_class. js_fields.
  rewrite Es1, Ee1, Ed1.
  repeat split; try assumption.
  apply in_or_app. right. now left.
Qed.

(** X9: the scrolling shadow.  In a reachable world below desktop width,
    with a toggle and without reduced motion, a scroll evaluation leaves
    [state.isScrolling] set and the class [is-scrolling] on the toggle,
    and exactly one scroll-end timer pending: the one named by
    [state.scrollingTimer], due [CONFIG.scrollingTimeout] ms after the
    evaluation (an earlier one has been replaced).  When that time has
    passed and the timer fires, the flag and the class are cleared. *)
Theorem scrolling_shadow_cycle (w : World) (t : node) :
  reachable w ->
  innerWidth w < 1025 ->
  toggle (elements w) = Some t ->
  prefersReducedMotion (state w) = false ->
  let w1 := exec handleScroll w in
  isScrolling (state w1) = true /\
  node_has_class w1 t "is-scrolling" = true /\
  exists tm,
    In tm (timers w1) /\ callback tm = CbScrollEnd /\
    scrollingTimer (state w1) = Some (tid tm) /\
    due tm = now w + Z.max 0 (scrollingTimeout (CONFIG w)) /\
    (forall x, In x (timers w1) -> callback x = CbScrollEnd -> x = tm) /\
    let w2 := run [EvTick (due tm - now w1); EvTimer (tid tm)] w1 in
    isScrolling (state w2) = false /\
    node_has_class w2 t "is-scrolling" = false.
Proof.
  intros Hr Hd Et Hm w1. subst w1.
  destruct (handleScroll_shadowed w t (reachable_Handles w Hr)
              (reachable_ShadowInv w Hr) Hd Et Hm)
    as (tm & Hdue & [H _] & Hs & Hc & Hm1 & Et1 & Hi & Hcb & Hst).
  revert H Hs Hc Hm1 Et1 Hi Hcb Hst. generalize (exec handleScroll w).
  intros w1 H Hs Hc Hm1 Et1 Hi Hcb Hst.
  split; [exact Hs | split; [exact Hc|]].
  exists tm. repeat split; try assumption.
  - intros x Hx Hxc. apply (NoDup_map_eq tid (timers w1)); try assumption.
    + apply (hi_nodup w1 H).
    + pose proof (hi_scroll_tracked w1 H x Hx Hxc). congruence.
  - cbn [run fold_left step]. unfold fire_timer. js_fields.
    rewrite (find_timer_In (timers w1) tm (hi_nodup w1 H) Hi).
    destruct (Z.leb_spec (due tm) (now w1 + Z.max 0 (due tm - now w1)));
      [|lia].
    rewrite Hcb. cbn [run_timer]. rewrite setScrollingState_exec.
    js_fields. rewrite Et1, Hm1, Hs. reflexivity.
  - cbn [run fold_left step]. unfold fire_timer. js_fields.
    rewrite (find_timer_In (timers w1) tm (hi_nodup w1 H) Hi).
    destruct (Z.leb_spec (due tm) (now w1 + Z.max 0 (due tm - now w1)));
      [|lia].
    rewrite Hcb. cbn [run_timer]. rewrite setScrollingState_exec.
    js_fields. rewrite Et1, Hm1, Hs. cbn [andb negb]. now dom_read.
Qed.

(** X9 at work on the sample page. *)
Lemma scrolling_shadow_cycle_witness :
  reachable sample_world /\
  innerWidth sample_world < 1025 /\
  toggle (elements sample_world) = Some 0%nat /\
  prefersReducedMotion (state sample_world) = false /\
  node_has_class (exec handleScroll sample_world) 0%nat "is-scrolling" = true.
Proof.
  assert (Hd : innerWidth sample_world < 1025) by (vm_compute; reflexivity).
  assert (Et : toggle (elements sample_world) = Some 0%nat)
    by (vm_compute; reflexivity).
  assert (Hm : prefersReducedMotion (state sample_world) = false)
    by (vm_compute; reflexivity).
  split; [exact reachable_sample_world|].
  split; [exact Hd | split; [exact Et | split; [exact Hm|]]].
  exact (proj1 (proj2 (scrolling_shadow_cycle sample_world 0%nat
                         reachable_sample_world Hd Et Hm))).
Defined.

Lemma setScrollingState_frozen (w0 : World) (b : bool) :
  preserves (ShadowFrozen w0) (setScrollingState b).
Proof.
  intros w H. rewrite setScrollingState_exec.
  destruct (toggle (elements w)); [|exact H].
  now rewrite (proj1 H).
Qed.

Ltac side_ShadowFrozen :=
  idtac;
  let w := fresh "w" in
  let Hr := fresh "Hr" in
  let Hs := fresh "Hs" in
  let Hc := fresh "Hc" in
  intros w (Hr & Hs & Hc); unfold set_throttle;
  repeat match goal with
         | |- context [if listening ?l ?x then _ else _] =>
             destruct (listening l x)
         | |- context [match ?x with _ => _ end] => is_var x; destruct x
         end;
  (split; [exact Hr | split; [exact Hs|]]);
  let n := fresh "n" in
  intros n; rewrite <- Hc; unfold node_has_class; js_fields;
  autorewrite with dom_obs; eval_class_literals;
  rewrite ?andb_false_r, ?orb_false_l; cbn [negb andb];
  reflexivity.

Ltac leaf_ShadowFrozen :=
  idtac;
  match goal with
  | |- preserves _ (setScrollingState _) => apply setScrollingState_frozen
  end.

Ltac auto_ShadowFrozen := js_rules leaf_ShadowFrozen side_ShadowFrozen.

(** X10: with reduced motion preferred the scrolling shadow is frozen.
    [setScrollingState] returns at once, so neither a scroll evaluation
    nor the scroll-end callback nor a return to the page changes
    [state.isScrolling] or the class [is-scrolling] of any node: the
    shadow is never shown, and one that is on when the preference is
    switched stays on. *)
Theorem reduced_motion_freezes_shadow (w : World) (op : Operation) :
  prefersReducedMotion (state w) = true ->
  In op [OpScrollingState true; OpScrollingState false; OpScroll;
         OpFrame FcScrollEval; OpTimer CbScrollEnd; OpVisibility true] ->
  let w' := exec (run_operation op) w in
  isScrolling (state w') = isScrolling (state w) /\
  forall n, node_has_class w' n "is-scrolling"
            = node_has_class w n "is-scrolling".
Proof.
  intros Hr Hop w'. subst w'.
  assert (H0 : ShadowFrozen w w) by (split; [exact Hr | split; reflexivity]).
  assert (Hp : preserves (ShadowFrozen w) (run_operation op)).
  { cbn in Hop.
    repeat destruct Hop as [<-|Hop]; try contradiction;
      cbn [run_operation run_timer]; auto_ShadowFrozen. }
  exact (proj2 (Hp w H0)).
Qed.

(** X10 at work: the preference is switched on while the shadow of the
    sample page is on; the scroll-end timer then fires in vain. *)
Lemma reduced_motion_freezes_shadow_witness :
  prefersReducedMotion
    (state (run [EvScroll 120; EvAnimationFrame; EvReducedMotionChange true]
              sample_world)) = true /\
  node_has_class
    (exec (run_operation (OpTimer CbScrollEnd))
       (run [EvScroll 120; EvAnimationFrame; EvReducedMotionChange true]
          sample_world))
    0%nat "is-scrolling" = true.
Proof.
  assert (Hr : prefersReducedMotion
                 (state (run [EvScroll 120; EvAnimationFrame;
                              EvReducedMotionChange true] sample_world))
               = true) by (vm_compute; reflexivity).
  assert (Hc : node_has_class
                 (run [EvScroll 120; EvAnimationFrame;
                       EvReducedMotionChange true] sample_world)
                 0%nat "is-scrolling" = true) by (vm_compute; reflexivity).
  split; [exact Hr|].
  rewrite <- Hc.
  exact (proj2 (reduced_motion_freezes_shadow _ (OpTimer CbScrollEnd) Hr
                  (or_intror (or_intror (or_intror (or_intror
                     (or_introl eq_refl)))))) 0%nat).
Defined.

(* ================================================================== *)
(** ** Orientation change, resize below desktop width, keys outside the
       trap (handleOrientationChange, handleResize, handleKeydown) *)
(* ================================================================== *)

Lemma closeMenu_completes (w : World) : completes closeMenu w = true.
Proof.
  assert (H : nothrow anywhere closeMenu)
    by js_rules fail ltac:(intros; exact I).
  apply H. exact I.
Qed.

(** X11: an orientation change closes an open menu and re-baselines the
    scroll offset.  [handleOrientationChange] always completes; afterwards
    the menu is closed, the window is at the offset saved when the menu
    was opened (or where it was, if the menu was closed),
    [state.lastScrollY] is that offset, and [state.orientation] is the
    current orientation.  With the menu closed it touches neither the DOM
    nor the focus nor any timer. *)
Theorem orientation_change_effect (w : World) :
  let w' := exec handleOrientationChange w in
  completes handleOrientationChange w = true /\
  menuOpen (state w') = false /\
  scrollY w'
  = (if menuOpen (state w) then scrollPosition (state w) else scrollY w) /\
  lastScrollY (state w') = scrollY w' /\
  orientation (state w') = current_orientation w /\
  (menuOpen (state w) = false ->
   dom w' = dom w /\ activeElement w' = activeElement w /\
   timers w' = timers w).
Proof.
  cbv zeta. split.
  { assert (H : nothrow anywhere handleOrientationChange)
      by js_rules fail ltac:(intros; exact I).
    apply H. exact I. }
  unfold handleOrientationChange. js_fwd.
  destruct (menuOpen (state w)) eqn:Em.
  - rewrite exec_bind_call by apply closeMenu_completes.
    rewrite closeMenu_exec. cbv zeta. js_fwd.
    repeat split; discriminate.
  - js_fwd. rewrite Em. repeat split.
Qed.

(** X12: after a resize below desktop width with the menu closed the
    sidebar has lost [open] and [visible] and has [aria-hidden] "true";
    a later resize to desktop width resets the menu classes but never
    writes [aria-hidden], so the sidebar is still marked hidden at
    desktop width.  With the menu open a resize below desktop width
    changes nothing. *)
Theorem resize_keeps_sidebar_hidden (w : World) (s : node) (wm wd : Z) :
  sidebar (elements w) = Some s ->
  wm < 1025 -> 1025 <= wd ->
  let w1 := exec resize_body (set_innerWidth wm w) in
  let w2 := exec resize_body (set_innerWidth wd w1) in
  (menuOpen (state w) = true -> w1 = set_innerWidth wm w) /\
  (menuOpen (state w) = false ->
   node_has_class w1 s "open" = false /\
   node_has_class w1 s "visible" = false /\
   node_attr w1 s "aria-hidden" = Some "true" /\
   state w1 = state w /\
   innerWidth w2 = wd /\
   node_attr w2 s "aria-hidden" = Some "true") /\
  (forall n, node_attr w2 n "aria-hidden" = node_attr w1 n "aria-hidden").
Proof.
  intros Es Hm Hd w1 w2.
  assert (E1 : w1 = if menuOpen (state w) then set_innerWidth wm w
                    else set_dom
                           (dom_opt (Some s) (el_set_attr "aria-hidden" "true")
                              (dom_opt (Some s)
                                 (el_remove_classes ["open"; "visible"])
                                 (dom w)))
                           (set_innerWidth wm w)).
  { subst w1. rewrite resize_body_mobile_exec by exact Hm.
    js_fields. now rewrite Es. }
  assert (E2 : w2 = exec resize_body (set_innerWidth wd w1)) by reflexivity.
  rewrite resize_body_desktop_exec in E2 by exact Hd. cbv zeta in E2.
  clearbody w1 w2. subst w2.
  assert (Ha : forall n,
             node_attr
               (set_dom
                  (dom_opt (toggle (elements (set_innerWidth wd w1)))
                     (el_set_html (ToggleIcon "☰"))
                     (dom_opt (toggle (elements (set_innerWidth wd w1)))
                        (el_set_attr "aria-expanded" "false")
                        (dom_opt (toggle (elements (set_innerWidth wd w1)))
                           (el_remove_classes ["auto-hidden"])
                           (dom_opt (body (elements (set_innerWidth wd w1)))
                              (el_remove_classes ["nav-open"])
                              (dom_opt
                                 (overlay (elements (set_innerWidth wd w1)))
                                 (el_remove_classes ["active"])
                                 (dom_opt
                                    (sidebar
                                       (elements (set_innerWidth wd w1)))
                                    (el_remove_classes ["open"; "visible"])
                                    (dom (set_innerWidth wd w1))))))))
                  (upd_state (set_menuOpen false) (set_innerWidth wd w1)))
               n "aria-hidden"
             = node_attr w1 n "aria-hidden").
  { intros n. dom_read. reflexivity. }
  split; [|split].
  - intros Ho. now rewrite Ho in E1.
  - intros Hc. rewrite Hc in E1. rewrite Ha. subst w1.
    repeat split; now dom_read.
  - exact Ha.
Qed.

(** X12 at work: the sample page is resized to 700 px, then to 1200 px. *)
Lemma resize_keeps_sidebar_hidden_witness :
  sidebar (elements sample_world) = Some 1%nat /\
  700 < 1025 /\ 1025 <= 1200 /\
  node_attr
    (exec resize_body
       (set_innerWidth 1200
          (exec resize_body (set_innerWidth 700 sample_world))))
    1%nat "aria-hidden" = Some "true".
Proof.
  assert (Es : sidebar (elements sample_world) = Some 1%nat)
    by (vm_compute; reflexivity).
  assert (Hm : 700 < 1025) by reflexivity.
  assert (Hd : 1025 <= 1200) by (intro H; discriminate H).
  split; [exact Es | split; [exact Hm | split; [exact Hd|]]].
  destruct (resize_keeps_sidebar_hidden sample_world 1%nat 700 1200 Es Hm Hd)
    as (_ & H & _).
  exact (proj2 (proj2 (proj2 (proj2 (proj2 (H eq_refl)))))).
Defined.

(** X13: outside the trap the keydown handler does nothing.  With the
    menu closed, or for a key other than Escape and Tab, [handleKeydown]
    completes without changing anything and without calling
    [preventDefault]; so a Tab press moves the focus where the document's
    own tab order says, and Escape has no effect. *)
Theorem keydown_outside_trap (w : World) (key : string) (shiftKey : bool) :
  menuOpen (state w) = false \/ (key <> "Escape" /\ key <> "Tab") ->
  handleKeydown key shiftKey w = (Normal tt, w) /\
  step (EvKeydown key shiftKey) w
  = (if (key =? "Tab")%string
     then set_activeElement
            ((if shiftKey then tabPrev (document w) else tabNext (document w))
               (activeElement w))
            (set_defaultPrevented false w)
     else set_defaultPrevented false w).
Proof.
  intros H.
  assert (E : forall x, menuOpen (state x) = menuOpen (state w) ->
                handleKeydown key shiftKey x = (Normal tt, x)).
  { intros x Ex. unfold handleKeydown, get_state, bind, gets, ret.
    rewrite Ex. destruct H as [Hm|[He Ht]].
    - rewrite Hm, !andb_false_r. reflexivity.
    - apply String.eqb_neq in He, Ht. rewrite He, Ht. reflexivity. }
  split; [apply E; reflexivity|].
  cbn [step]. unfold dispatch, exec.
  rewrite (E (set_defaultPrevented false w)) by reflexivity.
  cbn [snd].
  destruct (listening LKeydown (set_defaultPrevented false w));
    destruct (key =? "Tab")%string; reflexivity.
Qed.

(** X13 at work: Escape on the sample page with the menu closed. *)
Lemma keydown_outside_trap_witness :
  (menuOpen (state sample_world) = false \/
   ("Escape" <> "Escape" /\ "Escape" <> "Tab")) /\
  handleKeydown "Escape" false sample_world = (Normal tt, sample_world).
Proof.
  assert (H : menuOpen (state sample_world) = false \/
              ("Escape" <> "Escape" /\ "Escape" <> "Tab"))
    by (left; vm_compute; reflexivity).
  split; [exact H|].
  exact (proj1 (keydown_outside_trap sample_world "Escape" false H)).
Defined.

(* ================================================================== *)
(** ** The sidebar of js/common.js next to the controller of
       js/navbar.js (toggleSidebar, the click listener, closeMenu) *)
(* ================================================================== *)

#[global] Hint Rewrite has_class_update_toggle : dom_obs.

(** X14: the overlay closes through navbar.js whatever opened the
    sidebar.  On an initialised page with the menu closed, after
    [toggleSidebar] of common.js has opened the sidebar (class [open],
    overlay [active], [state.menuOpen] still false), a click on the
    overlay runs [closeMenu]: the two classes are removed again, but the
    window is also scrolled to [state.scrollPosition], the offset saved at
    the last [openMenu] (0 if there was none), and the focus moves to the
    toggle. *)
Theorem overlay_click_after_common_toggle (w : World) (s o : node) :
  elements w = cache_of (document w) ->
  qSidebar (document w) = Some s ->
  qOverlay (document w) = Some o ->
  listening LOverlayClick w = true ->
  node_has_class w s "open" = false ->
  node_has_class w o "active" = false ->
  let w1 := exec common_toggleSidebar w in
  let w2 := step EvClickOverlay w1 in
  node_has_class w1 s "open" = true /\
  node_has_class w1 o "active" = true /\
  state w1 = state w /\
  node_has_class w2 s "open" = false /\
  node_has_class w2 o "active" = false /\
  scrollY w2 = scrollPosition (state w) /\
  (forall t, qToggle (document w) = Some t -> activeElement w2 = Some t).
Proof.
  intros Ee Es Eo Hl Hs Ho w1 w2. subst w2 w1.
  rewrite common_toggleSidebar_exec, Es, Eo.
  cbn [step]. unfold dispatch.
  replace (listening LOverlayClick
             (set_dom
                (update_node o (el_toggle_class "active")
                   (update_node s (el_toggle_class "open") (dom w))) w))
    with true by (symmetry; exact Hl).
  rewrite closeMenu_exec. cbv zeta. js_fields. rewrite Ee.
  unfold cache_of. js_fields. rewrite Es, Eo.
  unfold node_has_class in *.
  repeat split.
  - dom_read. rewrite Hs. reflexivity.
  - dom_read. rewrite Ho. reflexivity.
  - now dom_read.
  - now dom_read.
  - intros t Et. now rewrite Et.
Qed.

(** X14 at work on the sample page scrolled to 300. *)
Lemma overlay_click_after_common_toggle_witness :
  elements (set_scrollY 300 sample_world)
  = cache_of (document (set_scrollY 300 sample_world)) /\
  scrollY
    (step EvClickOverlay
       (exec common_toggleSidebar (set_scrollY 300 sample_world))) = 0.
Proof.
  assert (Ee : elements (set_scrollY 300 sample_world)
               = cache_of (document (set_scrollY 300 sample_world)))
    by (vm_compute; reflexivity).
  split; [exact Ee|].
  assert (Hl : listening LOverlayClick (set_scrollY 300 sample_world) = true)
    by (vm_compute; reflexivity).
  assert (Hs : node_has_class (set_scrollY 300 sample_world) 1%nat "open"
               = false) by (vm_compute; reflexivity).
  assert (Ho : node_has_class (set_scrollY 300 sample_world) 2%nat "active"
               = false) by (vm_compute; reflexivity).
  exact (proj1 (proj2 (proj2 (proj2 (proj2 (proj2
           (overlay_click_after_common_toggle (set_scrollY 300 sample_world)
              1%nat 2%nat Ee eq_refl eq_refl Hl Hs Ho))))))).
Defined.

Lemma has_class_single (c x : string) :
  c <> x -> has_class c [x] = false.
Proof.
  intros H. unfold has_class. cbn [existsb].
  apply String.eqb_neq in H. now rewrite H.
Qed.

(** The click listener of common.js, in one equation. *)
Lemma common_onDocumentClick_exec (contains : node -> node -> bool)
  (target : node) (w : World) :
  exec (common_onDocumentClick contains target) w =
  match qSidebar (document w), qToggle (document w), qOverlay (document w)
  with
  | Some s, Some t, Some o =>
      if (innerWidth w <=? 768) && negb (contains s target)
         && negb (contains t target) && node_has_class w s "open"
      then
        set_dom
          (update_node o (el_remove_classes ["active"])
             (update_node s (el_remove_classes ["open"]) (dom w))) w
      else w
  | _, _, _ => w
  end.
Proof.
  unfold common_onDocumentClick, node_contains, classList_contains.
  js_fwd. cbv zeta.
  destruct (qSidebar (document w)) as [s|], (qToggle (document w)) as [t|],
    (qOverlay (document w)) as [o|];
    destruct (innerWidth w <=? 768); js_fwd; try reflexivity.
  destruct (contains s target); js_fwd; [reflexivity|].
  destruct (contains t target); js_fwd; [reflexivity|].
  destruct (node_has_class w s "open"); js_fwd; reflexivity.
Qed.

Lemma common_onDocumentClick_completes (contains : node -> node -> bool)
  (target : node) (w : World) :
  completes (common_onDocumentClick contains target) w = true.
Proof.
  unfold common_onDocumentClick, node_contains, classList_contains.
  js_fwd. cbv zeta.
  destruct (qSidebar (document w)) as [s|], (qToggle (document w)) as [t|],
    (qOverlay (document w)) as [o|];
    destruct (innerWidth w <=? 768); js_fwd; try reflexivity.
  destruct (contains s target); js_fwd; [reflexivity|].
  destruct (contains t target); js_fwd; [reflexivity|].
  destruct (node_has_class w s "open"); js_fwd; reflexivity.
Qed.

(** X15: the click listener of common.js.  It never throws and never
    touches the controller's state, the cached elements, the timers, the
    focus, the scroll offset or any attribute; the only classes it can
    change are [open] and [active].  It does nothing on a window wider
    than 768 px (so not between 769 and 1024 px, where navbar.js still
    treats the sidebar as off-canvas), nothing when the click lands in
    the sidebar or in the toggle, nothing when the sidebar is not open,
    and otherwise removes [open] from the sidebar and [active] from the
    overlay. *)
Theorem click_outside_closes_sidebar_only (contains : node -> node -> bool)
  (target : node) (w : World) :
  let w' := exec (common_onDocumentClick contains target) w in
  completes (common_onDocumentClick contains target) w = true /\
  state w' = state w /\ elements w' = elements w /\ timers w' = timers w /\
  activeElement w' = activeElement w /\ scrollY w' = scrollY w /\
  (forall n k, node_attr w' n k = node_attr w n k) /\
  (forall n c, c <> "open" -> c <> "active" ->
     node_has_class w' n c = node_has_class w n c) /\
  (768 < innerWidth w -> w' = w) /\
  (forall s, qSidebar (document w) = Some s ->
     contains s target = true \/ node_has_class w s "open" = false ->
     w' = w) /\
  (forall t, qToggle (document w) = Some t -> contains t target = true ->
     w' = w) /\
  (forall s t o,
     qSidebar (document w) = Some s -> qToggle (document w) = Some t ->
     qOverlay (document w) = Some o ->
     innerWidth w <= 768 ->
     contains s target = false -> contains t target = false ->
     node_has_class w s "open" = true ->
     node_has_class w' s "open" = false /\
     node_has_class w' o "active" = false).
Proof.
  cbv zeta. split; [apply common_onDocumentClick_completes|].
  rewrite common_onDocumentClick_exec.
  destruct (qSidebar (document w)) as [s|] eqn:Es;
    [destruct (qToggle (document w)) as [t|] eqn:Et;
     [destruct (qOverlay (document w)) as [o|] eqn:Eo|]|].
  2-4: repeat split; discriminate.
  destruct (Z.leb_spec (innerWidth w) 768) as [Hw|Hw]; cbn [andb].
  2: { repeat split; try discriminate; intros; lia. }
  destruct (contains s target) eqn:Cs; cbn [andb negb].
  { repeat split; try discriminate; intros; congruence. }
  destruct (contains t target) eqn:Ct; cbn [andb negb].
  { repeat split; try discriminate; intros; congruence. }
  destruct (node_has_class w s "open") eqn:Ho.
  - repeat split.
    + intros n k. now dom_read.
    + intros n c Hc1 Hc2. unfold node_has_class. js_fields.
      autorewrite with dom_obs.
      rewrite !has_class_single by assumption.
      now rewrite !andb_false_r.
    + intros; lia.
    + intros s' E [C|C]; inversion E; subst; congruence.
    + intros t' E C. inversion E; subst. congruence.
    + inversion H; subst. now dom_read.
    + inversion H; inversion H1; subst. now dom_read.
  - repeat split; intros; congruence.
Qed.



(* ================================================================== *)
(** ** The highlight of the current page (the load listener of
       js/common.js) *)
(* ================================================================== *)

Lemma prefix_app (n h : string) :
  String.prefix n h = true <-> exists post, h = (n ++ post)%string.
Proof.
  revert h. induction n as [|c n IH]; intros h; cbn.
  - split; [intros _; now exists h | intros _; now destruct h].
  - destruct h as [|c' h]; cbn.
    + split; [discriminate | intros [post E]; discriminate E].
    + destruct (Ascii.ascii_dec c c') as [->|Hne].
      * rewrite IH. split; intros [post E]; exists post;
          [now rewrite E | now inversion E].
      * split; [discriminate | intros [post E]; inversion E; congruence].
Qed.

(** [includes] is the substring test. *)
Lemma includes_spec (hay needle : string) :
  includes hay needle = true <->
  exists pre post, hay = (pre ++ needle ++ post)%string.
Proof.
  induction hay as [|c hay IH].
  - cbn [includes]. rewrite orb_false_r, prefix_app. split.
    + intros [post E]. now exists EmptyString, post.
    + intros (pre & post & E). destruct pre; [now exists post|].
      discriminate E.
  - cbn [includes]. rewrite orb_true_iff, prefix_app, IH. split.
    + intros [[post E]|(pre & post & E)].
      * now exists EmptyString, post.
      * exists (String c pre), post. cbn. now rewrite E.
    + intros (pre & post & E). destruct pre as [|c' pre].
      * left. now exists post.
      * right. exists pre, post. now inversion E.
Qed.

Lemma includes_empty (hay : string) : includes hay EmptyString = true.
Proof. apply includes_spec. now exists EmptyString, hay. Qed.

Lemma split_slash_nonempty (s : string) : split_slash s <> [].
Proof.
  destruct s as [|c r]; cbn [split_slash]; [intros H; discriminate H|].
  destruct (Ascii.eqb c slash); [intros H; discriminate H|].
  destruct (split_slash r); intros H; discriminate H.
Qed.

(** Splitting at a slash splits the list of pieces. *)
Lemma split_slash_app (a b : string) :
  split_slash (a ++ String slash b) = split_slash a ++ split_slash b.
Proof.
  induction a as [|c a IH]; cbn [split_slash append app].
  - now rewrite Ascii.eqb_refl.
  - destruct (Ascii.eqb c slash); [now rewrite IH|].
    rewrite IH. pose proof (split_slash_nonempty a) as Hn.
    destruct (split_slash a) as [|x xs]; [contradiction | reflexivity].
Qed.

Lemma split_slash_plain (s : string) :
  has_slash s = false -> split_slash s = [s].
Proof.
  induction s as [|c r IH]; cbn [has_slash split_slash]; [reflexivity|].
  destruct (Ascii.eqb c slash); [discriminate|]. cbn [orb].
  intros H. now rewrite (IH H).
Qed.

Lemma pop_last_app (l1 l2 : list string) :
  l2 <> [] -> pop_last (l1 ++ l2) = pop_last l2.
Proof.
  unfold pop_last. intros H. induction l1 as [|x l1 IH]; [reflexivity|].
  cbn [app]. destruct (l1 ++ l2) eqn:E.
  - apply app_eq_nil in E as [_ E]. contradiction.
  - rewrite <- IH. reflexivity.
Qed.

(** The current page is what follows the last slash of the path. *)
Lemma current_page_after_slash (a b : string) :
  has_slash b = false ->
  pop_last (split_slash (a ++ String slash b)) = b.
Proof.
  intros H. rewrite split_slash_app, pop_last_app.
  - now rewrite (split_slash_plain b H).
  - apply split_slash_nonempty.
Qed.

Lemma highlight_item_exec (cur : string) (x : node) (w : World) :
  exec (highlight_item cur x) w =
  set_dom
    (update_node x
       (if highlighted cur (node_attr w x "href")
        then el_add_classes ["active"] else el_remove_classes ["active"])
       (dom w)) w /\
  completes (highlight_item cur x) w = true.
Proof.
  unfold highlight_item, getAttribute. js_fwd. unfold highlighted.
  destruct (node_attr w x "href") as [[|c r]|]; cbn [truthy_string andb];
    js_fwd; try (split; reflexivity).
  destruct (includes (String c r) cur); js_fwd; split; reflexivity.
Qed.

(** What the loop over the navigation items does, read node by node. *)
Lemma forEach_highlight (cur : string) (l : list node) (w : World) :
  let w' := exec (forEach l (highlight_item cur)) w in
  completes (forEach l (highlight_item cur)) w = true /\
  (forall n k, node_attr w' n k = node_attr w n k) /\
  (forall n, In n l ->
     node_has_class w' n "active" = highlighted cur (node_attr w n "href")) /\
  (forall n, ~ In n l -> dom w' n = dom w n) /\
  (forall n c, c <> "active" ->
     node_has_class w' n c = node_has_class w n c) /\
  state w' = state w /\ elements w' = elements w /\ timers w' = timers w /\
  listeners w' = listeners w /\ scrollY w' = scrollY w /\
  activeElement w' = activeElement w.
Proof.
  revert w. induction l as [|x l IH]; intros w; cbv zeta.
  - cbn [forEach]. rewrite exec_ret. repeat split. intros n [].
  - cbn [forEach].
    destruct (highlight_item_exec cur x w) as [E Hc].
    rewrite completes_bind_call, exec_bind_call by exact Hc.
    rewrite E. clear E Hc.
    set (w1 := set_dom
                 (update_node x
                    (if highlighted cur (node_attr w x "href")
                     then el_add_classes ["active"]
                     else el_remove_classes ["active"]) (dom w)) w).
    assert (Ha : forall n k, node_attr w1 n k = node_attr w n k).
    { intros n k. subst w1.
      destruct (highlighted cur (node_attr w x "href")); now dom_read. }
    assert (Hx : node_has_class w1 x "active"
                 = highlighted cur (node_attr w x "href")).
    { subst w1.
      destruct (highlighted cur (node_attr w x "href")); now dom_read. }
    assert (Ho : forall n, n <> x -> dom w1 n = dom w n).
    { intros n Hn. subst w1. js_fields. unfold update_node.
      apply Nat.eqb_neq in Hn. now rewrite Hn. }
    assert (Hk : forall n c, c <> "active" ->
                   node_has_class w1 n c = node_has_class w n c).
    { intros n c Hc. subst w1. unfold node_has_class. js_fields.
      destruct (highlighted cur (node_attr w x "href"));
        autorewrite with dom_obs; rewrite has_class_single by exact Hc;
        now rewrite !andb_false_r. }
    assert (Hf : state w1 = state w /\ elements w1 = elements w /\
                 timers w1 = timers w /\ listeners w1 = listeners w /\
                 scrollY w1 = scrollY w /\
                 activeElement w1 = activeElement w)
      by (repeat split).
    clearbody w1.
    destruct (IH w1) as (C & A & B & D & K & F1 & F2 & F3 & F4 & F5 & F6).
    destruct Hf as (G1 & G2 & G3 & G4 & G5 & G6).
    split; [exact C|].
    split; [intros n k; now rewrite A|].
    split; [|split; [|split]].
    + intros n Hn. destruct (in_dec Nat.eq_dec n l) as [Hi|Hi].
      * rewrite (B n Hi). now rewrite Ha.
      * destruct Hn as [<-|Hn]; [|contradiction].
        unfold node_has_class. rewrite (D x Hi). exact Hx.
    + intros n Hn. rewrite D by (intros Hi; apply Hn; now right).
      apply Ho. intros ->. apply Hn. now left.
    + intros n c Hc. rewrite K by exact Hc. now apply Hk.
    + repeat split; congruence.
Qed.

(** X17: the highlight of the current page.  The load listener of
    common.js completes; afterwards a navigation item has the class
    [active] exactly when its [href] is a non-empty string in which the
    last segment of [location.pathname] occurs somewhere (a substring
    test, not a comparison of file names); no attribute, no other class,
    no other node and nothing of the controller's state changes. *)
Theorem highlight_current_page_effect (pathname : string) (w : World) :
  let cur := pop_last (split_slash pathname) in
  let w' := exec (common_highlightCurrentPage pathname) w in
  completes (common_highlightCurrentPage pathname) w = true /\
  (forall n, In n (qNavItems (document w)) ->
     (node_has_class w' n "active" = true <->
      exists pre post,
        node_attr w n "href" = Some (pre ++ cur ++ post)%string /\
        (pre ++ cur ++ post)%string <> EmptyString)) /\
  (forall n k, node_attr w' n k = node_attr w n k) /\
  (forall n, ~ In n (qNavItems (document w)) -> dom w' n = dom w n) /\
  (forall n c, c <> "active" ->
     node_has_class w' n c = node_has_class w n c) /\
  state w' = state w /\ elements w' = elements w /\ timers w' = timers w.
Proof.
  cbv zeta. unfold common_highlightCurrentPage. cbv zeta.
  rewrite exec_bind_gets, completes_bind_gets.
  destruct (forEach_highlight (pop_last (split_slash pathname))
              (qNavItems (document w)) w)
    as (C & A & B & D & K & F1 & F2 & F3 & _).
  repeat split; try assumption.
  - rewrite (B n H). unfold highlighted.
    destruct (node_attr w n "href") as [[|c r]|]; try discriminate.
    intros Hi. apply includes_spec in Hi as (pre & post & E).
    exists pre, post. rewrite <- E. split; [reflexivity | discriminate].
  - intros (pre & post & E & Hne). rewrite (B n H), E. unfold highlighted.
    destruct (pre ++ pop_last (split_slash pathname) ++ post)%string
      as [|c r] eqn:Eh; [contradiction|].
    apply includes_spec. exists pre, post. now rewrite Eh.
Qed.

(** X18: on a directory URL every link is highlighted.  When
    [location.pathname] ends with a slash its last segment is the empty
    string, which occurs in every string: after the load listener every
    navigation item with a non-empty [href] has the class [active], and
    the others do not. *)
Theorem highlight_on_directory_url (dir : string) (w : World) (n : node) :
  In n (qNavItems (document w)) ->
  node_has_class
    (exec (common_highlightCurrentPage (dir ++ String slash EmptyString)) w)
    n "active"
  = truthy_string (node_attr w n "href").
Proof.
  intros Hn. unfold common_highlightCurrentPage. cbv zeta.
  rewrite exec_bind_gets.
  rewrite (current_page_after_slash dir EmptyString eq_refl).
  destruct (forEach_highlight EmptyString (qNavItems (document w)) w)
    as (_ & _ & B & _).
  rewrite (B n Hn). unfold highlighted.
  destruct (node_attr w n "href") as [[|c r]|]; cbn [truthy_string];
    [reflexivity | apply includes_empty | reflexivity].
Qed.

(** X18 at work: the site is opened at the directory /site/. *)
Lemma highlight_on_directory_url_witness :
  In 4%nat (qNavItems (document linked_world)) /\
  node_has_class
    (exec (common_highlightCurrentPage ("/site" ++ String slash EmptyString))
       linked_world)
    4%nat "active"
  = truthy_string (node_attr linked_world 4%nat "href").
Proof.
  assert (Hn : In 4%nat (qNavItems (document linked_world)))
    by (vm_compute; left; reflexivity).
  split; [exact Hn|].
  exact (highlight_on_directory_url "/site" linked_world 4%nat Hn).
Defined.
